(** * FORTLO: the lead collection loop (app.py) and the mail dispatch loop
    (app2.py), embedded as Rocq functions, with the properties of their
    filters, retry policies and send ledger.

    Conventions of the embedding.
    - A Python [str] is a [string]: a sequence of code points below 256.
    - A value that may be [None] (a missing JSON key, a JSON null, an empty
      CSV cell) is an [option string].
    - The remote services are oracles: the n-th network call of a run gets
      the answer the oracle gives for n and for the request that was sent.
    - Effects (network calls, sleeps, the CSV file, the SQLite table, the
      clock) are threaded through a state-and-exception monad. *)

From Stdlib Require Import String Ascii ZArith NArith QArith List Bool Lia.
From Stdlib Require Import Sorting.Sorted Sorting.Permutation.
From stdpp Require Import base decidable option list gmap sets strings pretty.

Local Open Scope string_scope.
Local Open Scope Z_scope.

(** ** Python built-ins used by both programs *)

Module Py.

(** [str.isspace] on one code point below 256; the class [\s] of [re]
    is the same set. *)
Definition isspace (c : ascii) : bool :=
  let n := N_of_ascii c in
  (((9 <=? n) && (n <=? 13)) || ((28 <=? n) && (n <=? 32))
   || (n =? 133) || (n =? 160))%N.

Fixpoint lstrip (s : string) : string :=
  match s with
  | EmptyString => EmptyString
  | String c s' => if isspace c then lstrip s' else s
  end.

Fixpoint rstrip (s : string) : string :=
  match s with
  | EmptyString => EmptyString
  | String c s' =>
      match rstrip s' with
      | EmptyString => if isspace c then EmptyString else String c EmptyString
      | r => String c r
      end
  end.

(** [s.strip()] *)
Definition strip (s : string) : string := lstrip (rstrip s).

Definition lower_char (c : ascii) : ascii :=
  let n := N_of_ascii c in
  if (((65 <=? n) && (n <=? 90))
      || ((192 <=? n) && (n <=? 222) && negb (n =? 215)))%N
  then ascii_of_N (n + 32) else c.

(** [s.lower()] *)
Fixpoint lower (s : string) : string :=
  match s with
  | EmptyString => EmptyString
  | String c s' => String (lower_char c) (lower s')
  end.

(** [kw in t] on two strings: [kw] occurs in [t] as a substring. *)
Fixpoint contains (kw t : string) : bool :=
  String.prefix kw t
  || match t with
     | EmptyString => false
     | String _ t' => contains kw t'
     end.

(** Truth value of an optional string: [None] and the empty string are
    falsy. *)
Definition truthy (o : option string) : bool :=
  match o with
  | Some (String _ _) => true
  | _ => false
  end.

(** [a or b] *)
Definition or_ (a b : option string) : option string :=
  if truthy a then a else b.

(** [s or ''] *)
Definition or_empty (s : option string) : string :=
  match s with
  | Some (String c r) => String c r
  | _ => EmptyString
  end.

(** [s[:n]] *)
Fixpoint slice_to (n : nat) (s : string) : string :=
  match n, s with
  | S k, String c r => String c (slice_to k r)
  | _, _ => EmptyString
  end.

(** [str.isdigit] on one code point below 256: the decimal digits and
    the superscripts one, two and three. *)
Definition isdigit_char (c : ascii) : bool :=
  let n := N_of_ascii c in
  (((48 <=? n) && (n <=? 57)) || (n =? 178) || (n =? 179) || (n =? 185))%N.

Fixpoint all_chars (p : ascii -> bool) (s : string) : bool :=
  match s with
  | EmptyString => true
  | String c r => p c && all_chars p r
  end.

(** [s.isdigit()]: false on the empty string. *)
Definition isdigit (s : string) : bool :=
  match s with
  | EmptyString => false
  | _ => all_chars isdigit_char s
  end.

Definition decimal_char (c : ascii) : bool :=
  let n := N_of_ascii c in ((48 <=? n) && (n <=? 57))%N.

Fixpoint int_acc (acc : N) (s : string) : N :=
  match s with
  | EmptyString => acc
  | String c r => int_acc (10 * acc + (N_of_ascii c - 48)) r
  end.

(** [s.isdecimal()] on code points below 256: false on the empty
    string. *)
Definition isdecimal (s : string) : bool :=
  match s with
  | EmptyString => false
  | _ => all_chars decimal_char s
  end.

(** The length of the run of decimal digits [s] starts with. *)
Fixpoint leading_digits (s : string) : nat :=
  match s with
  | EmptyString => O
  | String c r => if decimal_char c then S (leading_digits r) else O
  end.

(** [sys.get_int_max_str_digits()], as the interpreter sets it. *)
Definition MAX_STR_DIGITS : nat := 4300.

(** [repr(s)] of a string of digits. *)
Definition repr (s : string) : string := "'" ++ s ++ "'".

(** [int(s)] for a string that passed [isdigit]: its value, or the
    message of the [ValueError] it raises. A superscript digit is a digit
    for [isdigit] and an invalid literal for [int]; and [int] converts at
    most [MAX_STR_DIGITS] digits: it counts the decimal digits the string
    starts with, leading zeros included, before it looks at the rest. *)
Definition int (s : string) : string + N :=
  if (MAX_STR_DIGITS <? leading_digits s)%nat then
    inl ("Exceeds the limit (4300 digits) for integer string conversion: value has "
         ++ pretty (leading_digits s)
         ++ " digits; use sys.set_int_max_str_digits() to increase the limit")
  else if isdecimal s then inr (int_acc 0 s)
  else inl ("invalid literal for int() with base 10: " ++ slice_to 200 (repr s)).

End Py.

(** ** Effects: a state-and-exception monad

    A computation takes the world [W], and returns the world it leaves
    behind together with a value or the exception [E] that was raised. *)

Module Eff.

Inductive outcome (E A : Type) : Type :=
| Ok (a : A)
| Raised (e : E).
Arguments Ok {E A} a.
Arguments Raised {E A} e.

Definition M (W E A : Type) : Type := W -> outcome E A * W.

Definition ret {W E A} (a : A) : M W E A := fun w => (Ok a, w).

Definition bind {W E A B} (c : M W E A) (k : A -> M W E B) : M W E B :=
  fun w =>
    match c w with
    | (Ok a, w') => k a w'
    | (Raised e, w') => (Raised e, w')
    end.

Definition raise {W E A} (e : E) : M W E A := fun w => (Raised e, w).

(** [try: c  except Exception as e: h e] *)
Definition try_except {W E A} (c : M W E A) (h : E -> M W E A) : M W E A :=
  fun w =>
    match c w with
    | (Ok a, w') => (Ok a, w')
    | (Raised e, w') => h e w'
    end.

Definition get {W E} : M W E W := fun w => (Ok w, w).
Definition modify {W E} (f : W -> W) : M W E unit := fun w => (Ok tt, f w).

(** A pure step that may raise. *)
Definition lift {W E A} (o : outcome E A) : M W E A := fun w => (o, w).

(** From a world in [P], the computation ends in [Q], whether it
    returns or raises. *)
Definition hoare {W E A} (P : W -> Prop) (c : M W E A)
    (Q : outcome E A -> W -> Prop) : Prop :=
  forall w, P w -> Q (fst (c w)) (snd (c w)).

End Eff.

Import Eff.

Declare Scope eff_scope.
Delimit Scope eff_scope with eff.
Notation "'let*' x ':=' c 'in' k" := (Eff.bind c (fun x => k))
  (at level 10, x name, c at level 100, k at level 200) : eff_scope.

(** ** app.py: search, exclude, deduplicate, enrich, export *)

Module Collect.

Definition EXCLUDE_COMPANY_KEYWORDS : list string :=
  [ "accenture"; "deloitte"; "pwc"; "kpmg"; "ernst"; "ey"; "capgemini"; "ibm";
    "infosys"; "tata consultancy"; "tcs"; "wipro"; "cognizant"; "ntt data"; "atos";
    "cgi"; "hcl"; "tech mahindra"; "sap consulting"; "bearingpoint";
    "mckinsey"; "bain"; "bcg"; "oliver wyman";
    "system integrator"; "systems integrator"; "si partner";
    "recruiting"; "staffing"; "headhunt"; "talent acquisition" ].

Definition EXCLUDE_TITLE_KEYWORDS : list string :=
  [ "recruiter"; "talent"; "sales development"; "sdr"; "bdr"; "account executive";
    "marketing"; "growth"; "partner"; "principal consultant"; "consultant" ].

Definition normalize_text (s : option string) : string :=
  Py.lower (Py.strip (Py.or_empty s)).

Definition is_excluded_company (company_name : option string) : bool :=
  let n := normalize_text company_name in
  existsb (fun kw => Py.contains kw n) EXCLUDE_COMPANY_KEYWORDS.

Definition is_excluded_title (title : option string) : bool :=
  let t := normalize_text title in
  existsb (fun kw => Py.contains kw t) EXCLUDE_TITLE_KEYWORDS.

(** *** JSON shapes the code reads *)

(** What [p.get("organization", {})] finds: no such key, a value that is
    not an object (JSON null), or an object with its ["name"]. *)
Inductive org_field : Type :=
| OrgMissing
| OrgNull
| OrgObject (name : option string).

(** One element [p] of a search page. *)
Record Candidate : Type := mkCandidate {
  p_person_id : option string;
  p_id : option string;
  p_title : option string;
  p_organization_name : option string;
  p_company : option string;
  p_organization : org_field
}.

(** The object under ["organization"] of an enrichment match. *)
Record Org : Type := mkOrg {
  org_id : option string;
  org_name : option string;
  org_primary_domain : option string;
  org_website_url : option string;
  org_country : option string;
  org_city : option string
}.

(** One element [m] of ["matches"]; [m_organization] is [None] when the
    key is missing or falsy. *)
Record Match : Type := mkMatch {
  m_id : option string;
  m_person_id : option string;
  m_first_name : option string;
  m_last_name : option string;
  m_name : option string;
  m_title : option string;
  m_linkedin_url : option string;
  m_email : option string;
  m_email_status : option string;
  m_organization_id : option string;
  m_organization : option Org
}.

(** One line of the output CSV. *)
Record Row : Type := mkRow {
  person_id : option string;
  first_name : option string;
  last_name : option string;
  name : option string;
  title : option string;
  linkedin_url : option string;
  email : option string;
  email_status : option string;
  organization_id : option string;
  organization_name : option string;
  organization_domain : option string;
  organization_website : option string;
  organization_country : option string;
  organization_city : option string
}.

(** A key of the response object: missing, bound to a list, or bound
    to a value that is not a list. The elements of a list are objects. Of
    a value that is not a list Python iterates an empty object and an
    empty string as nothing, a non-empty object or string as strings (its
    keys, its characters), and raises on null, a number and a boolean. *)
Inductive json_field (A : Type) : Type :=
| Absent
| AList (l : list A)
| EmptyNotAList
| StringsNotAList
| NotIterable.
Arguments Absent {A}.
Arguments AList {A} l.
Arguments EmptyNotAList {A}.
Arguments StringsNotAList {A}.
Arguments NotIterable {A}.

(** The response object ([Dict[str, Any]] in the source). *)
Record Json : Type := mkJson {
  people : json_field Candidate;
  results : json_field Candidate;
  contacts : json_field Candidate;
  matches : json_field Match
}.

(** *** The remote service *)

Inductive Request : Type :=
| PeopleSearch (page : Z)
| BulkEnrich (details : list string).

(** An HTTP response; [retry_after] is its Retry-After header, and
    [json] is [None] when the body is not JSON and [r.json()] raises. *)
Record Response : Type := mkResponse {
  status_code : Z;
  retry_after : option string;
  json : option Json;
  text : string
}.

(** What [requests.post] does: return a response or raise. *)
Inductive HttpResult : Type :=
| Replied (r : Response)
| Failed (detail : string).

Definition Net : Type := nat -> Request -> HttpResult.

Inductive err_body : Type :=
| ErrJson (j : Json)
| ErrText (t : string).

Inductive exn : Type :=
| RequestFailed (status : Z) (err : err_body)
| RequestFailedAfterRetries (req : Request)
| TransportError (detail : string)
| JSONDecodeError
| AttributeError
| TypeError
| ValueError
| OverflowError
| OSError.

Inductive Event : Type :=
| EvPost (req : Request)
| EvSleep (seconds : Q)
| EvWrite (rows : list Row).

(** The output CSV: whether it starts with the line of column names,
    and the rows written to it. [write_rows] writes the names when it
    creates the file; a file that was there before the first write, empty,
    has none. *)
Record File : Type := mkFile {
  headed : bool;
  lines : list Row
}.

(** The world of a run: how many network calls were made, what was
    done so far (latest first), the output CSV ([None] when there is no
    such file), and what the platform does with a sleep of [LONG_SLEEP]
    seconds or more: sleep, or raise. *)
Record World : Type := mkWorld {
  calls : nat;
  trace : list Event;
  output_csv : option File;
  long_sleep : Q -> option exn
}.

(** The rows of the output CSV. *)
Definition table (w : World) : list Row :=
  match output_csv w with
  | Some f => lines f
  | None => []
  end.

Definition Run (A : Type) : Type := M World exn A.

Local Open Scope eff_scope.

Definition emit (e : Event) : Run unit :=
  modify (fun w => mkWorld (calls w) (e :: trace w) (output_csv w) (long_sleep w)).

(** A sleep shorter than this is taken to succeed on every platform;
    a longer one may be refused by the operating system (Linux refuses a
    deadline beyond 9223372036 seconds of uptime, others a delay of more
    than 100000000 seconds). *)
Definition LONG_SLEEP : Q := 100000000.

(** From here on the delay, in nanoseconds, overflows the 64 bits of
    the interpreter's clock type. *)
Definition SLEEP_OVERFLOW : Q := 9223372037.

(** [time.sleep(seconds)], for a finite [seconds]. *)
Definition sleep (seconds : Q) : Run unit :=
  if negb (Qle_bool 0 seconds) then raise ValueError
  else if Qle_bool SLEEP_OVERFLOW seconds then raise OverflowError
  else if Qle_bool LONG_SLEEP seconds then
    let* w := get in
    match long_sleep w seconds with
    | Some e => raise e
    | None => emit (EvSleep seconds)
    end
  else emit (EvSleep seconds).

Definition requests_post (net : Net) (req : Request) : Run Response :=
  let* w := get in
  let* _ := modify (fun w => mkWorld (S (calls w)) (EvPost req :: trace w)
                                     (output_csv w) (long_sleep w)) in
  match net (calls w) req with
  | Replied r => ret r
  | Failed d => raise (TransportError d)
  end.

Definition retryable (status : Z) : bool :=
  existsb (Z.eqb status) [429; 500; 502; 503; 504].

Fixpoint post_attempts (net : Net) (req : Request) (attempts : nat) (delay : Z)
  : Run Json :=
  match attempts with
  | O => raise (RequestFailedAfterRetries req)
  | S attempts' =>
      let* r := requests_post net req in
      if status_code r =? 200 then
        match json r with
        | Some j => ret j
        | None => raise JSONDecodeError
        end
      else if retryable (status_code r) then
        let* _ := sleep (inject_Z delay) in
        post_attempts net req attempts' (Z.min (delay * 2) 30)
      else
        raise (RequestFailed (status_code r)
                 match json r with
                 | Some j => ErrJson j
                 | None => ErrText (text r)
                 end)
  end.

Definition post_with_backoff (net : Net) (req : Request) (max_retries : Z)
  : Run Json :=
  post_attempts net req (Z.to_nat max_retries) 1.

Definition default_max_retries : Z := 6.

(** *** Helpers of the collection loop *)

Definition parse_people_from_search (resp : Json) : list Candidate :=
  match people resp with
  | AList l => l
  | _ =>
      match results resp with
      | AList l => l
      | _ =>
          match contacts resp with
          | AList l => l
          | _ => []
          end
      end
  end.

Definition get_person_id (p : Candidate) : option string :=
  Py.or_ (p_person_id p) (p_id p).

(** [[lst[i:i+n] for i in range(0, len(lst), n)]], for [n > 0]. *)
Definition chunked {A} (lst : list A) (n : nat) : list (list A) :=
  List.map (fun k => firstn n (skipn (k * n) lst))
           (seq 0 ((length lst + n - 1) / n)%nat).

(** [sorted(rows[0].keys())]: the columns of the CSV. *)
Definition FIELDNAMES : list string :=
  [ "email"; "email_status"; "first_name"; "last_name"; "linkedin_url"; "name";
    "organization_city"; "organization_country"; "organization_domain";
    "organization_id"; "organization_name"; "organization_website";
    "person_id"; "title" ].

(** The cells [csv.DictWriter] writes for a row, [None] as the empty
    string. *)
Definition cells (r : Row) : list string :=
  List.map Py.or_empty
    [ email r; email_status r; first_name r; last_name r; linkedin_url r; name r;
      organization_city r; organization_country r; organization_domain r;
      organization_id r; organization_name r; organization_website r;
      person_id r; title r ].

(** The records of the file as [csv.reader] returns them. *)
Definition records (f : File) : list (list string) :=
  ((if headed f then [FIELDNAMES] else []) ++ List.map cells (lines f))%list.

(** [dict(zip(names, values)).get(key)]: the value under the last
    column called [key]. *)
Fixpoint dict_get (key : string) (names values : list string) : option string :=
  match names, values with
  | n :: names', v :: values' =>
      match dict_get key names' values' with
      | Some x => Some x
      | None => if String.eqb n key then Some v else None
      end
  | _, _ => None
  end.

(** The body of [for row in reader], [names] being the first record
    of the file. *)
Definition read_ids (names : list string) (rest : list (list string)) : gset string :=
  fold_left
    (fun ids values =>
       let pid := dict_get "person_id" names values in
       if Py.truthy pid then {[ Py.or_empty pid ]} ∪ ids else ids)
    rest ∅.

(** [load_existing_person_ids(output_csv)]: [csv.DictReader] takes the
    first record of the file for the column names, whatever it holds. *)
Definition load_existing_person_ids (output_csv : option File) : gset string :=
  match output_csv with
  | None => ∅
  | Some f =>
      match records f with
      | [] => ∅
      | names :: rest => read_ids names rest
      end
  end.

(** The file after [write_rows]: created with the column names if it
    did not exist, appended to if it did. *)
Definition appended (output_csv : option File) (rows : list Row) : File :=
  match output_csv with
  | None => mkFile true rows
  | Some f => mkFile (headed f) (lines f ++ rows)
  end.

Definition write_rows (rows : list Row) : Run unit :=
  match rows with
  | [] => ret tt
  | _ => modify (fun w => mkWorld (calls w) (EvWrite rows :: trace w)
                                  (Some (appended (output_csv w) rows)) (long_sleep w))
  end.

(** [p.get("organization_name") or p.get("company")
     or p.get("organization", {}).get("name")] *)
Definition org_name_of (p : Candidate) : outcome exn (option string) :=
  if Py.truthy (p_organization_name p) then Ok (p_organization_name p)
  else if Py.truthy (p_company p) then Ok (p_company p)
  else match p_organization p with
       | OrgMissing => Ok None
       | OrgNull => Raised AttributeError
       | OrgObject n => Ok n
       end.

(** The body of [for p in people], with [kept] as the accumulator. *)
Fixpoint keep_people (existing_ids : gset string) (people : list Candidate)
    (kept : list Candidate) : outcome exn (list Candidate) :=
  match people with
  | [] => Ok kept
  | p :: rest =>
      let pid := get_person_id p in
      if negb (Py.truthy pid) then keep_people existing_ids rest kept
      else if bool_decide (Py.or_empty pid ∈ existing_ids)
      then keep_people existing_ids rest kept
      else
        let title := Py.or_empty (p_title p) in
        match org_name_of p with
        | Raised e => Raised e
        | Ok org_name =>
            if is_excluded_title (Some title) then keep_people existing_ids rest kept
            else if is_excluded_company org_name then keep_people existing_ids rest kept
            else keep_people existing_ids rest (kept ++ [p])
        end
  end.

Definition search_page (net : Net) (page : Z) : Run Json :=
  try_except
    (post_with_backoff net (PeopleSearch page) default_max_retries)
    (fun _ =>
       let* _ := sleep (inject_Z 5) in
       post_with_backoff net (PeopleSearch page) default_max_retries).

(** [for page in range(page, page + pages)] of [main]. *)
Fixpoint search_loop (net : Net) (args_sleep : Q) (existing_ids : gset string)
    (pages : nat) (page : Z) (all_people : list Candidate)
  : Run (list Candidate) :=
  match pages with
  | O => ret all_people
  | S pages' =>
      let* resp := search_page net page in
      match parse_people_from_search resp with
      | [] => ret all_people
      | people =>
          let* kept := lift (keep_people existing_ids people []) in
          let* _ := sleep args_sleep in
          search_loop net args_sleep existing_ids pages' (page + 1)
                      (all_people ++ kept)
      end
  end.

Definition row_of_match (m : Match) : Row :=
  let org := default (mkOrg None None None None None None) (m_organization m) in
  {| person_id := Py.or_ (m_id m) (m_person_id m);
     first_name := m_first_name m;
     last_name := m_last_name m;
     name := m_name m;
     title := m_title m;
     linkedin_url := m_linkedin_url m;
     email := m_email m;
     email_status := m_email_status m;
     organization_id := Py.or_ (m_organization_id m) (org_id org);
     organization_name := org_name org;
     organization_domain := Py.or_ (org_primary_domain org) (org_website_url org);
     organization_website := org_website_url org;
     organization_country := org_country org;
     organization_city := org_city org |}.

(** The body of [for m in matches]. *)
Fixpoint collect_rows (ms : list Match) (rows_to_write : list Row) : list Row :=
  match ms with
  | [] => rows_to_write
  | m :: rest =>
      let row := row_of_match m in
      if is_excluded_company (organization_name row) then collect_rows rest rows_to_write
      else if is_excluded_title (title row) then collect_rows rest rows_to_write
      else collect_rows rest (rows_to_write ++ [row])
  end.

(** [[{"id": pid} for p in batch if pid]] *)
Definition details_of (batch : list Candidate) : list string :=
  omap (fun p => if Py.truthy (get_person_id p)
                 then Some (Py.or_empty (get_person_id p)) else None) batch.

Definition ids_of_rows (rows : list Row) : list string :=
  omap (fun r => if Py.truthy (person_id r)
                 then Some (Py.or_empty (person_id r)) else None) rows.

(** [for i, batch in enumerate(batches, start=1)] of [main]; the result
    is the final value of [existing_ids]. Of a ["matches"] that is not a
    list, [for m in matches] finds no element if it is an empty object or
    string, strings without [get] if it is a non-empty one, and raises on
    any other value. *)
Fixpoint enrich_loop (net : Net) (args_sleep : Q) (batches : list (list Candidate))
    (existing_ids : gset string) (rows_to_write : list Row)
  : Run (gset string) :=
  match batches with
  | [] => ret existing_ids
  | batch :: rest =>
      let* enrich_resp :=
        post_with_backoff net (BulkEnrich (details_of batch)) default_max_retries in
      let* ms := match matches enrich_resp with
                 | Absent => ret []
                 | AList l => ret l
                 | EmptyNotAList => ret []
                 | StringsNotAList => raise AttributeError
                 | NotIterable => raise TypeError
                 end in
      let rows_to_write := collect_rows ms rows_to_write in
      let* _ := write_rows rows_to_write in
      let existing_ids' :=
        match rows_to_write with
        | [] => existing_ids
        | _ => list_to_set (ids_of_rows rows_to_write) ∪ existing_ids
        end in
      let* _ := sleep args_sleep in
      enrich_loop net args_sleep rest existing_ids' []
  end.

Record Args : Type := mkArgs {
  max_pages : Z;
  dry_run : bool;
  args_sleep : Q
}.

(** [main()]; the recipe selected by [--mode] only fixes the filters
    sent with each search and is part of what the oracle sees as the
    search request. *)
Definition main (net : Net) (args : Args) : Run unit :=
  let* w := get in
  let existing_ids := load_existing_person_ids (output_csv w) in
  let* all_people :=
    search_loop net (args_sleep args) existing_ids
                (Z.to_nat (max_pages args)) 1 [] in
  if dry_run args then ret tt
  else
    let* _ := enrich_loop net (args_sleep args) (chunked all_people 10)
                          existing_ids [] in
    ret tt.

(** The world in which a process starts when the output CSV holds the
    rows [csv] that earlier runs wrote to a file they created (there is no
    file when there are no rows), on a platform that refuses no sleep. *)
Definition start (csv : list Row) : World :=
  mkWorld 0 [] match csv with
               | [] => None
               | _ => Some (mkFile true csv)
               end
          (fun _ => None).

(** The identities of the rows that have one. *)
Definition person_ids (rows : list Row) : gset string :=
  list_to_set (ids_of_rows rows).

(** The output CSV can be read back: it is absent, or it starts with
    the column names. *)
Definition readable (output_csv : option File) : Prop :=
  forall f, output_csv = Some f -> headed f = true.

(** *** Vocabulary of the statements *)

(** The delay slept after the k-th retryable answer (k from 0). *)
Definition backoff_delay (k : nat) : Z := Z.min (2 ^ Z.of_nat k) 30.

(** [m] rounds of request-then-sleep, the first with the k-th delay, in
    the order they happen. *)
Definition retry_events (req : Request) (k m : nat) : list Event :=
  flat_map (fun i => [EvPost req; EvSleep (inject_Z (backoff_delay i))]) (seq k m).

(** How the attempt that was not retried ends the call. *)
Definition final_outcome (res : HttpResult) : outcome exn Json :=
  match res with
  | Failed d => Raised (TransportError d)
  | Replied r =>
      if status_code r =? 200 then
        match json r with
        | Some j => Ok j
        | None => Raised JSONDecodeError
        end
      else Raised (RequestFailed (status_code r)
                     match json r with
                     | Some j => ErrJson j
                     | None => ErrText (text r)
                     end)
  end.

Definition is_retryable_reply (res : HttpResult) : bool :=
  match res with
  | Replied r => negb (status_code r =? 200) && retryable (status_code r)
  | Failed _ => false
  end.

(** The employer name of a search result, when reading it does not
    raise. *)
Definition employer (p : Candidate) : option string :=
  Py.or_ (Py.or_ (p_organization_name p) (p_company p))
         match p_organization p with
         | OrgObject n => n
         | _ => None
         end.

(** Reading the employer name of [p] raises: ["organization"] is bound
    to a value without [get], and neither ["organization_name"] nor
    ["company"] holds a name. *)
Definition org_raises (p : Candidate) : bool :=
  negb (Py.truthy (p_organization_name p)) && negb (Py.truthy (p_company p))
  && match p_organization p with
     | OrgNull => true
     | _ => false
     end.

(** The loop stops at [p] with an exception: [p] has an identity that
    is not in [existing_ids], so that its employer name is read, and
    reading it raises. *)
Definition aborts (existing_ids : gset string) (p : Candidate) : bool :=
  Py.truthy (get_person_id p)
  && negb (bool_decide (Py.or_empty (get_person_id p) ∈ existing_ids))
  && org_raises p.

(** The rule of the specification: a candidate is kept when it has an
    identity that was not seen, a title without excluded keyword and an
    employer name without excluded keyword. *)
Definition spec_keeps (existing_ids : gset string) (p : Candidate) : bool :=
  Py.truthy (get_person_id p)
  && negb (bool_decide (Py.or_empty (get_person_id p) ∈ existing_ids))
  && negb (is_excluded_title (p_title p))
  && negb (is_excluded_company (employer p)).

(** The search requests of a trace, in the order they were sent. *)
Definition searched_pages (tr : list Event) : list Z :=
  omap (fun e => match e with
                 | EvPost (PeopleSearch page) => Some page
                 | _ => None
                 end) (rev tr).

(** The enrichment service answers for the identities it was asked
    about: every match that has an identity has one of the request. *)
Definition faithful (net : Net) : Prop :=
  forall n details r j ms m,
    net n (BulkEnrich details) = Replied r ->
    status_code r = 200 ->
    json r = Some j ->
    matches j = AList ms ->
    In m ms ->
    Py.truthy (person_id (row_of_match m)) = true ->
    In (Py.or_empty (person_id (row_of_match m))) details.

(** The identity of [p], if it has one, is not in [known]. *)
Definition fresh (known : gset string) (p : Candidate) : Prop :=
  Py.truthy (get_person_id p) = true -> Py.or_empty (get_person_id p) ∉ known.

(** The row does not carry an identity of [known]. *)
Definition unknown_row (known : gset string) (r : Row) : Prop :=
  forall id, id ∈ known -> person_id r <> Some id.

(** The state of a run started from the rows [csv0] and the trace
    [tr0], as far as the identities [known] are concerned: the CSV was
    only appended to, no enrichment request carried a known identity, and,
    under the assumption [strict] made on the enrichment service, the
    appended rows are of other identities. *)
Definition known_untouched (strict : Prop) (known : gset string) (csv0 : list Row)
    (tr0 : list Event) (w : World) : Prop :=
  (exists new, table w = (csv0 ++ new)%list
               /\ (strict -> Forall (unknown_row known) new)) /\
  (forall details, In (EvPost (BulkEnrich details)) (trace w) ->
                   In (EvPost (BulkEnrich details)) tr0
                   \/ Forall (fun id => id ∉ known) details).

(** Two answers that differ at most in their Retry-After header. *)
Definition same_but_retry_after (a b : HttpResult) : Prop :=
  match a, b with
  | Replied r, Replied r' =>
      status_code r = status_code r' /\ json r = json r' /\ text r = text r'
  | Failed d, Failed d' => d = d'
  | _, _ => False
  end.

End Collect.

(** ** Regular expressions, as far as [re.match] is used *)

Module Re.

Inductive regex : Type :=
| Void
| Eps
| Class (p : ascii -> bool)
| Cat (a b : regex)
| Alt (a b : regex)
| Star (a : regex).

(** [a+] *)
Definition plus (a : regex) : regex := Cat a (Star a).

Fixpoint nullable (r : regex) : bool :=
  match r with
  | Void => false
  | Eps => true
  | Class _ => false
  | Cat a b => nullable a && nullable b
  | Alt a b => nullable a || nullable b
  | Star _ => true
  end.

(** The words [w] such that [c :: w] is in [r]. *)
Fixpoint deriv (c : ascii) (r : regex) : regex :=
  match r with
  | Void => Void
  | Eps => Void
  | Class p => if p c then Eps else Void
  | Cat a b =>
      if nullable a then Alt (Cat (deriv c a) b) (deriv c b)
      else Cat (deriv c a) b
  | Alt a b => Alt (deriv c a) (deriv c b)
  | Star a => Cat (deriv c a) (Star a)
  end.

Fixpoint fullmatch (r : regex) (s : string) : bool :=
  match s with
  | EmptyString => nullable r
  | String c s' => fullmatch (deriv c r) s'
  end.

Fixpoint chop_newline (s : string) : option string :=
  match s with
  | EmptyString => None
  | String c EmptyString => if Ascii.eqb c "010" then Some EmptyString else None
  | String c s' => option_map (String c) (chop_newline s')
  end.

(** [re.match("^" r "$", s) is not None]: [$] stands at the end of the
    string and also just before a newline that ends it. *)
Definition match_anchored (r : regex) (s : string) : bool :=
  fullmatch r s
  || match chop_newline s with
     | Some s' => fullmatch r s'
     | None => false
     end.

(** The words of a regular expression. *)
Inductive lang : regex -> string -> Prop :=
| lang_eps : lang Eps EmptyString
| lang_class p c : p c = true -> lang (Class p) (String c EmptyString)
| lang_cat a b s1 s2 : lang a s1 -> lang b s2 -> lang (Cat a b) (s1 ++ s2)
| lang_alt_l a b s : lang a s -> lang (Alt a b) s
| lang_alt_r a b s : lang b s -> lang (Alt a b) s
| lang_star_nil a : lang (Star a) EmptyString
| lang_star_cons a s1 s2 : lang a s1 -> lang (Star a) s2 -> lang (Star a) (s1 ++ s2).

End Re.

(** ** app2.py: filter, rank, send under quota, log to the ledger *)

Module Dispatch.

Definition ALLOWED_EMAIL_STATUS : list string := [ "verified"; "likely to engage" ].
Definition MAX_PER_COMPANY_PER_DAY : Z := 2.
Definition SLEEP_BETWEEN_SENDS_SEC : N := 180.

(** [[^@\s]] *)
Definition not_at_space (c : ascii) : bool :=
  negb (Ascii.eqb c "@") && negb (Py.isspace c).

(** [^[^@\s]+@[^@\s]+\.[^@\s]+$] *)
Definition EMAIL_RE : Re.regex :=
  Re.Cat (Re.plus (Re.Class not_at_space))
    (Re.Cat (Re.Class (Ascii.eqb "@"))
       (Re.Cat (Re.plus (Re.Class not_at_space))
          (Re.Cat (Re.Class (Ascii.eqb "."))
             (Re.plus (Re.Class not_at_space))))).

Definition is_valid_email (e : string) : bool :=
  if negb (Py.contains "@" e) then false
  else Re.match_anchored EMAIL_RE (Py.strip e).

(** *** The ledger: table [sent] of outreach_log.sqlite *)

(** A calendar day is its number in the local calendar;
    [str(date.today())] is one-to-one on days. *)
Record Entry : Type := mkEntry {
  send_date : N;
  sent_at : N;
  e_email : string;
  e_person_id : string;
  e_company : string;
  e_subject : string;
  e_status : string
}.

(** The rows of [sent], in insertion order. *)
Definition Ledger : Type := list Entry.

Definition count_where (f : Entry -> bool) (con : Ledger) : Z :=
  Z.of_nat (length (List.filter f con)).

(** [SELECT COUNT( * ) FROM sent WHERE send_date=?] *)
Definition sent_count_today (con : Ledger) (today : N) : Z :=
  count_where (fun e => (send_date e =? today)%N) con.

(** [SELECT 1 FROM sent WHERE send_date=? AND email=? LIMIT 1] *)
Definition already_sent_today (con : Ledger) (today : N) (email : string) : bool :=
  existsb (fun e => (send_date e =? today)%N && String.eqb (e_email e) email) con.

(** [SELECT COUNT( * ) FROM sent WHERE send_date=? AND company=?] *)
Definition company_count_today (con : Ledger) (today : N) (company : string) : Z :=
  count_where (fun e => (send_date e =? today)%N && String.eqb (e_company e) company) con.

(** [SELECT COUNT( * ) FROM sent WHERE send_date=? AND email=?], called
    with the company name. *)
Definition customer_count_today (con : Ledger) (today : N) (company : string) : Z :=
  count_where (fun e => (send_date e =? today)%N && String.eqb (e_email e) company) con.

(** [INSERT OR IGNORE INTO sent ...] under the unique index on
    [(email, send_date)]: a row whose key is taken is not inserted. *)
Definition insert_or_ignore (con : Ledger) (row : Entry) : Ledger :=
  if existsb (fun e => String.eqb (e_email e) (e_email row)
                       && (send_date e =? send_date row)%N) con
  then con
  else (con ++ [row])%list.

(** *** The lead sheet as pandas reads it *)

(** One line of the CSV; an empty cell is [None] (NaN). *)
Record Lead : Type := mkLead {
  l_email : option string;
  l_email_status : option string;
  l_title : option string;
  l_organization_name : option string;
  l_first_name : option string;
  l_person_id : option string
}.

(** One row of [df] after normalisation and scoring. *)
Record Rec : Type := mkRec {
  email : string;
  email_status_norm : string;
  seniority : Z;
  lead : Lead
}.

(** [str(x)] of a cell. *)
Definition str (x : option string) : string :=
  match x with
  | Some s => s
  | None => "nan"
  end.

Definition SENIORITY_TABLE : list (string * Z) :=
  [ ("chief", 5); ("cdo", 5); ("cio", 5); ("vp", 4); ("director", 3);
    ("head", 3); ("manager", 2); ("lead", 2) ].

Fixpoint first_score (table : list (string * Z)) (t : string) : Z :=
  match table with
  | [] => 1
  | (kw, score) :: rest => if Py.contains kw t then score else first_score rest t
  end.

Definition seniority_score (title : option string) : Z :=
  let t := Py.lower (str title) in
  first_score SENIORITY_TABLE t.

(** [load_do_not_email()]; the file is its lines, or [None] if absent. *)
Definition load_do_not_email (file : option (list string)) : gset string :=
  match file with
  | None => ∅
  | Some lines =>
      list_to_set
        (List.map (fun line => Py.lower (Py.strip line))
                  (List.filter (fun line => negb (String.eqb (Py.strip line) EmptyString)) lines))
  end.

Definition normalize (l : Lead) : Rec :=
  {| email := Py.strip (str (l_email l));
     email_status_norm := Py.strip (Py.lower (str (l_email_status l)));
     seniority := 0;
     lead := l |}.

Definition allowed_status (st : string) : bool :=
  existsb (String.eqb st) ALLOWED_EMAIL_STATUS.

(** The three [df = df[...]] filters of [main], in order. *)
Definition prefilter (do_not_email : gset string) (df : list Rec) : list Rec :=
  let df := List.filter (fun r => is_valid_email (email r)) df in
  let df := List.filter (fun r => allowed_status (email_status_norm r)) df in
  List.filter (fun r => negb (bool_decide (Py.lower (email r) ∈ do_not_email))) df.

Definition with_score (r : Rec) : Rec :=
  {| email := email r;
     email_status_norm := email_status_norm r;
     seniority := seniority_score (l_title (lead r));
     lead := lead r |}.

(** *** The mail service, the credential provider and the clock *)

Record MailResponse : Type := mkMailResponse {
  status_code : Z;
  retry_after : option string;
  text : string
}.

(** What [graph_post_sendmail] does after [elapsed] seconds: return a
    response or raise. *)
Inductive SendResult : Type :=
| Answered (elapsed : N) (r : MailResponse)
| Broke (elapsed : N) (detail : string).

Record Payload : Type := mkPayload {
  subject : string;
  greeting : string;
  company_line : string;
  to_address : string;
  logo_b64 : string
}.

(** Everything a run takes from outside.
    [sort_values] is [DataFrame.sort_values(by=["seniority_score"],
    ascending=False)] with pandas' default sort kind.
    [local_date] is the calendar of the machine: the day [date.today()]
    returns when the clock shows the given second.
    [long_sleep] is what the platform does with a sleep of [LONG_SLEEP]
    seconds or more, asked for at the given second: sleep ([None]), or
    raise an [OSError] with the given message. *)
Record Env : Type := mkEnv {
  DAILY_LIMIT : Z;
  csv : list Lead;
  do_not_email_file : option (list string);
  logo_file : option string;
  sort_values : list Rec -> list Rec;
  get_access_token_nth : nat -> string + string;
  graph_nth : nat -> SendResult;
  local_date : N -> N;
  long_sleep : N -> N -> option string
}.

Inductive exn : Type :=
| TransportError (detail : string)
| TokenError (detail : string)
| ValueError (message : string)
| OverflowError
| OSError (message : string)
| AttributeError
| FileNotFoundError.

(** [f"{e}"] *)
Definition exn_text (e : exn) : string :=
  match e with
  | TransportError d => d
  | TokenError d => d
  | ValueError m => m
  | OverflowError => "timestamp too large to convert to C _PyTime_t"
  | OSError m => m
  | AttributeError => "'float' object has no attribute 'strip'"
  | FileNotFoundError => "[Errno 2] No such file or directory: 'forte4_logo.png'"
  end.

Inductive Event : Type :=
| EvSend (token : string) (payload : Payload)
| EvSleep (seconds : N)
| EvNotify (message : string).

(** The world of a run: the clock in seconds, the ledger, the number of
    mail calls and of token requests made, the locals [token] and
    [sent_now] of [main], the global [last_sent_message] of helpers.py,
    and what was done so far (latest first). *)
Record World : Type := mkWorld {
  now : N;
  con : Ledger;
  sends : nat;
  token_requests : nat;
  token : string;
  sent_now : Z;
  last_sent_message : option string;
  trace : list Event
}.

Definition Run (A : Type) : Type := M World exn A.

Local Open Scope eff_scope.

(** [date.today()]: the local date at the current second. *)
Definition today (env : Env) (w : World) : N := local_date env (now w).

Definition set_con (c : Ledger) (w : World) : World :=
  mkWorld (now w) c (sends w) (token_requests w) (token w) (sent_now w)
          (last_sent_message w) (trace w).

Definition set_token (t : string) (w : World) : World :=
  mkWorld (now w) (con w) (sends w) (S (token_requests w)) t (sent_now w)
          (last_sent_message w) (trace w).

(** The world [seconds] later. *)
Definition slept (seconds : N) (w : World) : World :=
  mkWorld (now w + seconds) (con w) (sends w) (token_requests w)
          (token w) (sent_now w) (last_sent_message w)
          (EvSleep seconds :: trace w).

(** A sleep shorter than this is taken to succeed on every platform;
    a longer one may be refused by the operating system (Linux refuses a
    deadline beyond 9223372036 seconds of uptime, others a delay of more
    than 100000000 seconds). *)
Definition LONG_SLEEP : N := 100000000.

(** From here on the delay, in nanoseconds, overflows the 64 bits of
    the interpreter's clock type. *)
Definition SLEEP_OVERFLOW : N := 9223372037.

(** What [time.sleep(seconds)] raises, if it does. *)
Definition sleep_error (env : Env) (seconds : N) (w : World) : option exn :=
  if (SLEEP_OVERFLOW <=? seconds)%N then Some OverflowError
  else if (LONG_SLEEP <=? seconds)%N then option_map OSError (long_sleep env (now w) seconds)
  else None.

(** [time.sleep(seconds)] *)
Definition sleep (env : Env) (seconds : N) : Run unit :=
  let* w := get in
  match sleep_error env seconds w with
  | Some e => raise e
  | None => modify (slept seconds)
  end.

Definition mark_sent (env : Env) (email person_id company subject status : string)
  : Run unit :=
  modify (fun w =>
            set_con (insert_or_ignore (con w)
                       (mkEntry (today env w) (now w) email person_id company subject
                                status))
                    w).

(** [sent_now = 0] *)
Definition reset_sent_now : Run unit :=
  modify (fun w => mkWorld (now w) (con w) (sends w) (token_requests w) (token w)
                           0 (last_sent_message w) (trace w)).

(** [sent_now += 1] *)
Definition count_sent_now : Run unit :=
  modify (fun w => mkWorld (now w) (con w) (sends w) (token_requests w) (token w)
                           (sent_now w + 1) (last_sent_message w) (trace w)).

(** [token = get_access_token()] *)
Definition get_access_token (env : Env) : Run unit :=
  let* w := get in
  match get_access_token_nth env (token_requests w) with
  | inl t => modify (set_token t)
  | inr d =>
      let* _ := modify (set_token (token w)) in
      raise (TokenError d)
  end.

(** [graph_post_sendmail(token, payload)] *)
Definition graph_post_sendmail (env : Env) (payload : Payload) : Run MailResponse :=
  let* w := get in
  let result := graph_nth env (sends w) in
  let elapsed := match result with Answered t _ => t | Broke t _ => t end in
  let* _ := modify (fun w => mkWorld (now w + elapsed) (con w) (S (sends w))
                                     (token_requests w) (token w) (sent_now w)
                                     (last_sent_message w)
                                     (EvSend (token w) payload :: trace w)) in
  match result with
  | Answered _ r => ret r
  | Broke _ d => raise (TransportError d)
  end.

(** [(row.get(key) or '').strip()]: NaN is truthy and has no [strip]. *)
Definition cell_strip (x : option string) : outcome exn string :=
  match x with
  | Some s => Ok (Py.strip s)
  | None => Raised AttributeError
  end.

Definition build_message (env : Env) (row : Rec) : Run Payload :=
  let* first := lift (cell_strip (l_first_name (lead row))) in
  let* company := lift (cell_strip (l_organization_name (lead row))) in
  let subject :=
    "AVC at " ++ company ++ " re: master data governance for SAP S/4HANA programs" in
  match logo_file env with
  | None => raise FileNotFoundError
  | Some logo =>
      ret {| subject := subject;
             greeting := match first with EmptyString => "there" | _ => first end;
             company_line := company;
             to_address := email row;
             logo_b64 := logo |}
  end.

Definition is_success (status : Z) : bool := (status =? 202) || (status =? 200).

Definition error_status (r : MailResponse) : string :=
  "error:" ++ pretty (status_code r) ++ ":" ++ Py.slice_to 200 (text r).

(** [int(retry_after) if retry_after and retry_after.isdigit() else 10] *)
Definition retry_delay (retry_after : option string) : outcome exn N :=
  match retry_after with
  | Some s =>
      if Py.truthy (Some s) && Py.isdigit s then
        match Py.int s with
        | inr n => Ok n
        | inl message => Raised (ValueError message)
        end
      else Ok 10%N
  | None => Ok 10%N
  end.

(** The [try] block of the loop. *)
Definition attempt (env : Env) (payload : Payload)
    (email person_id company subject : string) : Run unit :=
  let* resp := graph_post_sendmail env payload in
  let* resp :=
    if status_code resp =? 401 then
      let* _ := get_access_token env in
      graph_post_sendmail env payload
    else ret resp in
  if is_success (status_code resp) then
    let* _ := mark_sent env email person_id company subject "sent" in
    count_sent_now
  else if status_code resp =? 429 then
    let* sleep_s := lift (retry_delay (retry_after resp)) in
    let* _ := sleep env sleep_s in
    let* resp2 := graph_post_sendmail env payload in
    if is_success (status_code resp2) then
      let* _ := mark_sent env email person_id company subject "sent" in
      count_sent_now
    else
      mark_sent env email person_id company subject (error_status resp2)
  else
    mark_sent env email person_id company subject (error_status resp).

(** The body of [for _, r in df.iterrows()]. *)
Definition loop_body (env : Env) (r : Rec) : Run unit :=
  let* w := get in
  let* _ := if sent_count_today (con w) (today env w) >=? DAILY_LIMIT env
            then sleep env 86500 else ret tt in
  let company := Py.strip (str (l_organization_name (lead r))) in
  let* w := get in
  if match company with EmptyString => false | _ => true end
     && (customer_count_today (con w) (today env w) company >=? MAX_PER_COMPANY_PER_DAY)
  then ret tt
  else
    let* payload := build_message env r in
    let subject := subject payload in
    let email := email r in
    let person_id := Py.strip (str (l_person_id (lead r))) in
    let* _ := try_except
                (attempt env payload email person_id company subject)
                (fun e => mark_sent env email person_id company subject
                                    ("exception:" ++ exn_text e)) in
    sleep env SLEEP_BETWEEN_SENDS_SEC.

Fixpoint dispatch_loop (env : Env) (df : list Rec) : Run unit :=
  match df with
  | [] => ret tt
  | r :: rest =>
      let* _ := loop_body env r in
      dispatch_loop env rest
  end.

(** [send_notification_custom(message)] of helpers.py. *)
Definition send_notification_custom (message : string) : Run unit :=
  let* w := get in
  if match last_sent_message w with
     | Some m => String.eqb message m
     | None => false
     end
  then ret tt
  else modify (fun w => mkWorld (now w) (con w) (sends w) (token_requests w) (token w)
                                (sent_now w) (Some message) (EvNotify message :: trace w)).

(** The rows the loop iterates over. *)
Definition candidates (env : Env) : list Rec :=
  let do_not_email := load_do_not_email (do_not_email_file env) in
  let df := List.map normalize (csv env) in
  let df := prefilter do_not_email df in
  let df := List.map with_score df in
  sort_values env df.

(** [main()], with TENANT_ID, CLIENT_ID and SENDER_UPN set. *)
Definition main (env : Env) : Run unit :=
  let* w := get in
  if sent_count_today (con w) (today env w) >=? DAILY_LIMIT env then ret tt
  else
    let df := candidates env in
    let* _ := get_access_token env in
    let* _ := reset_sent_now in
    let* _ := dispatch_loop env df in
    let* w := get in
    send_notification_custom
      ("[done] Sent " ++ pretty (sent_now w) ++ " emails, time to refuel the list boss").

(** The world in which a process starts: helpers.py has sent its
    greeting on import. *)
Definition start (clock : N) (db : Ledger) : World :=
  mkWorld clock db 0 0 EmptyString 0 (Some "hi there boss") [].

(** *** Vocabulary of the statements *)

(** The key of the unique index [idx_sent_email_date]. *)
Definition key (e : Entry) : string * N := (e_email e, send_date e).

Definition unique_keys (con : Ledger) : Prop := NoDup (List.map key con).

Definition entries_for (email : string) (day : N) (con : Ledger) : list Entry :=
  List.filter (fun e => String.eqb (e_email e) email && (send_date e =? day)%N) con.

(** The number of rows of day [day] whose status is "sent". *)
Definition sent_on (day : N) (con : Ledger) : Z :=
  count_where (fun e => (send_date e =? day)%N && String.eqb (e_status e) "sent") con.

Definition within_quota (limit : Z) (con : Ledger) : Prop :=
  forall day, sent_on day con <= limit.

(** Descending seniority: [a] may stand before [b]. *)
Definition by_seniority_desc (a b : Rec) : Prop := seniority b <= seniority a.

(** What [sort_values(by=["seniority_score"], ascending=False)] promises
    with the default sort kind: the same rows, in descending order of the
    key. The default kind is not a stable sort, so nothing is promised on
    the order of rows with equal keys. *)
Definition sort_contract (sort : list Rec -> list Rec) : Prop :=
  forall df, Permutation df (sort df) /\ StronglySorted by_seniority_desc (sort df).

(** The shape local@domain.tld: three non-empty parts without "@" and
    without white space, the first two separated by "@", the last two by
    a dot (the domain part may hold dots of its own). *)
Definition email_shape (s : string) : Prop :=
  exists l d t,
    s = l ++ "@" ++ d ++ "." ++ t /\
    l <> EmptyString /\ d <> EmptyString /\ t <> EmptyString /\
    Py.all_chars not_at_space l = true /\
    Py.all_chars not_at_space d = true /\
    Py.all_chars not_at_space t = true.

(** A row passes the three filters of [main]. *)
Definition passes (do_not_email : gset string) (r : Rec) : Prop :=
  is_valid_email (email r) = true /\
  allowed_status (email_status_norm r) = true /\
  Py.lower (email r) ∉ do_not_email.

(** The sends of a world all go to payloads in [Fit], except those
    already in the trace [before]. *)
Definition sends_fit (before : list Event) (Fit : Payload -> Prop) (w : World) : Prop :=
  forall tok p, In (EvSend tok p) (trace w) -> In (EvSend tok p) before \/ Fit p.

(** No row is dated after the current day. *)
Definition no_future (env : Env) (w : World) : Prop :=
  forall e, In e (con w) -> (send_date e <= today env w)%N.

(** The ledger is within the daily quota on every day and holds no row
    of a day to come. *)
Definition quota_kept (env : Env) (limit : Z) (w : World) : Prop :=
  within_quota limit (con w) /\ no_future env w.

(** Moreover one more row fits into the current day. *)
Definition has_room (env : Env) (limit : Z) (w : World) : Prop :=
  quota_kept env limit w /\ sent_count_today (con w) (today env w) < limit.

(** The calendar never goes back, and a date lasts less than the 86500
    seconds the loop sleeps when the limit is reached. *)
Definition steady_calendar (env : Env) : Prop :=
  (forall t t', (t <= t')%N -> (local_date env t <= local_date env t')%N) /\
  (forall t t', (t + 86500 <= t')%N -> (local_date env t < local_date env t')%N).

(** [w'] is [w] some time later, with the same ledger. *)
Definition later (w w' : World) : Prop :=
  con w' = con w /\ (now w <= now w')%N.

End Dispatch.

(** ** Concrete runs used as examples *)

Module CollectExamples.
Import Collect.

(** A server that answers 501 Not Implemented. *)
Definition not_implemented : Net :=
  fun _ _ => Replied (mkResponse 501 None None "Not Implemented").

(** A server that throttles the first request with Retry-After: 30 and
    accepts the second. *)
Definition throttling_once : Net :=
  fun n _ =>
    match n with
    | O => Replied (mkResponse 429 (Some "30") None "slow down")
    | _ => Replied (mkResponse 200 None (Some (mkJson Absent Absent Absent Absent)) "{}")
    end.

Definition person (id title employer : string) : Candidate :=
  mkCandidate None (Some id) (Some title) None None (OrgObject (Some employer)).

(** Twelve raw candidates: three consultants, two already in the CSV. *)
Definition page_one : list Candidate :=
  [ person "u01" "Chief Data Officer" "Nordwind AG";
    person "u02" "Senior Consultant" "Nordwind AG";
    person "u03" "Head of Data Governance" "Helvetia Motors";
    person "u04" "Master Data Manager" "Helvetia Motors";
    person "u05" "MDM Lead" "Kronos Pharma";
    person "u06" "SAP MDG consultant" "Kronos Pharma";
    person "u07" "Head of ERP" "Kronos Pharma";
    person "u08" "Data Quality Manager" "Polar Foods";
    person "u09" "CIO" "Polar Foods";
    person "u10" "Principal Consultant" "Polar Foods";
    person "u11" "SAP Director" "Baltic Chemicals";
    person "u12" "Process Owner" "Baltic Chemicals" ].

Definition known_row (id : string) : Row :=
  mkRow (Some id) None None None None None None None None None None None None None.

Definition known_csv : list Row := [ known_row "u04"; known_row "u05" ].

Definition ok_body (l : list Candidate) : HttpResult :=
  Replied (mkResponse 200 None (Some (mkJson (AList l) Absent Absent Absent)) EmptyString).

(** Page 1 has the twelve candidates, every later page is empty. *)
Definition two_pages : Net :=
  fun _ req =>
    match req with
    | PeopleSearch 1 => ok_body page_one
    | _ => ok_body []
    end.

Definition match_of (id : string) : Match :=
  mkMatch (Some id) None None None None (Some "Head of ERP") None
          (Some (id ++ "@corp.example")) (Some "verified") None None.

(** Search results shift between the requests for page 1 and page 2, so
    that "u2" is on both; the enrichment answers each requested identity
    with one match. *)
Definition shifting_pages : Net :=
  fun _ req =>
    match req with
    | PeopleSearch 1 =>
        ok_body [ person "u1" "Head of ERP" "Nordwind AG";
                  person "u2" "Head of ERP" "Nordwind AG" ]
    | PeopleSearch 2 =>
        ok_body [ person "u2" "Head of ERP" "Nordwind AG";
                  person "u3" "Head of ERP" "Nordwind AG" ]
    | PeopleSearch _ => ok_body []
    | BulkEnrich details =>
        Replied (mkResponse 200 None
                   (Some (mkJson Absent Absent Absent
                                 (AList (List.map match_of details)))) EmptyString)
    end.

End CollectExamples.

Module DispatchExamples.
Import Dispatch.

(** Insertion before the first row that does not rank higher. *)
Fixpoint insert_by_seniority (r : Rec) (df : list Rec) : list Rec :=
  match df with
  | [] => [r]
  | x :: rest =>
      if seniority x <=? seniority r then r :: df
      else x :: insert_by_seniority r rest
  end.

(** A sort that keeps rows of equal seniority in their order. *)
Definition stable_sort (df : list Rec) : list Rec :=
  fold_right insert_by_seniority [] df.

Definition lead_of (email status title company first pid : string) : Lead :=
  mkLead (Some email) (Some status) (Some title) (Some company) (Some first) (Some pid).

Definition ann : Lead :=
  lead_of "ann@acme.example" "verified" "Data Quality Manager" "Acme" "Ann" "p-ann".
Definition bob : Lead :=
  lead_of "bob@acme.example" "verified" "MDM Manager" "Acme" "Bob" "p-bob".
Definition cid : Lead :=
  lead_of "cid@acme.example" "likely to engage" "Master Data Lead" "Acme" "Cid" "p-cid".
Definition dan : Lead :=
  lead_of "not-an-email" "verified" "Chief Data Officer" "Initech" "Dan" "p-dan".
Definition eve : Lead :=
  lead_of "Eve@Acme.example" "verified" "Head of Data" "Acme" "Eve" "p-eve".
Definition fay : Lead :=
  lead_of "fay@acme.example" "unavailable" "Head of ERP" "Acme" "Fay" "p-fay".

(** A mail service that accepts every message after one second. *)
Definition accepting : nat -> SendResult :=
  fun _ => Answered 1 (mkMailResponse 202 None EmptyString).

(** Five rows with status "sent" on day 0. *)
Definition five_sent : Ledger :=
  List.map (fun i => mkEntry 0 (60 * i) ("lead" ++ pretty i ++ "@corp.example")
                             "p" "Corp" "AVC" "sent")
           [1; 2; 3; 4; 5]%N.


(** The calendar of a machine on universal time. *)
Definition utc (t : N) : N := (t / 86400)%N.

(** A calendar whose first day lasts 25 hours, like the day on which
    summer time ends. *)
Definition long_first_day (t : N) : N :=
  if (t <? 90000)%N then 0%N else (1 + (t - 90000) / 86400)%N.

(** A machine on universal time, where no sleep is refused. *)
Definition env_of (limit : Z) (leads : list Lead) (sort : list Rec -> list Rec)
    (graph : nat -> SendResult) : Env :=
  mkEnv limit leads None (Some "iVBORw0KGgo=") sort (fun _ => inl "token") graph
        utc (fun _ _ => None).

End DispatchExamples.

(** ** app.py: search recipes and query parameters *)

Module Query.

(** An element of a list-valued filter; [IOther] is any other object,
    given by its [str()]. *)
Inductive item : Type :=
| INone
| IBool (b : bool)
| IInt (z : Z)
| IStr (s : string)
| IOther (repr : string).

(** A value of the filter dictionary; a float and any other object are
    given by their [str()]. *)
Inductive value : Type :=
| VNone
| VBool (b : bool)
| VInt (z : Z)
| VFloat (repr : string)
| VStr (s : string)
| VList (items : list item)
| VOther (repr : string).

(** A [dict], in insertion order. *)
Definition Dict : Type := list (string * value).

(** [str(item)] *)
Definition str_item (it : item) : string :=
  match it with
  | INone => "None"
  | IBool b => if b then "True" else "False"
  | IInt z => pretty z
  | IStr s => s
  | IOther r => r
  end.

(** The body of [for item in v], appending to [params]. *)
Fixpoint append_items (key : string) (items : list item)
    (params : list (string * string)) : list (string * string) :=
  match items with
  | [] => params
  | INone :: rest => append_items key rest params
  | it :: rest => append_items key rest (params ++ [(key, str_item it)])
  end.

(** The body of [for k, v in filters.items()], appending to [params]. *)
Fixpoint append_filters (filters : Dict) (params : list (string * string))
  : list (string * string) :=
  match filters with
  | [] => params
  | (k, v) :: rest =>
      match v with
      | VNone => append_filters rest params
      | VBool b => append_filters rest (params ++ [(k, if b then "true" else "false")])
      | VInt z => append_filters rest (params ++ [(k, pretty z)])
      | VFloat r => append_filters rest (params ++ [(k, r)])
      | VStr s => append_filters rest (params ++ [(k, s)])
      | VList items => append_filters rest (append_items (k ++ "[]") items params)
      | VOther r => append_filters rest (params ++ [(k, r)])
      end
  end.

Definition build_query_params (filters : Dict) : list (string * string) :=
  append_filters filters [].

(** [d[k] = v]: the value of a key of [d] is replaced where it stands, a
    new key goes to the end. *)
Fixpoint dict_set (d : Dict) (k : string) (v : value) : Dict :=
  match d with
  | [] => [(k, v)]
  | (k', v') :: rest =>
      if String.eqb k' k then (k', v) :: rest else (k', v') :: dict_set rest k v
  end.

(** [filters = dict(base_filters); filters["page"] = page;
     params = build_query_params(filters)] of [main]. *)
Definition search_params (base_filters : Dict) (page : Z) : list (string * string) :=
  build_query_params (dict_set base_filters "page" (VInt page)).

(** The parameters of an enrichment request. *)
Definition enrich_params : list (string * string) :=
  build_query_params [ ("reveal_personal_emails", VBool false);
                       ("reveal_phone_number", VBool false) ].

Definition default_country_list : list string :=
  [ "Germany"; "Austria"; "Switzerland"; "Netherlands"; "Belgium"; "France";
    "United Kingdom"; "Ireland"; "Spain"; "Italy"; "Portugal";
    "Sweden"; "Norway"; "Denmark"; "Finland"; "Poland"; "Czech Republic";
    "Hungary"; "Romania"; "Greece"; "Turkey";
    "United Arab Emirates"; "Saudi Arabia"; "Qatar"; "Kuwait"; "Bahrain"; "Oman";
    "Israel"; "Jordan"; "Lebanon";
    "India"; "Singapore"; "Malaysia"; "Indonesia"; "Thailand"; "Vietnam";
    "Philippines"; "Japan"; "South Korea"; "Hong Kong"; "Taiwan" ].

Definition high_deliverability_email_status : list string :=
  [ "verified"; "likely to engage" ].

Definition core_titles : list string :=
  [ "chief data officer"; "cdo";
    "chief information officer"; "cio";
    "head of data governance"; "director data governance"; "data governance lead";
    "master data manager"; "master data lead"; "mdm lead"; "mdm manager";
    "data quality manager"; "data quality lead";
    "head of erp"; "erp director"; "head of it applications"; "it applications director";
    "sap enterprise architect"; "enterprise architect sap"; "head of sap"; "sap director";
    "process owner"; "procurement process owner"; "finance process owner";
    "supply chain process owner" ].

Definition mdg_industries : list string :=
  [ "automotive"; "chemicals"; "pharmaceuticals"; "medical devices"; "oil & energy";
    "utilities"; "logistics & supply chain"; "food & beverages"; "food production";
    "consumer goods"; "retail"; "telecommunications"; "banking"; "insurance";
    "industrial automation"; "machinery"; "mining & metals"; "aviation & aerospace";
    "defense & space" ].

Definition enterprise_employee_ranges : list string :=
  [ "1001,2000"; "2001,5000"; "5001,10000"; "10001" ].

Definition mid_to_enterprise_ranges : list string :=
  [ "201,500"; "501,1000"; "1001,2000"; "2001,5000"; "5001,10000"; "10001" ].

Definition expanded_titles : list string :=
  (core_titles ++
   [ "data manager"; "data governance manager"; "mdm architect";
     "sap architect"; "sap solution architect"; "erp manager"; "it manager erp";
     "head of master data"; "data steward manager" ])%list.

Definition strs (l : list string) : value := VList (List.map IStr l).

Inductive exn : Type :=
| ValueError (message : string).

(** [build_filter_mode(mode)]; [since] is the ISO date of the day 120
    days before the current one. *)
Definition build_filter_mode (since : string) (mode : string) : outcome exn Dict :=
  if String.eqb mode "high_intent" then
    Ok [ ("organization_locations", strs default_country_list);
         ("person_titles", strs core_titles);
         ("include_similar_titles", VBool false);
         ("contact_email_status", strs high_deliverability_email_status);
         ("organization_industries", strs mdg_industries);
         ("organization_num_employees_ranges", strs enterprise_employee_ranges);
         ("per_page", VInt 100) ]
  else if String.eqb mode "scalable" then
    Ok [ ("organization_locations", strs default_country_list);
         ("person_titles", strs expanded_titles);
         ("include_similar_titles", VBool true);
         ("contact_email_status", strs high_deliverability_email_status);
         ("organization_industries", strs mdg_industries);
         ("organization_num_employees_ranges", strs mid_to_enterprise_ranges);
         ("per_page", VInt 100) ]
  else if String.eqb mode "hiring_signal" then
    Ok [ ("organization_locations", strs default_country_list);
         ("person_titles", strs core_titles);
         ("include_similar_titles", VBool true);
         ("contact_email_status", strs high_deliverability_email_status);
         ("organization_industries", strs mdg_industries);
         ("organization_num_employees_ranges", strs mid_to_enterprise_ranges);
         ("q_organization_job_titles",
          strs [ "master data"; "data governance"; "data steward"; "data quality";
                 "mdm"; "sap mdg" ]);
         ("organization_job_posted_at_range_min", VStr since);
         ("per_page", VInt 100) ]
  else Raised (ValueError ("Unknown mode: " ++ mode)).

(** *** Vocabulary of the statements *)

(** What one entry of the dictionary contributes to the parameters. *)
Definition params_of (k : string) (v : value) : list (string * string) :=
  match v with
  | VNone => []
  | VBool b => [(k, if b then "true" else "false")]
  | VInt z => [(k, pretty z)]
  | VFloat r => [(k, r)]
  | VStr s => [(k, s)]
  | VList items =>
      List.map (fun it => (k ++ "[]", str_item it))
               (List.filter (fun it => match it with INone => false | _ => true end) items)
  | VOther r => [(k, r)]
  end.

(** The dictionary of a mode, empty for a mode that is refused. *)
Definition recipe (since mode : string) : Dict :=
  match build_filter_mode since mode with
  | Ok d => d
  | Raised _ => []
  end.

(** The parameters named [name], in the order they are sent. *)
Definition named (name : string) (params : list (string * string)) : list string :=
  List.map snd (List.filter (fun kv => String.eqb (fst kv) name) params).

End Query.

(** ** Vocabulary of further statements on app.py *)

Module CollectShape.
Import Collect.

Definition has_identity (p : Candidate) : Prop :=
  Py.truthy (get_person_id p) = true.

(** Neither the employer nor the title of the row holds an excluded
    keyword. *)
Definition clean_row (r : Row) : Prop :=
  is_excluded_company (organization_name r) = false /\
  is_excluded_title (title r) = false.

(** What a run with the given page cap may do: sleep, search a page from
    1 to the cap, and, unless it is a dry run, enrich one to ten non-empty
    identities at a time and write clean rows. *)
Definition event_ok (max_pages : Z) (dry_run : bool) (e : Event) : Prop :=
  match e with
  | EvSleep _ => True
  | EvPost (PeopleSearch page) => 1 <= page <= max_pages
  | EvPost (BulkEnrich details) =>
      dry_run = false /\ (1 <= length details <= 10)%nat /\
      Forall (fun id => id <> EmptyString) details
  | EvWrite rows => dry_run = false /\ rows <> [] /\ Forall clean_row rows
  end.

(** The state of a run started from the trace [tr0] and the CSV [csv0]:
    what was done since is allowed by [event_ok], and the CSV grew by
    clean rows only, by none in a dry run. *)
Definition run_shape (max_pages : Z) (dry_run : bool) (csv0 : list Row)
    (tr0 : list Event) (w : World) : Prop :=
  (exists done, trace w = (done ++ tr0)%list /\ Forall (event_ok max_pages dry_run) done) /\
  (exists rows, table w = (csv0 ++ rows)%list /\ Forall clean_row rows /\
                (dry_run = true -> rows = [])).

(** The search returned [p]: some answer to a search request, with
    status 200 and a JSON body, lists it. *)
Definition returned_by_search (net : Net) (p : Candidate) : Prop :=
  exists n page r j,
    net n (PeopleSearch page) = Replied r /\ status_code r = 200 /\
    json r = Some j /\ In p (parse_people_from_search j).

(** The search returned [p], and [p] passed the filters of the search
    loop: it has an identity that is not in [known], its title and its
    employer name, which can be read, hold no excluded keyword. *)
Definition found_and_kept (net : Net) (known : gset string) (p : Candidate) : Prop :=
  returned_by_search net p /\
  Py.truthy (get_person_id p) = true /\
  (Py.or_empty (get_person_id p) ∉ known) /\
  is_excluded_title (Some (Py.or_empty (p_title p))) = false /\
  exists o, org_name_of p = Ok o /\ is_excluded_company o = false.

(** The identity is the one of a candidate found and kept. *)
Definition worth_enriching (net : Net) (known : gset string) (id : string) : Prop :=
  exists p, found_and_kept net known p /\ Py.or_empty (get_person_id p) = id.

(** Every enrichment request of the world, except those already in the
    trace [tr0], carries only identities worth enriching. *)
Definition enriches_kept_only (net : Net) (known : gset string) (tr0 : list Event)
    (w : World) : Prop :=
  forall details,
    In (EvPost (BulkEnrich details)) (trace w) ->
    In (EvPost (BulkEnrich details)) tr0 \/ Forall (worth_enriching net known) details.

(** What the loop knows is what the file holds: the property kept by
    every step of the enrichment loop. *)
Definition mirrors (ids : gset string) (w : World) : Prop :=
  readable (output_csv w) /\ ids = load_existing_person_ids (output_csv w).

End CollectShape.

(** ** Vocabulary of further statements on app2.py *)

Module DispatchShape.
Import Dispatch.

(** The mail calls, token requests, ledger rows and counted sends of a
    world stay within the given numbers. *)
Definition within_budget (mails tokens rows : nat) (counted : Z) (w : World) : Prop :=
  (sends w <= mails)%nat /\ (token_requests w <= tokens)%nat /\
  (length (con w) <= rows)%nat /\ sent_now w <= counted.

(** The addresses mail was sent to, in the order of the calls. *)
Definition recipients (tr : list Event) : list string :=
  omap (fun e => match e with
                 | EvSend _ p => Some (to_address p)
                 | _ => None
                 end) (rev tr).

(** The notifications of a trace, in the order they were sent. *)
Definition notifications (tr : list Event) : list string :=
  omap (fun e => match e with
                 | EvNotify m => Some m
                 | _ => None
                 end) (rev tr).

(** The ledger row the loop writes for the row [r] at time [t]. *)
Definition entry_at (env : Env) (t : N) (r : Rec) (subject status : string) : Entry :=
  mkEntry (local_date env t) t (email r)
          (Py.strip (str (l_person_id (lead r))))
          (Py.strip (str (l_organization_name (lead r))))
          subject status.

(** The world in which the loop builds the message of a candidate: the
    current one, or the one 86500 seconds later when the rows of the
    current day have reached the limit. *)
Definition after_quota_check (env : Env) (w : World) : World :=
  if sent_count_today (con w) (today env w) >=? DAILY_LIMIT env
  then mkWorld (now w + 86500) (con w) (sends w) (token_requests w) (token w)
               (sent_now w) (last_sent_message w) (EvSleep 86500 :: trace w)
  else w.



(** The world after the send was counted. *)
Definition counted (w : World) : World :=
  mkWorld (now w) (con w) (sends w) (token_requests w) (token w) (sent_now w + 1)
          (last_sent_message w) (trace w).


(** The message that ends a run. *)
Definition done_message (sent_now : Z) : string :=
  "[done] Sent " ++ pretty sent_now ++ " emails, time to refuel the list boss".

End DispatchShape.

(** * Properties *)

(** Unfold the monad's plumbing of a run applied to a world. *)
Ltac eff :=
  cbv beta iota delta [Eff.bind Eff.ret Eff.raise Eff.get Eff.modify Eff.lift
                       Eff.try_except fst snd].
Ltac eff_in H :=
  cbv beta iota delta [Eff.bind Eff.ret Eff.raise Eff.get Eff.modify Eff.lift
                       Eff.try_except fst snd] in H.

(** ** Rules of the program logic *)

Section HoareRules.
Context {W E : Type}.
Implicit Types (P I : W -> Prop).

Lemma hoare_ret {A} P (a : A) (Q : outcome E A -> W -> Prop) :
  (forall w, P w -> Q (Ok a) w) -> hoare P (ret a) Q.
Proof. intros H w Hw. apply H, Hw. Qed.

Lemma hoare_raise {A} P (e : E) (Q : outcome E A -> W -> Prop) :
  (forall w, P w -> Q (Raised e) w) -> hoare P (raise e) Q.
Proof. intros H w Hw. apply H, Hw. Qed.

Lemma hoare_lift {A} P (o : outcome E A) (Q : outcome E A -> W -> Prop) :
  (forall w, P w -> Q o w) -> hoare P (lift o) Q.
Proof. intros H w Hw. apply H, Hw. Qed.

Lemma hoare_get P (Q : outcome E W -> W -> Prop) :
  (forall w, P w -> Q (Ok w) w) -> hoare P get Q.
Proof. intros H w Hw. apply H, Hw. Qed.

Lemma hoare_modify P (f : W -> W) (Q : outcome E unit -> W -> Prop) :
  (forall w, P w -> Q (Ok tt) (f w)) -> hoare P (modify f) Q.
Proof. intros H w Hw. apply H, Hw. Qed.

Lemma hoare_bind {A B} P (R : outcome E A -> W -> Prop) (c : M W E A)
    (k : A -> M W E B) (Q : outcome E B -> W -> Prop) :
  hoare P c R ->
  (forall e w, R (Raised e) w -> Q (Raised e) w) ->
  (forall a, hoare (R (Ok a)) (k a) Q) ->
  hoare P (bind c k) Q.
Proof.
  intros Hc Hexn Hk w Hw. specialize (Hc w Hw). unfold bind.
  destruct (c w) as [[a | e] w']; cbn in *.
  - apply (Hk a w' Hc).
  - apply Hexn, Hc.
Qed.

Lemma hoare_try {A} P (R : outcome E A -> W -> Prop) (c : M W E A)
    (h : E -> M W E A) (Q : outcome E A -> W -> Prop) :
  hoare P c R ->
  (forall a w, R (Ok a) w -> Q (Ok a) w) ->
  (forall e, hoare (R (Raised e)) (h e) Q) ->
  hoare P (try_except c h) Q.
Proof.
  intros Hc Hok Hh w Hw. specialize (Hc w Hw). unfold try_except.
  destruct (c w) as [[a | e] w']; cbn in *.
  - apply Hok, Hc.
  - apply (Hh e w' Hc).
Qed.

Lemma hoare_weaken {A} P P' (c : M W E A) (Q Q' : outcome E A -> W -> Prop) :
  hoare P' c Q' ->
  (forall w, P w -> P' w) ->
  (forall o w, Q' o w -> Q o w) ->
  hoare P c Q.
Proof. intros Hc Hpre Hpost w Hw. apply Hpost, Hc, Hpre, Hw. Qed.

Lemma hoare_bind_ret {A B} P (a : A) (k : A -> M W E B) (Q : outcome E B -> W -> Prop) :
  hoare P (k a) Q -> hoare P (bind (ret a) k) Q.
Proof. intros H w Hw. exact (H w Hw). Qed.

Lemma hoare_bind_raise {A B} P (e : E) (k : A -> M W E B)
    (Q : outcome E B -> W -> Prop) :
  (forall w, P w -> Q (Raised e) w) -> hoare P (bind (raise e) k) Q.
Proof. intros H w Hw. exact (H w Hw). Qed.

Lemma hoare_assume {A} P (fact : Prop) (c : M W E A) (Q : outcome E A -> W -> Prop) :
  (fact -> hoare P c Q) -> hoare (fun w => P w /\ fact) c Q.
Proof. intros H w [Hw Hf]. apply (H Hf w Hw). Qed.

(** An invariant: it holds after the run, however the run ends. *)
Lemma inv_bind {A B} I (c : M W E A) (k : A -> M W E B) :
  hoare I c (fun _ => I) ->
  (forall a, hoare I (k a) (fun _ => I)) ->
  hoare I (bind c k) (fun _ => I).
Proof. intros Hc Hk. apply (hoare_bind I (fun _ => I)); auto. Qed.

(** An invariant kept by [c], then any triple for what follows. *)
Lemma inv_bind_then {A B} I (c : M W E A) (k : A -> M W E B)
    (Q : outcome E B -> W -> Prop) :
  hoare I c (fun _ => I) ->
  (forall e w, I w -> Q (Raised e) w) ->
  (forall a, hoare I (k a) Q) ->
  hoare I (bind c k) Q.
Proof. intros Hc Hexn Hk. apply (hoare_bind I (fun _ => I)); auto. Qed.

Lemma inv_try {A} I (c : M W E A) (h : E -> M W E A) :
  hoare I c (fun _ => I) ->
  (forall e, hoare I (h e) (fun _ => I)) ->
  hoare I (try_except c h) (fun _ => I).
Proof. intros Hc Hh. apply (hoare_try I (fun _ => I)); auto. Qed.

End HoareRules.

(** Decompose a goal [hoare I c (fun _ => I)] along the structure of [c]. *)
Ltac inv_step :=
  first
    [ apply inv_bind; [| intros ?]
    | apply inv_try; [| intros ?]
    | apply hoare_ret; intros ? ?; assumption
    | apply hoare_raise; intros ? ?; assumption
    | apply hoare_lift; intros ? ?; assumption
    | apply hoare_get; intros ? ?; assumption
    | progress cbv zeta
    | match goal with
      | |- hoare _ (if ?b then _ else _) _ => destruct b
      | |- hoare _ (match ?x with _ => _ end) _ => destruct x
      end ].

(** ** The embedding on small inputs *)

Section SmallInputs.
Import Collect Dispatch.

Example strip_both_ends :
  Py.strip (String "009" " Head of ERP " ++ String "010" EmptyString) = "Head of ERP".
Proof. reflexivity. Qed.

Example lower_ascii : Py.lower "SAP MDG Consultant" = "sap mdg consultant".
Proof. reflexivity. Qed.

Example contains_substring :
  Py.contains "ey" "keyence" = true /\ Py.contains "ey" "kuka" = false
  /\ Py.contains EmptyString "kuka" = true.
Proof. repeat split; reflexivity. Qed.

Example excluded_by_substring :
  is_excluded_company (Some " Deloitte GmbH") = true /\
  is_excluded_company (Some "Keyence") = true /\
  is_excluded_company (Some "Nordwind AG") = false /\
  is_excluded_title (Some "Talent Partner") = true /\
  is_excluded_title (Some "Head of ERP") = false.
Proof. repeat split; reflexivity. Qed.

Example person_id_before_id :
  get_person_id (mkCandidate (Some "a") (Some "b") None None None OrgMissing) = Some "a" /\
  get_person_id (mkCandidate (Some EmptyString) (Some "b") None None None OrgMissing)
  = Some "b" /\
  get_person_id (mkCandidate None None None None None OrgMissing) = None.
Proof. repeat split; reflexivity. Qed.

Example first_list_wins (l1 l2 : list Candidate) :
  parse_people_from_search (mkJson NotIterable (AList l1) (AList l2) Absent) = l1 /\
  parse_people_from_search (mkJson Absent StringsNotAList (AList l2) Absent) = l2 /\
  parse_people_from_search (mkJson Absent Absent EmptyNotAList Absent) = [].
Proof. repeat split; reflexivity. Qed.

Example header_read_back :
  let row := mkRow (Some "u1") None None None (Some "Head of ERP") None None None
                   None None None None None None in
  load_existing_person_ids None = ∅ /\
  load_existing_person_ids (Some (mkFile true [row; row])) = {[ "u1" ]} /\
  load_existing_person_ids (Some (mkFile false [row; row])) = ∅ /\
  load_existing_person_ids (Some (mkFile false [])) = ∅.
Proof. cbv zeta. repeat split; apply (bool_decide_unpack _); vm_compute; exact I. Qed.

Example sleep_lengths (w : Collect.World) :
  fst (Collect.sleep (2 # 5) w) = Ok tt /\
  fst (Collect.sleep 0 w) = Ok tt /\
  fst (Collect.sleep (- (1 # 10)) w) = Raised Collect.ValueError /\
  fst (Collect.sleep 9223372037 w) = Raised Collect.OverflowError.
Proof. repeat split; reflexivity. Qed.

Example chunked_by_ten :
  chunked (seq 1 12) 10 = [seq 1 10; [11; 12]%nat] /\
  chunked (seq 1 10) 10 = [seq 1 10] /\
  chunked (@nil nat) 10 = [].
Proof. repeat split; reflexivity. Qed.

Example employer_of_null_organization :
  org_name_of (mkCandidate None (Some "u1") None None None OrgNull)
  = Raised Collect.AttributeError /\
  org_name_of (mkCandidate None (Some "u1") None None (Some "Acme") OrgNull)
  = Ok (Some "Acme").
Proof. split; reflexivity. Qed.

Example valid_emails :
  is_valid_email "ann@acme.example" = true /\
  is_valid_email "ann@mail.acme.example" = true /\
  is_valid_email "ann@acme" = false /\
  is_valid_email "ann smith@acme.example" = false /\
  is_valid_email "ann@@acme.example" = false /\
  is_valid_email "@acme.example" = false.
Proof. repeat split; reflexivity. Qed.

Example seniority_scores :
  seniority_score (Some "VP and Chief of Staff") = 5 /\
  seniority_score (Some "Head of Data, Director") = 3 /\
  seniority_score (Some "Team Lead") = 2 /\
  seniority_score (Some "Data Steward") = 1 /\
  seniority_score None = 1.
Proof. repeat split; reflexivity. Qed.

Example retry_delays :
  retry_delay (Some "30") = Ok 30%N /\
  retry_delay (Some "007") = Ok 7%N /\
  retry_delay (Some "soon") = Ok 10%N /\
  retry_delay (Some EmptyString) = Ok 10%N /\
  retry_delay None = Ok 10%N /\
  retry_delay (Some (String (ascii_of_N 178) EmptyString))
  = Raised (ValueError ("invalid literal for int() with base 10: '"
                        ++ String (ascii_of_N 178) "'")).
Proof. repeat split; reflexivity. Qed.

Example error_status_truncated :
  error_status (mkMailResponse 503 None "Service Unavailable")
  = "error:503:Service Unavailable".
Proof. reflexivity. Qed.

Example insert_twice_same_day :
  let row := mkEntry 7 604800 "ann@acme.example" "p-ann" "Acme" "AVC" "error:503:x" in
  let again := mkEntry 7 604900 "ann@acme.example" "p-ann" "Acme" "AVC" "sent" in
  let next_day := mkEntry 8 691200 "ann@acme.example" "p-ann" "Acme" "AVC" "sent" in
  insert_or_ignore (insert_or_ignore [] row) again = [row] /\
  insert_or_ignore (insert_or_ignore [] row) next_day = [row; next_day].
Proof. split; reflexivity. Qed.

End SmallInputs.

(** ** Missing titles and employers *)

Section Exclusions.
Import Collect.

Lemma normalize_text_missing (x : option string) :
  x = None \/ x = Some EmptyString -> normalize_text x = EmptyString.
Proof. intros [-> | ->]; reflexivity. Qed.

(** C10. A title or employer name that is None or empty matches no
    exclusion keyword: both predicates return false without raising;
    and a candidate with a fresh identity whose title and employer are
    missing in this way is appended to the kept list. *)
Theorem exclusions_total_on_missing (t o : option string) :
  (t = None \/ t = Some EmptyString) ->
  (o = None \/ o = Some EmptyString) ->
  is_excluded_title t = false /\ is_excluded_company t = false /\
  is_excluded_title o = false /\ is_excluded_company o = false /\
  forall (existing_ids : gset string) (p : Candidate) (kept : list Candidate),
    Py.truthy (get_person_id p) = true ->
    Py.or_empty (get_person_id p) ∉ existing_ids ->
    p_title p = t ->
    org_name_of p = Ok o ->
    keep_people existing_ids [p] kept = Ok (kept ++ [p])%list.
Proof.
  intros Ht Ho.
  assert (Et : is_excluded_title t = false /\ is_excluded_company t = false).
  { unfold is_excluded_title, is_excluded_company.
    rewrite (normalize_text_missing t Ht). split; reflexivity. }
  assert (Eo : is_excluded_title o = false /\ is_excluded_company o = false).
  { unfold is_excluded_title, is_excluded_company.
    rewrite (normalize_text_missing o Ho). split; reflexivity. }
  destruct Et as [Et1 Et2], Eo as [Eo1 Eo2].
  repeat split; try assumption.
  intros ids p kept Hid Hnew Htitle Horg. simpl.
  rewrite Hid. simpl.
  rewrite bool_decide_eq_false_2 by assumption.
  rewrite Horg.
  assert (Hempty : is_excluded_title (Some (Py.or_empty (p_title p))) = false).
  { rewrite Htitle. destruct Ht as [-> | ->]; reflexivity. }
  rewrite Hempty, Eo2. reflexivity.
Qed.

Lemma exclusions_total_on_missing_witness :
  is_excluded_title None = false /\ is_excluded_company (Some EmptyString) = false.
Proof.
  destruct (exclusions_total_on_missing None (Some EmptyString)) as (H1 & _ & _ & H4 & _).
  - left; reflexivity.
  - right; reflexivity.
  - split; assumption.
Defined.

End Exclusions.

(** ** The retry contract of [post_with_backoff] *)

Section Backoff.
Import Collect.

Lemma backoff_delay_next k :
  Z.min (backoff_delay k * 2) 30 = backoff_delay (S k).
Proof.
  unfold backoff_delay. rewrite Nat2Z.inj_succ, Z.pow_succ_r by lia.
  assert (0 < 2 ^ Z.of_nat k) by (apply Z.pow_pos_nonneg; lia). lia.
Qed.


Lemma short_pause q :
  (0 <= q)%Q -> (q < LONG_SLEEP)%Q -> sleep q = emit (EvSleep q).
Proof.
  intros H0 Hlt. unfold sleep.
  assert (E0 : Qle_bool 0 q = true) by (apply Qle_bool_iff; exact H0).
  assert (E1 : Qle_bool LONG_SLEEP q = false).
  { destruct (Qle_bool LONG_SLEEP q) eqn:E; [| reflexivity].
    apply Qle_bool_iff in E. exfalso. apply (Qlt_not_le _ _ Hlt E). }
  assert (E2 : Qle_bool SLEEP_OVERFLOW q = false).
  { destruct (Qle_bool SLEEP_OVERFLOW q) eqn:E; [| reflexivity].
    apply Qle_bool_iff in E. exfalso. apply (Qlt_not_le _ _ Hlt).
    eapply Qle_trans; [| exact E]. discriminate. }
  rewrite E0, E1, E2. reflexivity.
Qed.

(** A sleep either raises, the world unchanged, or returns with the
    sleep added to the trace. *)
Lemma hoare_pause q (P : World -> Prop) (Q : outcome exn unit -> World -> Prop) :
  (forall w, P w -> Q (Ok tt) (snd (emit (EvSleep q) w))) ->
  (forall e w, P w -> Q (Raised e) w) ->
  hoare P (sleep q) Q.
Proof.
  intros Hok Hexn w Hw. unfold sleep.
  destruct (negb (Qle_bool 0 q)); [apply Hexn, Hw |].
  destruct (Qle_bool SLEEP_OVERFLOW q); [apply Hexn, Hw |].
  destruct (Qle_bool LONG_SLEEP q); [| apply Hok, Hw].
  eff. destruct (long_sleep w q); [apply Hexn, Hw | apply Hok, Hw].
Qed.

Lemma inv_pause q (I : World -> Prop) :
  (forall w, I w -> I (snd (emit (EvSleep q) w))) -> hoare I (sleep q) (fun _ => I).
Proof. intros H. apply hoare_pause; auto. Qed.

Lemma table_appended c tr output_csv rows refuse :
  table (mkWorld c tr (Some (appended output_csv rows)) refuse)
  = (match output_csv with
     | Some f => lines f
     | None => []
     end ++ rows)%list.
Proof. destruct output_csv; reflexivity. Qed.

Lemma backoff_delay_range k : 1 <= backoff_delay k <= 30.
Proof.
  unfold backoff_delay.
  assert (0 < 2 ^ Z.of_nat k) by (apply Z.pow_pos_nonneg; lia). lia.
Qed.

Lemma sleep_backoff k :
  sleep (inject_Z (backoff_delay k)) = emit (EvSleep (inject_Z (backoff_delay k))).
Proof.
  pose proof (backoff_delay_range k) as Hk.
  apply short_pause; unfold Qle, Qlt, LONG_SLEEP; cbn; lia.
Qed.

Lemma retry_events_cons req k m :
  retry_events req k (S m)
  = EvPost req :: EvSleep (inject_Z (backoff_delay k)) :: retry_events req (S k) m.
Proof. reflexivity. Qed.

Lemma post_attempts_contract net req attempts k w :
  exists n : nat,
    (n <= attempts)%nat /\
    (forall i, (i < n)%nat -> is_retryable_reply (net (calls w + i)%nat req) = true) /\
    table (snd (post_attempts net req attempts (backoff_delay k) w)) = table w /\
    ((n = attempts /\
      fst (post_attempts net req attempts (backoff_delay k) w)
        = Raised (RequestFailedAfterRetries req) /\
      trace (snd (post_attempts net req attempts (backoff_delay k) w))
        = (rev (retry_events req k n) ++ trace w)%list /\
      calls (snd (post_attempts net req attempts (backoff_delay k) w))
        = (calls w + n)%nat)
     \/
     ((n < attempts)%nat /\
      is_retryable_reply (net (calls w + n)%nat req) = false /\
      fst (post_attempts net req attempts (backoff_delay k) w)
        = final_outcome (net (calls w + n)%nat req) /\
      trace (snd (post_attempts net req attempts (backoff_delay k) w))
        = (EvPost req :: rev (retry_events req k n) ++ trace w)%list /\
      calls (snd (post_attempts net req attempts (backoff_delay k) w))
        = (calls w + n + 1)%nat)).
Proof.
  revert k w. induction attempts as [| a IH]; intros k w.
  - exists 0%nat. split; [lia |]. split; [intros i Hi; lia |].
    split; [reflexivity |]. left. cbn. rewrite Nat.add_0_r. auto.
  - destruct (is_retryable_reply (net (calls w) req)) eqn:Hre.
    + (* a retryable answer: sleep, then the remaining attempts *)
      set (w1 := mkWorld (S (calls w))
                   (EvSleep (inject_Z (backoff_delay k)) :: EvPost req :: trace w)
                   (output_csv w) (long_sleep w)).
      assert (Hstep : post_attempts net req (S a) (backoff_delay k) w
                      = post_attempts net req a (backoff_delay (S k)) w1).
      { cbn [post_attempts]. rewrite sleep_backoff. unfold requests_post, emit. eff.
        unfold is_retryable_reply in Hre.
        destruct (net (calls w) req) as [r | d]; [| discriminate].
        apply andb_prop in Hre as [H200 Hretry].
        apply negb_true_iff in H200.
        rewrite H200, Hretry, backoff_delay_next. reflexivity. }
      rewrite Hstep.
      destruct (IH (S k) w1) as (n & Hle & Hall & Htab & Hcases).
      exists (S n). split; [lia |]. split.
      { intros i Hi. destruct i as [| i].
        - rewrite Nat.add_0_r. exact Hre.
        - replace (calls w + S i)%nat with (calls w1 + i)%nat by (cbn; lia).
          apply Hall. lia. }
      split; [exact Htab |].
      replace (calls w + S n)%nat with (calls w1 + n)%nat by (cbn; lia).
      rewrite retry_events_cons. cbn [rev].
      rewrite <- !app_assoc. cbn [app].
      destruct Hcases as [(Hn & Hres & Htr & Hc) | (Hn & Hlast & Hres & Htr & Hc)].
      * left. subst n. repeat split; assumption.
      * right. split; [lia |]. repeat split; assumption.
    + (* the answer ends the call *)
      exists 0%nat. split; [lia |]. split; [intros i Hi; lia |].
      rewrite Nat.add_0_r.
      cbn [post_attempts]. unfold requests_post, sleep, emit. eff.
      unfold final_outcome. unfold is_retryable_reply in Hre |- *.
      destruct (net (calls w) req) as [r | d].
      * destruct (status_code r =? 200) eqn:H200.
        -- destruct (json r); (split; [reflexivity |]);
             right; repeat split; try reflexivity; cbn; lia.
        -- cbn [negb andb] in Hre. rewrite Hre. split; [reflexivity |].
           right. repeat split; try reflexivity; cbn; lia.
      * split; [reflexivity |]. right. repeat split; try reflexivity; cbn; lia.
Qed.

Lemma post_attempts_ignores_retry_after net net' req attempts delay w :
  (forall n, same_but_retry_after (net n req) (net' n req)) ->
  post_attempts net' req attempts delay w = post_attempts net req attempts delay w.
Proof.
  intros Hsame. revert delay w.
  induction attempts as [| a IH]; intros delay w; [reflexivity |].
  cbn [post_attempts]. unfold requests_post. eff.
  specialize (Hsame (calls w)). unfold same_but_retry_after in Hsame.
  destruct (net (calls w) req) as [r | d], (net' (calls w) req) as [r' | d'];
    try contradiction.
  - destruct Hsame as (Hs & Hj & Ht). rewrite Hs, Hj, Ht.
    destruct (status_code r' =? 200); [reflexivity |].
    destruct (retryable (status_code r')); [| reflexivity].
    destruct (sleep (inject_Z delay) _) as [[[] | e] w']; [apply IH | reflexivity].
  - subst d'. reflexivity.
Qed.

(** C5, as amended. [post_with_backoff] sends the request at most
    [max_retries] times (6 by default). Each answer with status 429, 500,
    502, 503 or 504 is followed by a sleep of 1, 2, 4, 8, 16, 30, 30, ...
    seconds (the k-th of [min (2^k) 30]) and another attempt. The call
    raises "failed after retries" exactly when all [max_retries] answers
    were of that kind; any other answer ends the call at once: status 200
    returns the parsed body, any other status raises an error that carries
    the status and the body, and an exception of the transport or of the
    JSON decoder propagates. The Retry-After header plays no role. *)
Theorem post_with_backoff_contract net req max_retries w :
  (exists n : nat,
     (n <= Z.to_nat max_retries)%nat /\
     (forall i, (i < n)%nat -> is_retryable_reply (net (calls w + i)%nat req) = true) /\
     table (snd (post_with_backoff net req max_retries w)) = table w /\
     ((n = Z.to_nat max_retries /\
       fst (post_with_backoff net req max_retries w)
         = Raised (RequestFailedAfterRetries req) /\
       trace (snd (post_with_backoff net req max_retries w))
         = (rev (retry_events req 0 n) ++ trace w)%list /\
       calls (snd (post_with_backoff net req max_retries w)) = (calls w + n)%nat)
      \/
      ((n < Z.to_nat max_retries)%nat /\
       is_retryable_reply (net (calls w + n)%nat req) = false /\
       fst (post_with_backoff net req max_retries w)
         = final_outcome (net (calls w + n)%nat req) /\
       trace (snd (post_with_backoff net req max_retries w))
         = (EvPost req :: rev (retry_events req 0 n) ++ trace w)%list /\
       calls (snd (post_with_backoff net req max_retries w))
         = (calls w + n + 1)%nat)))
  /\ (forall net',
        (forall n, same_but_retry_after (net n req) (net' n req)) ->
        post_with_backoff net' req max_retries w
        = post_with_backoff net req max_retries w)
  /\ default_max_retries = 6
  /\ List.map backoff_delay (seq 0 6) = [1; 2; 4; 8; 16; 30].
Proof.
  split; [| split; [| split; reflexivity]].
  - unfold post_with_backoff. change 1 with (backoff_delay 0).
    apply post_attempts_contract.
  - intros net' Hsame. unfold post_with_backoff.
    apply post_attempts_ignores_retry_after. exact Hsame.
Qed.

(** C5, as stated, fails: after a 429 with Retry-After 30 the call
    sleeps its own first delay, one second, and never thirty. (And a 501,
    a status of the 5xx family, is not retried: the call fails at once.) *)
Lemma retry_after_not_honored :
  let req := PeopleSearch 1 in
  let w' := snd (post_with_backoff CollectExamples.throttling_once req
                                   default_max_retries (start [])) in
  (exists r, CollectExamples.throttling_once 0%nat req = Replied r
             /\ retryable (status_code r) = true
             /\ retry_after r = Some "30") /\
  trace w' = [EvPost req; EvSleep (inject_Z 1); EvPost req] /\
  Forall (fun e => e <> EvSleep (inject_Z 30)) (trace w') /\
  post_with_backoff CollectExamples.not_implemented req default_max_retries (start [])
  = (Raised (RequestFailed 501 (ErrText "Not Implemented")),
     mkWorld 1 [EvPost req] None (long_sleep (start []))).
Proof.
  cbv zeta. split; [| split; [| split]].
  - eexists. repeat split; reflexivity.
  - reflexivity.
  - cbn. repeat constructor; discriminate.
  - reflexivity.
Qed.

End Backoff.

(** ** The ledger *)

Section LedgerFacts.
Import Dispatch.

Lemma key_taken_iff con row :
  existsb (fun e => String.eqb (e_email e) (e_email row)
                    && (send_date e =? send_date row)%N) con = true
  <-> In (key row) (List.map key con).
Proof.
  rewrite existsb_exists, in_map_iff. split.
  - intros (e & He & Hk). exists e. split; [| exact He].
    apply andb_prop in Hk as [H1 H2].
    apply String.eqb_eq in H1. apply N.eqb_eq in H2.
    unfold key. congruence.
  - intros (e & Hk & He). exists e. split; [exact He |].
    unfold key in Hk. injection Hk as H1 H2.
    rewrite H1, H2, String.eqb_refl, N.eqb_refl. reflexivity.
Qed.

Lemma insert_or_ignore_cases con row :
  (In (key row) (List.map key con) /\ insert_or_ignore con row = con)
  \/ (~ In (key row) (List.map key con) /\ insert_or_ignore con row = (con ++ [row])%list).
Proof.
  unfold insert_or_ignore.
  destruct (existsb _ con) eqn:Hex.
  - left. split; [apply key_taken_iff, Hex | reflexivity].
  - right. split; [| reflexivity].
    intros Hin. apply key_taken_iff in Hin. congruence.
Qed.

Lemma insert_or_ignore_unique con row :
  unique_keys con -> unique_keys (insert_or_ignore con row).
Proof.
  intros Hu. destruct (insert_or_ignore_cases con row) as [[_ ->] | [Hnew ->]].
  - exact Hu.
  - unfold unique_keys in *. rewrite List.map_app. cbn.
    apply NoDup_app. split; [exact Hu |]. split.
    + intros k Hk [<- | []]%list_elem_of_In. apply Hnew. apply list_elem_of_In, Hk.
    + apply NoDup_singleton.
Qed.

Lemma insert_or_ignore_taken con row row' :
  key row' = key row ->
  insert_or_ignore (insert_or_ignore con row) row' = insert_or_ignore con row.
Proof.
  intros Hk.
  destruct (insert_or_ignore_cases (insert_or_ignore con row) row')
    as [[_ ->] | [Hnew _]]; [reflexivity |].
  exfalso. apply Hnew. rewrite Hk.
  destruct (insert_or_ignore_cases con row) as [[Hin ->] | [_ ->]].
  - exact Hin.
  - rewrite List.map_app. apply in_or_app. right. left. reflexivity.
Qed.

Lemma unique_keys_at_most_one con email day :
  unique_keys con -> (length (entries_for email day con) <= 1)%nat.
Proof.
  unfold unique_keys, entries_for. induction con as [| e con IH]; intros Hu.
  - cbn. lia.
  - cbn in Hu. apply NoDup_cons in Hu as [Hnot Hu]. cbn.
    destruct (String.eqb (e_email e) email && (send_date e =? day)%N) eqn:Hk.
    + apply andb_prop in Hk as [H1 H2].
      apply String.eqb_eq in H1. apply N.eqb_eq in H2.
      assert (Hnone : List.filter
                (fun e0 => String.eqb (e_email e0) email && (send_date e0 =? day)%N)
                con = []).
      { destruct (List.filter _ con) as [| e' l] eqn:Hf; [reflexivity |].
        exfalso. apply Hnot. apply list_elem_of_In.
        assert (Hin : In e' (List.filter
                  (fun e0 => String.eqb (e_email e0) email && (send_date e0 =? day)%N)
                  con)) by (rewrite Hf; left; reflexivity).
        apply filter_In in Hin as [Hin Hk'].
        apply andb_prop in Hk' as [H1' H2'].
        apply String.eqb_eq in H1'. apply N.eqb_eq in H2'.
        apply in_map_iff. exists e'. split; [| exact Hin].
        unfold key. congruence. }
      rewrite Hnone. cbn. lia.
    + apply IH, Hu.
Qed.

End LedgerFacts.

(** *** Sleeping *)

Section Sleeping.
Import Dispatch.

(** A sleep either raises, the world unchanged, or returns in the world
    [seconds] later. *)
Lemma hoare_sleep env seconds (P : World -> Prop) (Q : outcome exn unit -> World -> Prop) :
  (forall w, P w -> sleep_error env seconds w = None -> Q (Ok tt) (slept seconds w)) ->
  (forall e w, P w -> sleep_error env seconds w = Some e -> Q (Raised e) w) ->
  hoare P (sleep env seconds) Q.
Proof.
  intros Hok Hexn w Hw. unfold sleep. eff.
  destruct (sleep_error env seconds w) as [e |] eqn:He; [apply Hexn | apply Hok]; auto.
Qed.

Lemma inv_sleep env seconds (I : World -> Prop) :
  (forall w, I w -> I (slept seconds w)) -> hoare I (sleep env seconds) (fun _ => I).
Proof. intros H. apply hoare_sleep; auto. Qed.

(** A sleep shorter than [LONG_SLEEP] returns. *)
Lemma sleep_short env seconds w :
  (seconds < LONG_SLEEP)%N -> sleep env seconds w = (Ok tt, slept seconds w).
Proof.
  intros Hlt. unfold sleep, sleep_error. eff.
  assert (E1 : (SLEEP_OVERFLOW <=? seconds)%N = false)
    by (apply N.leb_gt; unfold SLEEP_OVERFLOW, LONG_SLEEP in *; lia).
  assert (E2 : (LONG_SLEEP <=? seconds)%N = false) by (apply N.leb_gt; exact Hlt).
  rewrite E1, E2. reflexivity.
Qed.

(** A sleep of [SLEEP_OVERFLOW] seconds or more raises at once. *)
Lemma sleep_overflow env seconds w :
  (SLEEP_OVERFLOW <= seconds)%N -> sleep env seconds w = (Raised OverflowError, w).
Proof.
  intros Hle. unfold sleep, sleep_error. eff.
  apply N.leb_le in Hle. rewrite Hle. reflexivity.
Qed.

End Sleeping.

(** *** Invariants of a dispatch run

    A property of the world that every primitive step keeps is kept by the
    whole run. Sending is the one step with a side condition: [Fit] is
    what the property needs of a payload, and it has to follow from the
    payload being addressed to a row the loop iterates over. *)

Section RunInvariant.
Import Dispatch.

Variable env : Env.
Variable Inv : World -> Prop.
Variable Fit : Payload -> Prop.

Hypothesis Inv_sleep : forall n, hoare Inv (sleep env n) (fun _ => Inv).
Hypothesis Inv_mark_sent : forall email person_id company subject status,
    hoare Inv (mark_sent env email person_id company subject status) (fun _ => Inv).
Hypothesis Inv_count : hoare Inv count_sent_now (fun _ => Inv).
Hypothesis Inv_reset : hoare Inv reset_sent_now (fun _ => Inv).
Hypothesis Inv_token : hoare Inv (get_access_token env) (fun _ => Inv).
Hypothesis Inv_send : forall payload,
    Fit payload -> hoare Inv (graph_post_sendmail env payload) (fun _ => Inv).
Hypothesis Inv_notify : forall msg,
    hoare Inv (send_notification_custom msg) (fun _ => Inv).

Lemma build_message_spec r :
  hoare Inv (build_message env r)
    (fun o w => Inv w /\ match o with
                         | Ok p => to_address p = email r
                         | Raised _ => True
                         end).
Proof.
  intros w Hw. unfold build_message. eff.
  destruct (cell_strip (l_first_name (lead r))); [| split; trivial].
  destruct (cell_strip (l_organization_name (lead r))); [| split; trivial].
  destruct (logo_file env); split; trivial.
Qed.

Lemma inv_attempt payload email person_id company subject :
  Fit payload ->
  hoare Inv (attempt env payload email person_id company subject) (fun _ => Inv).
Proof.
  intros Hfit. pose proof (Inv_send payload Hfit).
  unfold attempt. repeat (solve [auto] || inv_step).
Qed.

Lemma inv_loop_body r :
  (forall p, to_address p = email r -> Fit p) ->
  hoare Inv (loop_body env r) (fun _ => Inv).
Proof.
  intros Hfit. unfold loop_body.
  apply inv_bind; [inv_step | intros w0].
  apply inv_bind; [repeat (solve [auto] || inv_step) | intros _].
  cbv zeta.
  apply inv_bind; [inv_step | intros w1].
  match goal with |- hoare _ (if ?b then _ else _) _ => destruct b end;
    [inv_step |].
  eapply hoare_bind; [apply build_message_spec | intros e w [Hw _]; exact Hw |].
  intros p. cbv beta zeta.
  apply (hoare_bind _ (fun _ => Inv)); [| auto | intros _; apply Inv_sleep].
  apply (hoare_try _ (fun _ => Inv)).
  - intros w [Hw Hto]. apply inv_attempt; auto.
  - auto.
  - intros e. apply Inv_mark_sent.
Qed.

Lemma inv_dispatch_loop df :
  (forall r p, In r df -> to_address p = email r -> Fit p) ->
  hoare Inv (dispatch_loop env df) (fun _ => Inv).
Proof.
  induction df as [| r rest IH]; intros Hfit; cbn [dispatch_loop].
  - inv_step.
  - apply inv_bind.
    + apply inv_loop_body. intros p. apply Hfit. left. reflexivity.
    + intros _. apply IH. intros r' p Hin. apply Hfit. right. exact Hin.
Qed.

Lemma inv_main :
  (forall r p, In r (candidates env) -> to_address p = email r -> Fit p) ->
  hoare Inv (main env) (fun _ => Inv).
Proof.
  intros Hfit. pose proof (inv_dispatch_loop (candidates env) Hfit).
  unfold main. repeat (solve [auto] || inv_step).
Qed.

End RunInvariant.

(** *** Every ledger write of a run is an [INSERT OR IGNORE] *)

Section LedgerInvariant.
Import Dispatch.

Variable I : Ledger -> Prop.
Hypothesis I_insert : forall con row, I con -> I (insert_or_ignore con row).

Lemma ledger_inv_main env : hoare (fun w => I (con w)) (main env) (fun _ w => I (con w)).
Proof.
  apply (inv_main env (fun w => I (con w)) (fun _ => True)); trivial.
  - intros n. apply inv_sleep. intros w Hw. exact Hw.
  - intros email person_id company subject status.
    apply hoare_modify. intros w Hw. apply I_insert, Hw.
  - apply hoare_modify. intros w Hw. exact Hw.
  - apply hoare_modify. intros w Hw. exact Hw.
  - intros w Hw. unfold get_access_token. eff.
    destruct (get_access_token_nth env (token_requests w)); exact Hw.
  - intros payload _ w Hw. unfold graph_post_sendmail. eff.
    destruct (graph_nth env (sends w)); exact Hw.
  - intros msg w Hw. unfold send_notification_custom. eff.
    destruct (match last_sent_message w with
              | Some m => String.eqb msg m
              | None => false
              end); exact Hw.
Qed.

End LedgerInvariant.

Section LedgerUniqueness.
Import Dispatch.

(** C2. Under the unique index the ledger holds at most one row per
    (email, day): a ledger with unique keys keeps unique keys through
    [INSERT OR IGNORE] and through a whole run of [main]; an insert whose
    key is taken returns the ledger as it was; [mark_sent] never raises,
    and a second [mark_sent] for the same email on the same day leaves the
    ledger unchanged. *)
Theorem ledger_one_entry_per_email_day (con0 : Ledger) (row : Entry) :
  unique_keys con0 ->
  unique_keys (insert_or_ignore con0 row) /\
  (forall email day,
      (length (entries_for email day (insert_or_ignore con0 row)) <= 1)%nat) /\
  (forall row', key row' = key row ->
      insert_or_ignore (insert_or_ignore con0 row) row' = insert_or_ignore con0 row) /\
  (forall env email person_id company subject status w,
      fst (mark_sent env email person_id company subject status w) = Ok tt /\
      forall w2 person_id' company' subject' status',
        con w2 = con (snd (mark_sent env email person_id company subject status w)) ->
        today env w2 = today env w ->
        fst (mark_sent env email person_id' company' subject' status' w2) = Ok tt /\
        con (snd (mark_sent env email person_id' company' subject' status' w2)) = con w2) /\
  (forall env w, con w = con0 -> unique_keys (con (snd (main env w)))).
Proof.
  intros Hu. split; [| split; [| split; [| split]]].
  - apply insert_or_ignore_unique, Hu.
  - intros email day. apply unique_keys_at_most_one, insert_or_ignore_unique, Hu.
  - intros row'. apply insert_or_ignore_taken.
  - intros env email person_id company subject status w. split; [reflexivity |].
    intros w2 person_id' company' subject' status' Hcon Hday.
    split; [reflexivity |].
    unfold mark_sent in *. eff. eff_in Hcon. cbn in *.
    rewrite Hcon, Hday. apply insert_or_ignore_taken. reflexivity.
  - intros env w Hw.
    apply (ledger_inv_main unique_keys insert_or_ignore_unique env w).
    rewrite Hw. exact Hu.
Qed.

Lemma ledger_one_entry_per_email_day_witness :
  let row := mkEntry 19000 1641600000 "ann@example.com" "p1" "Acme" "AVC" "sent" in
  unique_keys (insert_or_ignore [row] row) /\ insert_or_ignore [row] row = [row].
Proof.
  intros row.
  assert (Hu : unique_keys [row]).
  { unfold unique_keys. cbn. apply NoDup_singleton. }
  destruct (ledger_one_entry_per_email_day [row] row Hu) as (H1 & _).
  split; [exact H1 | reflexivity].
Defined.

End LedgerUniqueness.

(** ** The matcher and the words of a regular expression *)

Section RegexFacts.
Import Re.

Lemma append_nil_l (s : string) : EmptyString ++ s = s.
Proof. reflexivity. Qed.

Lemma append_cons c (s1 s2 : string) : String c s1 ++ s2 = String c (s1 ++ s2).
Proof. reflexivity. Qed.

Lemma append_empty_inv (s1 s2 : string) :
  s1 ++ s2 = EmptyString -> s1 = EmptyString /\ s2 = EmptyString.
Proof.
  destruct s1; [rewrite append_nil_l; auto | rewrite append_cons; discriminate].
Qed.

Lemma append_assoc (s1 s2 s3 : string) : (s1 ++ s2) ++ s3 = s1 ++ (s2 ++ s3).
Proof.
  induction s1 as [| c s1 IH]; [reflexivity | rewrite !append_cons, IH; reflexivity].
Qed.

Lemma nullable_lang r : nullable r = true <-> lang r EmptyString.
Proof.
  split.
  - induction r as [| | p | a IHa b IHb | a IHa b IHb | a IHa]; cbn;
      try discriminate; intros H.
    + constructor.
    + apply andb_prop in H as [Ha Hb].
      apply (lang_cat a b EmptyString EmptyString); auto.
    + apply orb_prop in H as [Ha | Hb]; [apply lang_alt_l | apply lang_alt_r]; auto.
    + constructor.
  - intros H. remember EmptyString as s eqn:Hs.
    induction H as [| p c Hp | a b s1 s2 Ha IHa Hb IHb | a b s Ha IHa | a b s Hb IHb
                    | a | a s1 s2 Ha IHa Hs2 IHs2]; cbn; try reflexivity.
    + discriminate Hs.
    + apply append_empty_inv in Hs as [-> ->]. rewrite IHa, IHb; reflexivity.
    + rewrite IHa by exact Hs. reflexivity.
    + rewrite IHb by exact Hs. apply orb_true_r.
Qed.

Lemma deriv_sound c r s : lang (deriv c r) s -> lang r (String c s).
Proof.
  revert s. induction r as [| | p | a IHa b IHb | a IHa b IHb | a IHa]; intros s; cbn.
  - intros H. inversion H.
  - intros H. inversion H.
  - destruct (p c) eqn:Hp; intros H; inversion H; subst. constructor. exact Hp.
  - assert (Hcat : lang (Cat (deriv c a) b) s -> lang (Cat a b) (String c s)).
    { intros H. inversion H as [| | a' b' s1 s2 H1 H2 | | | |]; subst.
      rewrite <- append_cons. constructor; auto. }
    destruct (nullable a) eqn:Hn; [| exact Hcat].
    intros H. inversion H as [| | | a' b' s' H1 | a' b' s' H1 | |]; subst.
    + apply Hcat, H1.
    + rewrite <- (append_nil_l (String c s)). constructor; [| auto].
      apply nullable_lang, Hn.
  - intros H. inversion H as [| | | a' b' s' H1 | a' b' s' H1 | |]; subst.
    + apply lang_alt_l; auto.
    + apply lang_alt_r; auto.
  - intros H. inversion H as [| | a' b' s1 s2 H1 H2 | | | |]; subst.
    rewrite <- append_cons. constructor; auto.
Qed.

Lemma deriv_complete c r s : lang r (String c s) -> lang (deriv c r) s.
Proof.
  intros H. remember (String c s) as w eqn:Hw. revert s Hw.
  induction H as [| p c' Hp | a b s1 s2 Ha IHa Hb IHb | a b s' Ha IHa | a b s' Hb IHb
                  | a | a s1 s2 Ha IHa Hs2 IHs2]; intros s Hw; cbn.
  - discriminate Hw.
  - injection Hw as -> <-. rewrite Hp. constructor.
  - destruct s1 as [| c1 s1].
    + rewrite append_nil_l in Hw. subst s2. apply nullable_lang in Ha. rewrite Ha.
      apply lang_alt_r, IHb. reflexivity.
    + rewrite append_cons in Hw. injection Hw as -> <-.
      assert (Hcat : lang (Cat (deriv c a) b) (s1 ++ s2))
        by (constructor; [apply IHa; reflexivity | exact Hb]).
      destruct (nullable a); [apply lang_alt_l |]; exact Hcat.
  - apply lang_alt_l, IHa, Hw.
  - apply lang_alt_r, IHb, Hw.
  - discriminate Hw.
  - destruct s1 as [| c1 s1].
    + rewrite append_nil_l in Hw. apply IHs2, Hw.
    + rewrite append_cons in Hw. injection Hw as -> <-.
      constructor; [apply IHa; reflexivity | exact Hs2].
Qed.

(** The matcher decides membership. *)
Lemma fullmatch_lang r s : fullmatch r s = true <-> lang r s.
Proof.
  revert r. induction s as [| c s IH]; intros r; cbn.
  - apply nullable_lang.
  - rewrite IH. split; [apply deriv_sound | apply deriv_complete].
Qed.

Lemma lang_star_class p s : lang (Star (Class p)) s <-> Py.all_chars p s = true.
Proof.
  split.
  - intros H. remember (Star (Class p)) as r eqn:Hr. revert Hr.
    induction H as [| | | | | a | a s1 s2 Ha _ Hs2 IHs2]; intros Hr;
      try discriminate Hr.
    + reflexivity.
    + injection Hr as ->. inversion Ha; subst. rewrite append_cons, append_nil_l. cbn.
      rewrite IHs2 by reflexivity. rewrite andb_true_r. assumption.
  - induction s as [| c s IH]; cbn; intros H.
    + constructor.
    + apply andb_prop in H as [Hc Hs].
      rewrite <- (append_nil_l s), <- append_cons.
      constructor; [constructor |]; auto.
Qed.

Lemma lang_plus_class p s :
  lang (plus (Class p)) s <-> s <> EmptyString /\ Py.all_chars p s = true.
Proof.
  unfold plus. split.
  - intros H. inversion H as [| | a b s1 s2 H1 H2 | | | |]; subst.
    inversion H1; subst. apply lang_star_class in H2.
    rewrite append_cons, append_nil_l. cbn.
    split; [discriminate |]. rewrite H2, andb_true_r. assumption.
  - intros [Hne Hall]. destruct s as [| c s]; [congruence |].
    cbn in Hall. apply andb_prop in Hall as [Hc Hs].
    rewrite <- (append_nil_l s), <- append_cons. constructor.
    + constructor. exact Hc.
    + apply lang_star_class, Hs.
Qed.

Lemma lang_char c s : lang (Class (Ascii.eqb c)) s <-> s = String c EmptyString.
Proof.
  split.
  - intros H. inversion H as [| p c' Hc | | | | |]; subst.
    apply Ascii.eqb_eq in Hc. subst. reflexivity.
  - intros ->. constructor. apply Ascii.eqb_refl.
Qed.

Lemma chop_newline_Some s s' :
  chop_newline s = Some s' -> s = s' ++ String "010" EmptyString.
Proof.
  revert s'. induction s as [| c s IH]; intros s'; cbn; [discriminate |].
  destruct s as [| c' s].
  - destruct (Ascii.eqb c "010") eqn:Hc; [| discriminate].
    apply Ascii.eqb_eq in Hc. intros [= <-]. subst c. reflexivity.
  - destruct (chop_newline (String c' s)) as [r |] eqn:Hr; [| discriminate].
    cbn. intros [= <-]. rewrite append_cons. f_equal. apply IH. reflexivity.
Qed.

End RegexFacts.

(** ** What [strip] leaves *)

Section StripFacts.

Lemma rstrip_last s s' c :
  Py.rstrip s = s' ++ String c EmptyString -> Py.isspace c = false.
Proof.
  revert s'. induction s as [| a s IH]; intros s'; cbn [Py.rstrip].
  - destruct s'; [rewrite append_nil_l | rewrite append_cons]; discriminate.
  - destruct (Py.rstrip s) as [| b r] eqn:Hr.
    + destruct (Py.isspace a) eqn:Ha.
      * destruct s'; [rewrite append_nil_l | rewrite append_cons]; discriminate.
      * destruct s' as [| a' s'].
        -- rewrite append_nil_l. intros [= <-]. exact Ha.
        -- rewrite append_cons. intros [= _ H].
           destruct s'; [rewrite append_nil_l in H | rewrite append_cons in H];
             discriminate H.
    + destruct s' as [| a' s'].
      * rewrite append_nil_l. discriminate.
      * rewrite append_cons. intros [= _ H]. apply (IH s' H).
Qed.

Lemma rstrip_prefix s : exists post, s = Py.rstrip s ++ post.
Proof.
  induction s as [| a s [post IH]]; cbn [Py.rstrip].
  - exists EmptyString. reflexivity.
  - destruct (Py.rstrip s) as [| b r] eqn:Hr.
    + rewrite append_nil_l in IH. subst post.
      destruct (Py.isspace a).
      * exists (String a s). reflexivity.
      * exists s. reflexivity.
    + exists post. rewrite append_cons. f_equal. exact IH.
Qed.

Lemma lstrip_suffix s : exists pre, s = pre ++ Py.lstrip s.
Proof.
  induction s as [| a s [pre IH]]; cbn [Py.lstrip].
  - exists EmptyString. reflexivity.
  - destruct (Py.isspace a).
    + exists (String a pre). rewrite append_cons. f_equal. exact IH.
    + exists EmptyString. reflexivity.
Qed.

Lemma strip_last e s' c :
  Py.strip e = s' ++ String c EmptyString -> Py.isspace c = false.
Proof.
  unfold Py.strip. intros H.
  destruct (lstrip_suffix (Py.rstrip e)) as [pre Hpre].
  rewrite H, <- append_assoc in Hpre. apply (rstrip_last e _ c Hpre).
Qed.

Lemma strip_infix e : exists pre post, e = pre ++ Py.strip e ++ post.
Proof.
  unfold Py.strip.
  destruct (rstrip_prefix e) as [post Hpost].
  destruct (lstrip_suffix (Py.rstrip e)) as [pre Hpre].
  exists pre, post. rewrite <- append_assoc, <- Hpre. exact Hpost.
Qed.

Lemma contains_char c a b :
  Py.contains (String c EmptyString) (a ++ String c b) = true.
Proof.
  induction a as [| x a IH].
  - rewrite append_nil_l. cbn. destruct (ascii_dec c c); [| congruence].
    destruct b; reflexivity.
  - rewrite append_cons. cbn [Py.contains]. rewrite IH. apply orb_true_r.
Qed.

End StripFacts.

(** ** Filtering and ranking of the lead sheet *)

Section Ranking.
Import Dispatch.

Lemma seniority_table_sorted :
  StronglySorted (fun a b : string * Z => snd b <= snd a) SENIORITY_TABLE.
Proof.
  unfold SENIORITY_TABLE. repeat constructor; cbn; lia.
Qed.

Lemma first_score_highest table t :
  StronglySorted (fun a b : string * Z => snd b <= snd a) table ->
  (forall kw sc, In (kw, sc) table -> Py.contains kw t = true ->
                 sc <= first_score table t) /\
  ((exists kw, In (kw, first_score table t) table /\ Py.contains kw t = true)
   \/ (first_score table t = 1 /\
       forall kw sc, In (kw, sc) table -> Py.contains kw t = false)).
Proof.
  induction table as [| [kw0 sc0] rest IH]; intros Hs.
  - split; [intros kw sc [] |]. right. split; [reflexivity | intros kw sc []].
  - apply StronglySorted_inv in Hs as [Hrest Hall]. cbn [first_score].
    destruct (Py.contains kw0 t) eqn:Hk.
    + split.
      * intros kw sc [Heq | Hin] _.
        -- injection Heq as _ <-. lia.
        -- rewrite Forall_forall in Hall. apply (Hall (kw, sc)), list_elem_of_In, Hin.
      * left. exists kw0. split; [left; reflexivity | exact Hk].
    + destruct (IH Hrest) as [Hmax Hsome]. split.
      * intros kw sc [Heq | Hin] Hc.
        -- injection Heq as <- <-. congruence.
        -- apply (Hmax kw sc Hin Hc).
      * destruct Hsome as [(kw & Hin & Hc) | (H1 & Hnone)].
        -- left. exists kw. split; [right; exact Hin | exact Hc].
        -- right. split; [exact H1 |].
           intros kw sc [Heq | Hin].
           ++ injection Heq as <- <-. exact Hk.
           ++ apply (Hnone kw sc Hin).
Qed.

Lemma email_re_shape s : Re.lang EMAIL_RE s <-> email_shape s.
Proof.
  unfold EMAIL_RE, email_shape. split.
  - intros H.
    inversion H as [| | a1 b1 l r1 Hl H1 | | | |]; subst.
    inversion H1 as [| | a2 b2 at_ r2 Hat H2 | | | |]; subst.
    inversion H2 as [| | a3 b3 d r3 Hd H3 | | | |]; subst.
    inversion H3 as [| | a4 b4 dot t Hdot Ht | | | |]; subst.
    apply lang_char in Hat, Hdot. subst at_ dot.
    apply lang_plus_class in Hl as [Hl1 Hl2], Hd as [Hd1 Hd2], Ht as [Ht1 Ht2].
    exists l, d, t. auto 10.
  - intros (l & d & t & -> & Hl & Hd & Ht & Hl' & Hd' & Ht').
    constructor; [apply lang_plus_class; split; assumption |].
    apply (Re.lang_cat _ _ "@"); [apply lang_char; reflexivity |].
    constructor; [apply lang_plus_class; split; assumption |].
    apply (Re.lang_cat _ _ "."); [apply lang_char; reflexivity |].
    apply lang_plus_class. split; assumption.
Qed.

(** [is_valid_email] accepts exactly the strings that, once stripped,
    have the shape local@domain.tld. *)
Lemma is_valid_email_shape e : is_valid_email e = true <-> email_shape (Py.strip e).
Proof.
  unfold is_valid_email, Re.match_anchored. split.
  - destruct (Py.contains "@" e); cbn [negb]; [| discriminate].
    intros H. apply orb_prop in H as [H | H].
    + apply email_re_shape, fullmatch_lang, H.
    + destruct (Re.chop_newline (Py.strip e)) as [s' |] eqn:Hchop; [| discriminate].
      apply chop_newline_Some in Hchop. apply strip_last in Hchop. discriminate Hchop.
  - intros Hshape.
    assert (Hat : Py.contains "@" e = true).
    { destruct Hshape as (l & d & t & Hs & _).
      destruct (strip_infix e) as (pre & post & He).
      rewrite Hs in He.
      assert (He' : e = (pre ++ l) ++ String "@" ((d ++ "." ++ t) ++ post))
        by (rewrite He, !append_assoc; reflexivity).
      rewrite He'. apply contains_char. }
    rewrite Hat. cbn [negb].
    apply email_re_shape, fullmatch_lang in Hshape. rewrite Hshape. reflexivity.
Qed.

Lemma prefilter_In dne df r :
  In r (prefilter dne df) <-> In r df /\ passes dne r.
Proof.
  unfold prefilter, passes. rewrite !filter_In, negb_true_iff, bool_decide_eq_false.
  tauto.
Qed.

Lemma allowed_status_spec st :
  allowed_status st = true <-> st = "verified" \/ st = "likely to engage".
Proof.
  unfold allowed_status, ALLOWED_EMAIL_STATUS. cbn [existsb].
  rewrite orb_false_r, orb_true_iff, !String.eqb_eq. intuition congruence.
Qed.

Lemma lower_empty s : Py.lower s = EmptyString -> s = EmptyString.
Proof. destruct s; [reflexivity | discriminate]. Qed.

Lemma load_do_not_email_spec lines x :
  x ∈ load_do_not_email (Some lines) <->
  exists line, In line lines /\ Py.strip line <> EmptyString
               /\ x = Py.lower (Py.strip line).
Proof.
  unfold load_do_not_email.
  rewrite elem_of_list_to_set, list_elem_of_In, in_map_iff. split.
  - intros (line & <- & Hin). apply filter_In in Hin as [Hin Hne].
    exists line. split; [exact Hin |]. split; [| reflexivity].
    apply negb_true_iff, String.eqb_neq in Hne. exact Hne.
  - intros (line & Hin & Hne & ->). exists line. split; [reflexivity |].
    apply filter_In. split; [exact Hin |].
    apply negb_true_iff, String.eqb_neq. exact Hne.
Qed.


(** *** A sort that keeps the contract of [sort_values] *)

Import DispatchExamples.

Lemma insert_by_seniority_perm r df :
  Permutation (r :: df) (insert_by_seniority r df).
Proof.
  induction df as [| x rest IH]; cbn.
  - reflexivity.
  - destruct (seniority x <=? seniority r); [reflexivity |].
    rewrite perm_swap. apply perm_skip, IH.
Qed.

Lemma insert_by_seniority_sorted r df :
  StronglySorted by_seniority_desc df ->
  StronglySorted by_seniority_desc (insert_by_seniority r df).
Proof.
  induction df as [| x rest IH]; intros Hs; cbn.
  - repeat constructor.
  - apply StronglySorted_inv in Hs as Hinv. destruct Hinv as [Hrest Hall].
    destruct (seniority x <=? seniority r) eqn:Hle.
    + apply Z.leb_le in Hle. apply SSorted_cons; [exact Hs |].
      constructor; [exact Hle |].
      eapply Forall_impl; [exact Hall |].
      unfold by_seniority_desc. cbn. intros y Hy. lia.
    + apply Z.leb_gt in Hle. apply SSorted_cons; [apply IH, Hrest |].
      eapply Permutation_Forall; [apply insert_by_seniority_perm |].
      constructor; [unfold by_seniority_desc; lia | exact Hall].
Qed.

Lemma stable_sort_contract : sort_contract stable_sort.
Proof.
  intros df. induction df as [| r rest [IHp IHs]]; cbn.
  - split; [reflexivity | constructor].
  - split.
    + rewrite <- insert_by_seniority_perm. apply perm_skip, IHp.
    + apply insert_by_seniority_sorted, IHs.
Qed.

Lemma sort_contract_In sort df r :
  sort_contract sort -> In r (sort df) -> In r df.
Proof.
  intros Hc Hin. destruct (Hc df) as [Hp _].
  eapply Permutation_in; [symmetry; exact Hp | exact Hin].
Qed.

Lemma candidates_In env r :
  (forall df x, In x (sort_values env df) -> In x df) ->
  In r (candidates env) ->
  exists l, In l (csv env) /\ r = with_score (normalize l)
            /\ passes (load_do_not_email (do_not_email_file env)) (normalize l).
Proof.
  intros Hsort Hin. unfold candidates in Hin. apply Hsort in Hin.
  apply in_map_iff in Hin as (r0 & <- & Hin).
  apply prefilter_In in Hin as [Hin Hpass].
  apply in_map_iff in Hin as (l & <- & Hl).
  exists l. auto.
Qed.

End Ranking.

Section RankingOrder.
Import Dispatch DispatchExamples.

(** X4. Under the contract of [sort_values] (the same rows, in
    descending order of the key), the rows that survive the filters are
    processed in
    descending order of their seniority score, where the score of a title
    is that of the first keyword of the table found in the lower-cased
    title; the table lists its keywords by descending score, so this is
    the highest score among the keywords found, and it is 1 when none is
    found. The order among rows of equal score is whatever the sort
    yields. *)
Theorem ranking_by_seniority (env : Env) :
  sort_contract (sort_values env) ->
  Permutation
    (List.map with_score
       (prefilter (load_do_not_email (do_not_email_file env))
                  (List.map normalize (csv env))))
    (candidates env) /\
  StronglySorted by_seniority_desc (candidates env) /\
  (forall r, In r (candidates env) ->
             seniority r = seniority_score (l_title (lead r))) /\
  (forall title,
      let t := Py.lower (str title) in
      (forall kw sc, In (kw, sc) SENIORITY_TABLE -> Py.contains kw t = true ->
                     sc <= seniority_score title) /\
      ((exists kw, In (kw, seniority_score title) SENIORITY_TABLE
                   /\ Py.contains kw t = true)
       \/ (seniority_score title = 1 /\
           forall kw sc, In (kw, sc) SENIORITY_TABLE -> Py.contains kw t = false))).
Proof.
  intros Hsort. unfold candidates.
  destruct (Hsort (List.map with_score
                     (prefilter (load_do_not_email (do_not_email_file env))
                                (List.map normalize (csv env))))) as [Hp Hs].
  split; [exact Hp |]. split; [exact Hs |]. split.
  - intros r Hin. eapply Permutation_in in Hin; [| symmetry; exact Hp].
    apply in_map_iff in Hin as (r0 & <- & _). reflexivity.
  - intros title. apply first_score_highest, seniority_table_sorted.
Qed.

Lemma ranking_by_seniority_witness :
  let env := env_of 50 [ann; cid; dan] stable_sort accepting in
  StronglySorted by_seniority_desc (candidates env) /\
  List.map seniority (candidates env) = [2; 2].
Proof.
  intros env.
  destruct (ranking_by_seniority env stable_sort_contract) as (_ & Hs & _).
  split; [exact Hs | vm_compute; reflexivity].
Defined.

End RankingOrder.

Section PreFilter.
Import Dispatch DispatchExamples.

Lemma sends_fit_main env before Fit :
  (forall r p, In r (candidates env) -> to_address p = email r -> Fit p) ->
  hoare (sends_fit before Fit) (main env) (fun _ => sends_fit before Fit).
Proof.
  intros Hfit. apply (inv_main env (sends_fit before Fit) Fit); trivial.
  - intros n. apply inv_sleep. intros w Hw tok p [H | H]; [discriminate H | auto].
  - intros email person_id company subject status.
    apply hoare_modify. intros w Hw. exact Hw.
  - apply hoare_modify. intros w Hw. exact Hw.
  - apply hoare_modify. intros w Hw. exact Hw.
  - intros w Hw. unfold get_access_token. eff.
    destruct (get_access_token_nth env (token_requests w)); exact Hw.
  - intros payload Hp w Hw. unfold graph_post_sendmail. eff.
    assert (Hnew : forall el, sends_fit before Fit
              (mkWorld (now w + el) (con w) (S (sends w)) (token_requests w) (token w)
                       (sent_now w) (last_sent_message w)
                       (EvSend (token w) payload :: trace w))).
    { intros el tok p [H | H]; [injection H as <- <-; right; exact Hp | auto]. }
    destruct (graph_nth env (sends w)); apply Hnew.
  - intros msg w Hw. unfold send_notification_custom. eff.
    destruct (match last_sent_message w with
              | Some m => String.eqb msg m
              | None => false
              end); [exact Hw |].
    intros tok p [H | H]; [discriminate H | auto].
Qed.

(** C9. The loop iterates only over rows that passed the three filters
    that stand before the ranking. A row passes when its email, stripped,
    has the shape local@domain.tld, when its deliverability status,
    lower-cased and stripped, is "verified" or "likely to engage", and when
    the lower-case form of its email is not in the do-not-email set, which
    holds the non-blank lines of the file, stripped and lower-cased.
    Every message a run sends is addressed to a row of the sheet that
    passes; a row with the email [not-an-email], with no email, with
    another status or with a listed email is never sent to. *)
Theorem unfit_rows_never_sent (env : Env) (w : World) :
  (forall df x, In x (sort_values env df) -> In x df) ->
  let dne := load_do_not_email (do_not_email_file env) in
  let fit (l : Lead) :=
    email_shape (Py.strip (Py.strip (str (l_email l)))) /\
    (Py.strip (Py.lower (str (l_email_status l))) = "verified"
     \/ Py.strip (Py.lower (str (l_email_status l))) = "likely to engage") /\
    (forall lines line,
        do_not_email_file env = Some lines -> In line lines ->
        Py.strip line <> EmptyString ->
        Py.lower (Py.strip line) <> Py.lower (Py.strip (str (l_email l)))) in
  (forall r, In r (candidates env) ->
             exists l, In l (csv env) /\ r = with_score (normalize l)
                       /\ passes dne (normalize l) /\ fit l) /\
  (forall dne' df r, In r (prefilter dne' df) <-> In r df /\ passes dne' r) /\
  (forall tok p,
      In (EvSend tok p) (trace (snd (main env w))) ->
      In (EvSend tok p) (trace w) \/
      exists l, In l (csv env) /\ to_address p = Py.strip (str (l_email l))
                /\ passes dne (normalize l) /\ fit l) /\
  (forall dne' r,
      passes dne' r <->
      email_shape (Py.strip (email r)) /\
      (email_status_norm r = "verified" \/ email_status_norm r = "likely to engage") /\
      Py.lower (email r) ∉ dne') /\
  (forall x,
      x ∈ dne <->
      exists lines line,
        do_not_email_file env = Some lines /\ In line lines /\
        Py.strip line <> EmptyString /\ x = Py.lower (Py.strip line)) /\
  (forall e, is_valid_email e = true <-> email_shape (Py.strip e)) /\
  is_valid_email "not-an-email" = false /\
  is_valid_email EmptyString = false /\
  email (normalize (mkLead None None None None None None)) = "nan" /\
  is_valid_email "nan" = false /\
  allowed_status (email_status_norm (normalize (mkLead None None None None None None)))
  = false.
Proof.
  intros Hsort dne fit.
  assert (Hpasses : forall dne' r,
             passes dne' r <->
             email_shape (Py.strip (email r)) /\
             (email_status_norm r = "verified"
              \/ email_status_norm r = "likely to engage") /\
             Py.lower (email r) ∉ dne').
  { intros dne' r. unfold passes. rewrite is_valid_email_shape, allowed_status_spec.
    reflexivity. }
  assert (Hdne : forall x,
             x ∈ dne <->
             exists lines line,
               do_not_email_file env = Some lines /\ In line lines /\
               Py.strip line <> EmptyString /\ x = Py.lower (Py.strip line)).
  { intros x. unfold dne. destruct (do_not_email_file env) as [lines |].
    - rewrite load_do_not_email_spec. split.
      + intros (line & H1 & H2 & H3). exists lines, line. auto.
      + intros (lines' & line & [= <-] & H1 & H2 & H3). exists line. auto.
    - cbn [load_do_not_email]. split; [set_solver |].
      intros (lines & line & H & _). discriminate H. }
  assert (Hfit : forall l, passes dne (normalize l) -> fit l).
  { intros l Hp. apply Hpasses in Hp as (Hshape & Hstatus & Hnot).
    unfold normalize in Hshape, Hstatus, Hnot. cbn [email email_status_norm] in *.
    split; [exact Hshape |]. split; [exact Hstatus |].
    intros lines line Hfile Hin Hne Heq. apply Hnot, Hdne.
    exists lines, line. auto. }
  split.
  { intros r Hin. destruct (candidates_In env r Hsort Hin) as (l & Hl & Hr & Hp).
    exists l. auto. }
  split; [intros dne' df r; apply prefilter_In |].
  split; [| split; [exact Hpasses | split; [exact Hdne |]]].
  - apply (sends_fit_main env (trace w)
             (fun p => exists l, In l (csv env) /\ to_address p = Py.strip (str (l_email l))
                                 /\ passes dne (normalize l) /\ fit l)).
    + intros r p Hin Hto.
      destruct (candidates_In env r Hsort Hin) as (l & Hl & -> & Hpass).
      exists l. auto.
    + intros tok p Hin. left. exact Hin.
  - split; [exact is_valid_email_shape | repeat split; reflexivity].
Qed.

(** A sheet with one row for each reason to drop and one fit row, Ann's:
    Dan's email is [not-an-email], Eve is on the do-not-email list in
    another letter case, Fay's status is "unavailable". Only Ann is sent
    to. *)
Lemma unfit_rows_never_sent_witness :
  let env := mkEnv 50 [dan; eve; fay; ann] (Some [" EVE@acme.example "; EmptyString])
                   (Some "iVBORw0KGgo=") stable_sort (fun _ => inl "token") accepting
                   utc (fun _ _ => None) in
  Forall (fun e => match e with
                   | EvSend _ p => to_address p <> "not-an-email"
                                   /\ to_address p <> "Eve@Acme.example"
                                   /\ to_address p <> "fay@acme.example"
                   | _ => True
                   end)
         (trace (snd (main env (start 0 [])))).
Proof.
  intros env.
  destruct (unfit_rows_never_sent env (start 0 [])
              (fun df x => sort_contract_In stable_sort df x stable_sort_contract))
    as (_ & _ & Hsent & _).
  apply List.Forall_forall. intros [tok p | n | msg] Hin; [| exact I | exact I].
  destruct (Hsent tok p Hin) as [[] | (l & Hl & -> & _ & Hshape & Hstatus & Hlisted)].
  cbn [csv env] in Hl.
  destruct Hl as [<- | [<- | [<- | [<- | []]]]].
  - exfalso. apply is_valid_email_shape in Hshape. discriminate Hshape.
  - exfalso.
    apply (Hlisted [" EVE@acme.example "; EmptyString] " EVE@acme.example ");
      [reflexivity | left; reflexivity | discriminate | reflexivity].
  - exfalso. destruct Hstatus as [H | H]; discriminate H.
  - repeat split; discriminate.
Defined.

End PreFilter.

(** ** The collection loop *)

Section CollectionFilter.
Import Collect CollectExamples.

Lemma is_excluded_title_or_empty t :
  is_excluded_title (Some (Py.or_empty t)) = is_excluded_title t.
Proof. destruct t as [[| c s] |]; reflexivity. Qed.

Lemma org_name_of_employer p o :
  org_name_of p = Ok o -> is_excluded_company o = is_excluded_company (employer p).
Proof.
  unfold org_name_of, employer, Py.or_.
  destruct (Py.truthy (p_organization_name p)) eqn:H1.
  - intros [= <-]. rewrite H1. reflexivity.
  - destruct (Py.truthy (p_company p)) eqn:H2.
    + intros [= <-]. rewrite ?H1, ?H2. reflexivity.
    + destruct (p_organization p) as [| | n]; intros [= <-]; rewrite ?H1, ?H2;
        reflexivity.
Qed.

Lemma org_name_of_cases p :
  (org_raises p = true /\ org_name_of p = Raised AttributeError)
  \/ (org_raises p = false /\ exists o, org_name_of p = Ok o).
Proof.
  unfold org_raises, org_name_of.
  destruct (Py.truthy (p_organization_name p)); cbn [negb andb]; [right; eauto |].
  destruct (Py.truthy (p_company p)); cbn [negb andb]; [right; eauto |].
  destruct (p_organization p); [right | left | right]; eauto.
Qed.

(** The body of [for p in people] in one formula: it raises when some
    candidate makes it, and otherwise keeps those the rule keeps, in the
    order of the page. *)
Lemma keep_people_total existing_ids people kept :
  keep_people existing_ids people kept
  = if existsb (aborts existing_ids) people then Raised AttributeError
    else Ok (kept ++ List.filter (spec_keeps existing_ids) people)%list.
Proof.
  revert kept. induction people as [| p rest IH]; intros kept.
  - cbn. rewrite app_nil_r. reflexivity.
  - cbn [keep_people existsb List.filter]. unfold aborts at 1, spec_keeps.
    destruct (Py.truthy (get_person_id p)); cbn [negb andb orb]; [| apply IH].
    destruct (bool_decide (Py.or_empty (get_person_id p) ∈ existing_ids));
      cbn [negb andb orb]; [apply IH |].
    destruct (org_name_of_cases p) as [[Hr Ho] | [Hr (o & Ho)]]; rewrite Hr, Ho;
      cbn [orb]; [reflexivity |].
    rewrite is_excluded_title_or_empty, (org_name_of_employer p o Ho).
    destruct (is_excluded_title (p_title p)); cbn [negb andb]; [apply IH |].
    destruct (is_excluded_company (employer p)); cbn [negb andb]; [apply IH |].
    rewrite IH. destruct (existsb (aborts existing_ids) rest); [reflexivity |].
    rewrite <- app_assoc. reflexivity.
Qed.

Lemma keep_people_skip existing_ids p rest kept :
  (Py.truthy (get_person_id p) = false
   \/ (Py.or_empty (get_person_id p) ∈ existing_ids)) ->
  keep_people existing_ids (p :: rest) kept = keep_people existing_ids rest kept.
Proof.
  intros [Hnone | Hseen]; cbn [keep_people].
  - rewrite Hnone. reflexivity.
  - destruct (Py.truthy (get_person_id p)); [| reflexivity]. cbn [negb].
    rewrite bool_decide_eq_true_2 by exact Hseen. reflexivity.
Qed.

Lemma search_loop_step net s ids pages page acc w resp w1 :
  search_page net page w = (Ok resp, w1) ->
  search_loop net s ids (S pages) page acc w
  = match parse_people_from_search resp with
    | [] => (Ok acc, w1)
    | people =>
        if existsb (aborts ids) people then (Raised AttributeError, w1)
        else
          (let* _ := sleep s in
           search_loop net s ids pages (page + 1)
             (acc ++ List.filter (spec_keeps ids) people))%eff w1
    end.
Proof.
  intros Hpage. cbn [search_loop]. unfold bind at 1. rewrite Hpage.
  destruct (parse_people_from_search resp) as [| p people] eqn:Hp; [reflexivity |].
  unfold bind at 1, lift. rewrite (keep_people_total ids (p :: people) []).
  destruct (existsb (aborts ids) (p :: people)); reflexivity.
Qed.

(** X29. What the search loop does with a page that was fetched. A page
    without results ends the loop with what was kept so far and without
    error. On any other page the loop reads the candidates in order: one
    without identity, or whose identity is already in the table, is
    skipped before anything else of it is read; of the others the employer
    name is read, which raises when ["organization"] is null and no other
    employer field holds a name, and this ends the loop, and the run, with
    that exception, whatever the title; when no candidate raises, the loop
    keeps exactly those with a title without excluded keyword and an
    employer name without excluded keyword, sleeps and goes on with the
    next page. *)
Theorem collection_page_filter net s ids pages page acc w resp w1 :
  search_page net page w = (Ok resp, w1) ->
  let people := parse_people_from_search resp in
  (people = [] -> search_loop net s ids (S pages) page acc w = (Ok acc, w1)) /\
  (people <> [] -> existsb (aborts ids) people = false ->
   search_loop net s ids (S pages) page acc w
   = (let* _ := sleep s in
      search_loop net s ids pages (page + 1)
        (acc ++ List.filter (spec_keeps ids) people))%eff w1) /\
  (existsb (aborts ids) people = true ->
   search_loop net s ids (S pages) page acc w = (Raised AttributeError, w1)) /\
  (forall p,
      In p (List.filter (spec_keeps ids) people) <->
      In p people /\
      Py.truthy (get_person_id p) = true /\
      (Py.or_empty (get_person_id p) ∉ ids) /\
      is_excluded_title (p_title p) = false /\
      is_excluded_company (employer p) = false) /\
  (existsb (aborts ids) people = true <->
   exists p, In p people /\
             Py.truthy (get_person_id p) = true /\
             (Py.or_empty (get_person_id p) ∉ ids) /\
             Py.truthy (p_organization_name p) = false /\
             Py.truthy (p_company p) = false /\
             p_organization p = OrgNull) /\
  (forall p rest kept,
      (Py.truthy (get_person_id p) = false \/ (Py.or_empty (get_person_id p) ∈ ids)) ->
      keep_people ids (p :: rest) kept = keep_people ids rest kept) /\
  ((0 <= s)%Q -> (s < LONG_SLEEP)%Q -> sleep s w1 = emit (EvSleep s) w1).
Proof.
  intros Hpage. cbv zeta.
  pose proof (search_loop_step net s ids pages page acc w resp w1 Hpage) as Hstep.
  generalize dependent (parse_people_from_search resp). intros people Hstep.
  split; [| split; [| split; [| split; [| split; [| split]]]]].
  - intros Hnil. rewrite Hstep, Hnil. reflexivity.
  - intros Hne Hno. rewrite Hstep.
    destruct people; [congruence |]. cbv beta iota zeta. rewrite Hno. reflexivity.
  - intros Hyes. rewrite Hstep.
    destruct people; [discriminate Hyes |]. cbv beta iota zeta. rewrite Hyes. reflexivity.
  - intros p. rewrite filter_In. unfold spec_keeps.
    rewrite !andb_true_iff, !negb_true_iff, bool_decide_eq_false. tauto.
  - rewrite existsb_exists. unfold aborts, org_raises.
    split.
    + intros (p & Hin & H). exists p.
      rewrite !andb_true_iff, !negb_true_iff, bool_decide_eq_false in H.
      destruct H as ((H1 & H2) & (H3 & H4) & H5).
      destruct (p_organization p); try discriminate H5. auto 10.
    + intros (p & Hin & H1 & H2 & H3 & H4 & H5). exists p. split; [exact Hin |].
      rewrite H1, H3, H4, H5, bool_decide_eq_false_2 by exact H2. reflexivity.
  - intros p rest kept. apply keep_people_skip.
  - intros H0 Hlt. rewrite short_pause by assumption. reflexivity.
Qed.

(** The scenario of the specification: twelve raw candidates on page 1,
    three with "consultant" in the title, two already in the CSV; page 2
    is empty. Seven are kept and two pages are requested. *)
Lemma collection_page_filter_witness :
  let ids := load_existing_person_ids (Some (mkFile true known_csv)) in
  let run := search_loop two_pages (2 # 5) ids 50 1 [] (start known_csv) in
  length page_one = 12%nat /\
  length (List.filter (fun p => is_excluded_title (p_title p)) page_one) = 3%nat /\
  length (List.filter (fun p => bool_decide (Py.or_empty (get_person_id p) ∈ ids))
                      page_one) = 2%nat /\
  fst run = Ok (List.filter (spec_keeps ids) page_one) /\
  length (List.filter (spec_keeps ids) page_one) = 7%nat /\
  searched_pages (trace (snd run)) = [1; 2].
Proof.
  intros ids run.
  destruct (collection_page_filter two_pages (2 # 5) ids 49 1 []
              (start known_csv)
              (mkJson (AList page_one) Absent Absent Absent)
              (snd (search_page two_pages 1 (start known_csv)))
              eq_refl) as (_ & Hstep & _).
  assert (Hne : parse_people_from_search (mkJson (AList page_one) Absent Absent Absent)
                <> []) by discriminate.
  specialize (Hstep Hne).
  split; [reflexivity |]. split; [vm_compute; reflexivity |].
  split; [vm_compute; reflexivity |].
  split; [| split; [vm_compute; reflexivity |]].
  - unfold run. change 50%nat with (S 49). rewrite Hstep; vm_compute; reflexivity.
  - unfold run. change 50%nat with (S 49). rewrite Hstep; vm_compute; reflexivity.
Defined.

(** C8 fails on the code. The second candidate of the page has a title
    with an excluded keyword, "Growth Lead", and ["organization": null]
    with no other employer field. The specification has it skipped
    silently and the first candidate kept; the code reads the employer
    name before it tests the title, [None.get] raises, and the run ends
    with that exception after one search request: nobody is kept, nothing
    is enriched or written. The same happens with any title, and wherever
    on the page the candidate stands. *)
Theorem null_organization_aborts_search :
  let growth_lead := mkCandidate None (Some "u02") (Some "Growth Lead") None None OrgNull in
  let cdo := person "u01" "Chief Data Officer" "Nordwind AG" in
  let net : Net := fun _ _ => ok_body [cdo; growth_lead] in
  is_excluded_title (p_title growth_lead) = true /\
  spec_keeps ∅ cdo = true /\
  keep_people ∅ [cdo; growth_lead] [] = Raised AttributeError /\
  main net (mkArgs 50 false (2 # 5)) (start [])
  = (Raised AttributeError,
     mkWorld 1 [EvPost (PeopleSearch 1)] None (long_sleep (start []))) /\
  (forall ids before p rest kept,
      existsb (aborts ids) before = false ->
      Py.truthy (get_person_id p) = true ->
      Py.or_empty (get_person_id p) ∉ ids ->
      Py.truthy (p_organization_name p) = false ->
      Py.truthy (p_company p) = false ->
      p_organization p = OrgNull ->
      keep_people ids (before ++ p :: rest) kept = Raised AttributeError).
Proof.
  cbv zeta. split; [reflexivity |]. split; [vm_compute; reflexivity |].
  split; [vm_compute; reflexivity |]. split; [vm_compute; reflexivity |].
  intros ids before p rest kept Hbefore H1 H2 H3 H4 H5.
  rewrite keep_people_total, existsb_app. cbn [existsb].
  unfold aborts at 2, org_raises.
  rewrite H1, H3, H4, H5, bool_decide_eq_false_2 by exact H2. cbn.
  rewrite orb_true_r. reflexivity.
Qed.

End CollectionFilter.

(** ** Identities already in the output table *)

Section KnownIdentities.
Import Collect CollectExamples.

Lemma read_ids_spec names rest id :
  id ∈ read_ids names rest <->
  exists values, In values rest
                 /\ Py.truthy (dict_get "person_id" names values) = true
                 /\ Py.or_empty (dict_get "person_id" names values) = id.
Proof.
  unfold read_ids.
  assert (Hgen : forall (acc : gset string),
    id ∈ fold_left
           (fun ids values =>
              if Py.truthy (dict_get "person_id" names values)
              then {[ Py.or_empty (dict_get "person_id" names values) ]} ∪ ids
              else ids) rest acc
    <-> id ∈ acc \/ exists values,
          In values rest /\ Py.truthy (dict_get "person_id" names values) = true
          /\ Py.or_empty (dict_get "person_id" names values) = id).
  { induction rest as [| r rest IH]; intros acc; cbn [fold_left].
    - split; [auto | intros [H | (r & [] & _)]; exact H].
    - rewrite IH. destruct (Py.truthy (dict_get "person_id" names r)) eqn:Ht.
      + rewrite elem_of_union, elem_of_singleton. split.
        * intros [[-> | H] | (r' & Hin & H1 & H2)]; eauto 8 using in_eq, in_cons.
        * intros [H | (r' & [<- | Hin] & H1 & H2)]; eauto 8.
      + split.
        * intros [H | (r' & Hin & H1 & H2)]; eauto 8 using in_cons.
        * intros [H | (r' & [<- | Hin] & H1 & H2)]; [auto | congruence | eauto 8]. }
  rewrite Hgen. split; [intros [H | H]; [set_solver | exact H] | auto].
Qed.

(** Under the column names the reader finds the identity of a row. *)
Lemma dict_get_person_id r :
  dict_get "person_id" FIELDNAMES (cells r) = Some (Py.or_empty (person_id r)).
Proof. reflexivity. Qed.

Lemma truthy_or_empty x : Py.truthy (Some (Py.or_empty x)) = Py.truthy x.
Proof. destruct x as [[| c s] |]; reflexivity. Qed.

Lemma or_empty_or_empty x : Py.or_empty (Some (Py.or_empty x)) = Py.or_empty x.
Proof. destruct x as [[| c s] |]; reflexivity. Qed.

(** What is read back from a file that starts with the column names. *)
Lemma load_existing_person_ids_spec csv id :
  id ∈ load_existing_person_ids (Some (mkFile true csv)) <->
  exists r, In r csv /\ Py.truthy (person_id r) = true /\ Py.or_empty (person_id r) = id.
Proof.
  unfold load_existing_person_ids, records. cbn [headed lines app].
  rewrite read_ids_spec. split.
  - intros (values & Hin & Ht & Hid). apply in_map_iff in Hin as (r & <- & Hr).
    rewrite dict_get_person_id in Ht, Hid.
    rewrite truthy_or_empty in Ht. rewrite or_empty_or_empty in Hid. eauto.
  - intros (r & Hr & Ht & Hid). exists (cells r).
    split; [apply in_map, Hr |].
    rewrite dict_get_person_id, truthy_or_empty, or_empty_or_empty. auto.
Qed.

(** No identity that is read back is the empty string. *)
Lemma load_existing_person_ids_nonempty output_csv :
  EmptyString ∉ load_existing_person_ids output_csv.
Proof.
  unfold load_existing_person_ids. destruct output_csv as [f |]; [| set_solver].
  destruct (records f) as [| names rest]; [set_solver |].
  rewrite read_ids_spec. intros (values & _ & Ht & Hid).
  destruct (dict_get "person_id" names values) as [[| c s] |]; discriminate.
Qed.

Lemma person_ids_spec rows id :
  id ∈ person_ids rows <->
  exists r, In r rows /\ Py.truthy (person_id r) = true /\ Py.or_empty (person_id r) = id.
Proof.
  unfold person_ids, ids_of_rows.
  rewrite elem_of_list_to_set, list_elem_of_omap. split.
  - intros (r & Hr & Hsome). apply list_elem_of_In in Hr.
    destruct (Py.truthy (person_id r)) eqn:Ht; [| discriminate].
    injection Hsome as <-. eauto.
  - intros (r & Hr & Ht & <-). exists r. rewrite Ht.
    split; [apply list_elem_of_In, Hr | reflexivity].
Qed.

(** From a file that can be read back the loop learns the identities of
    its rows, all of them. *)
Lemma load_existing_person_ids_readable output_csv :
  readable output_csv ->
  load_existing_person_ids output_csv
  = person_ids match output_csv with
               | Some f => lines f
               | None => []
               end.
Proof.
  intros Hr. apply set_eq. intros id. rewrite person_ids_spec.
  destruct output_csv as [[h rows] |].
  - specialize (Hr _ eq_refl). cbn in Hr. subst h.
    apply load_existing_person_ids_spec.
  - cbn. split; [set_solver | intros (r & [] & _)].
Qed.

Lemma keep_people_fresh known people kept out :
  keep_people known people kept = Ok out ->
  Forall (fresh known) kept -> Forall (fresh known) out.
Proof.
  revert kept. induction people as [| p rest IH]; intros kept; cbn [keep_people].
  - intros [= <-]. auto.
  - destruct (Py.truthy (get_person_id p)) eqn:Hid; cbn [negb]; [| apply IH].
    destruct (bool_decide (Py.or_empty (get_person_id p) ∈ known)) eqn:Hseen;
      [apply IH |].
    apply bool_decide_eq_false in Hseen.
    destruct (org_name_of p) as [o | e]; [| discriminate].
    destruct (is_excluded_title _); [apply IH |].
    destruct (is_excluded_company _); [apply IH |].
    intros Hrun Hkept. apply (IH _ Hrun).
    apply Forall_app. split; [exact Hkept |].
    constructor; [intros _; exact Hseen | constructor].
Qed.

Lemma chunked_In {A} (lst : list A) n batch x :
  In batch (chunked lst n) -> In x batch -> In x lst.
Proof.
  unfold chunked. intros Hb Hx.
  apply in_map_iff in Hb as (k & <- & _).
  apply list_elem_of_In. apply list_elem_of_In in Hx.
  eapply subseteq_drop, subseteq_take, Hx.
Qed.

Lemma details_of_fresh known batch :
  Forall (fresh known) batch -> Forall (fun id => id ∉ known) (details_of batch).
Proof.
  intros Hb. apply List.Forall_forall. intros id Hid.
  unfold details_of in Hid. apply list_elem_of_In in Hid.
  apply list_elem_of_omap in Hid as (p & Hp & Hsome).
  destruct (Py.truthy (get_person_id p)) eqn:Ht; [| discriminate].
  injection Hsome as <-.
  rewrite List.Forall_forall in Hb. apply (Hb p); [apply list_elem_of_In, Hp | exact Ht].
Qed.

Lemma retry_events_In req k m e :
  In e (retry_events req k m) -> e = EvPost req \/ exists q, e = EvSleep q.
Proof.
  unfold retry_events. intros Hin. apply in_flat_map in Hin as (i & _ & Hi).
  destruct Hi as [<- | [<- | []]]; eauto.
Qed.

Lemma post_with_backoff_effect net req max_retries w :
  table (snd (post_with_backoff net req max_retries w)) = table w /\
  (forall e, In e (trace (snd (post_with_backoff net req max_retries w))) ->
             In e (trace w) \/ e = EvPost req \/ exists q, e = EvSleep q) /\
  (forall j, fst (post_with_backoff net req max_retries w) = Ok j ->
             exists n r, net n req = Replied r /\ status_code r = 200
                         /\ json r = Some j).
Proof.
  unfold post_with_backoff. change 1 with (backoff_delay 0).
  destruct (post_attempts_contract net req (Z.to_nat max_retries) 0 w)
    as (n & _ & _ & Htab & Hcases).
  split; [exact Htab |].
  destruct Hcases as [(_ & Hres & Htr & _) | (_ & _ & Hres & Htr & _)];
    rewrite Hres, Htr; split.
  - intros e Hin. apply in_app_or in Hin as [Hin | Hin]; [| auto].
    right. apply in_rev in Hin. eapply retry_events_In, Hin.
  - intros j Hj. discriminate Hj.
  - intros e [<- | Hin]; [auto |].
    apply in_app_or in Hin as [Hin | Hin]; [| auto].
    right. apply in_rev in Hin. eapply retry_events_In, Hin.
  - intros j Hj. unfold final_outcome in Hj.
    destruct (net (calls w + n)%nat req) as [r | d] eqn:Hnet; [| discriminate].
    destruct (status_code r =? 200) eqn:H200; [| discriminate].
    destruct (json r) as [j' |] eqn:Hjson; [| discriminate].
    injection Hj as <-. apply Z.eqb_eq in H200. eauto.
Qed.

Section Run.
Variable net : Net.
Variable known : gset string.
Variable csv0 : list Row.
Variable tr0 : list Event.

Hypothesis known_nonempty : EmptyString ∉ known.

Let strict : Prop := faithful net.
Let Inv : World -> Prop := known_untouched strict known csv0 tr0.

Lemma known_post req max_retries :
  (forall details, req = BulkEnrich details -> Forall (fun id => id ∉ known) details) ->
  hoare Inv (post_with_backoff net req max_retries)
    (fun o w => Inv w /\
                forall j, o = Ok j ->
                          exists n r, net n req = Replied r /\ status_code r = 200
                                      /\ json r = Some j).
Proof.
  intros Hreq w [Htab Htr].
  destruct (post_with_backoff_effect net req max_retries w) as (Ht & He & Hj).
  split; [split |].
  - rewrite Ht. exact Htab.
  - intros details Hin. apply He in Hin as [Hin | [Heq | (q & Heq)]].
    + apply Htr, Hin.
    + right. apply Hreq. congruence.
    + discriminate Heq.
  - exact Hj.
Qed.

Lemma known_sleep q : hoare Inv (sleep q) (fun _ => Inv).
Proof.
  apply inv_pause. intros w [Htab Htr]. split; [exact Htab |].
  intros details [H | H]; [discriminate H | auto].
Qed.

Lemma known_search_page page : hoare Inv (search_page net page) (fun _ => Inv).
Proof.
  assert (Hpost : hoare Inv (post_with_backoff net (PeopleSearch page) default_max_retries)
                    (fun _ => Inv)).
  { eapply hoare_weaken; [apply known_post | auto | intros o w [H _]; exact H].
    intros details H. discriminate H. }
  unfold search_page. apply inv_try; [exact Hpost |].
  intros e. apply inv_bind; [apply known_sleep | intros _; exact Hpost].
Qed.

Lemma known_search_loop s pages page acc :
  Forall (fresh known) acc ->
  hoare Inv (search_loop net s known pages page acc)
    (fun o w => Inv w /\ match o with
                         | Ok all_people => Forall (fresh known) all_people
                         | Raised _ => True
                         end).
Proof.
  revert page acc. induction pages as [| pages IH]; intros page acc Hacc;
    cbn [search_loop].
  - apply hoare_ret. auto.
  - eapply hoare_bind; [apply known_search_page | auto |].
    intros resp. cbv beta.
    destruct (parse_people_from_search resp) as [| p people] eqn:Hp.
    + apply hoare_ret. auto.
    + apply (hoare_bind _ (fun o w => Inv w /\ o = keep_people known (p :: people) [])).
      * apply hoare_lift. auto.
      * intros e w [Hw _]. auto.
      * intros kept. apply hoare_assume. intros Hkept. symmetry in Hkept.
        apply inv_bind_then with (I := Inv); [apply known_sleep | auto |].
        intros _. apply IH. apply Forall_app. split; [exact Hacc |].
        apply (keep_people_fresh known (p :: people) [] kept Hkept). constructor.
Qed.

Lemma collect_rows_unknown details ms rows :
  Forall (fun id => id ∉ known) details ->
  (forall m, In m ms -> Py.truthy (person_id (row_of_match m)) = true ->
             In (Py.or_empty (person_id (row_of_match m))) details) ->
  Forall (unknown_row known) rows ->
  Forall (unknown_row known) (collect_rows ms rows).
Proof.
  intros Hd. revert rows. induction ms as [| m rest IH]; intros rows Hms Hrows;
    cbn [collect_rows]; [exact Hrows |].
  assert (Hrest : forall m', In m' rest ->
                    Py.truthy (person_id (row_of_match m')) = true ->
                    In (Py.or_empty (person_id (row_of_match m'))) details)
    by (intros m' Hin; apply Hms; right; exact Hin).
  destruct (is_excluded_company _); [apply IH; assumption |].
  destruct (is_excluded_title _); [apply IH; assumption |].
  apply IH; [exact Hrest |]. apply Forall_app. split; [exact Hrows |].
  constructor; [| constructor].
  intros id Hknown Hpid.
  assert (Hne : Py.truthy (Some id) = true).
  { destruct id; [contradiction (known_nonempty Hknown) | reflexivity]. }
  specialize (Hms m (or_introl eq_refl)). rewrite Hpid in Hms.
  specialize (Hms Hne).
  rewrite List.Forall_forall in Hd. apply (Hd _ Hms).
  destruct id; [discriminate | exact Hknown].
Qed.

Lemma known_write_rows rows :
  (strict -> Forall (unknown_row known) rows) ->
  hoare Inv (write_rows rows) (fun _ => Inv).
Proof.
  intros Hrows. unfold write_rows. destruct rows as [| r rows]; [inv_step |].
  apply hoare_modify. intros w [(new & Htab & Hnew) Htr]. split.
  - exists (new ++ r :: rows)%list. unfold table in *. cbn [output_csv].
    destruct (output_csv w) as [f |]; cbn [appended lines] in *.
    + rewrite Htab, <- app_assoc.
      split; [reflexivity | intros Hs; apply Forall_app; auto].
    + destruct csv0; [| discriminate Htab]. destruct new; [| discriminate Htab].
      split; [reflexivity | intros Hs; apply Forall_app; auto].
  - intros details [H | H]; [discriminate H | auto].
Qed.

Lemma known_enrich_loop s batches ids rows :
  Forall (Forall (fresh known)) batches ->
  (strict -> Forall (unknown_row known) rows) ->
  hoare Inv (enrich_loop net s batches ids rows) (fun _ => Inv).
Proof.
  revert ids rows.
  induction batches as [| batch rest IH]; intros ids rows Hb Hrows;
    cbn [enrich_loop]; [inv_step |].
  apply Forall_cons in Hb as [Hbatch Hrest].
  pose proof (details_of_fresh known batch Hbatch) as Hd.
  eapply hoare_bind; [apply known_post | intros e w [Hw _]; exact Hw |].
  { intros details [= <-]. exact Hd. }
  intros j. cbv beta. apply hoare_assume. intros Hj.
  destruct (Hj j eq_refl) as (n & r & Hreply & H200 & Hjson).
  match goal with
  | |- hoare _ (bind _ ?k) _ =>
      assert (Hcont : forall ms, matches j = AList ms \/ ms = [] ->
                                 hoare Inv (k ms) (fun _ => Inv))
  end.
  { intros ms Hms. cbv beta zeta.
    assert (Hcollected : strict -> Forall (unknown_row known) (collect_rows ms rows)).
    { intros Hnet.
      apply (collect_rows_unknown (details_of batch)); [exact Hd | | exact (Hrows Hnet)].
      intros m Hin Ht. destruct Hms as [Hmatches | ->]; [| destruct Hin].
      apply (Hnet n (details_of batch) r j ms m); assumption. }
    apply inv_bind; [apply known_write_rows, Hcollected | intros _].
    apply inv_bind; [apply known_sleep | intros _].
    apply IH; [exact Hrest | constructor]. }
  destruct (matches j) as [| l | | |] eqn:Hm.
  - apply hoare_bind_ret, Hcont. auto.
  - apply hoare_bind_ret, Hcont. auto.
  - apply hoare_bind_ret, Hcont. auto.
  - apply hoare_bind_raise. auto.
  - apply hoare_bind_raise. auto.
Qed.

Lemma known_main args :
  hoare (fun w => Inv w /\ load_existing_person_ids (output_csv w) = known)
        (main net args) (fun _ => Inv).
Proof.
  intros w [Hw Ht]. unfold main. unfold bind at 1, get. rewrite Ht.
  revert w Hw Ht.
  match goal with
  | |- forall w, Inv w -> _ -> Inv (snd (?c w)) =>
      enough (Hrun : hoare Inv c (fun _ => Inv)) by (intros w Hw _; apply Hrun, Hw)
  end.
  eapply hoare_bind; [apply known_search_loop; constructor
                     | intros e w [Hw _]; exact Hw |].
  intros all_people. cbv beta.
  destruct (dry_run args); [apply hoare_ret; intros w [Hw _]; exact Hw |].
  apply hoare_assume. intros Hall.
  apply inv_bind; [| intros _; inv_step].
  apply known_enrich_loop; [| constructor].
  apply List.Forall_forall. intros batch Hb.
  apply List.Forall_forall. intros p Hp.
  rewrite List.Forall_forall in Hall. apply Hall.
  eapply chunked_In; eassumption.
Qed.

End Run.

(** The output CSV stays one that can be read back. *)
Lemma readable_main net args :
  hoare (fun w => readable (output_csv w)) (main net args)
        (fun _ w => readable (output_csv w)).
Proof.
  set (I := fun w : World => readable (output_csv w)).
  assert (Hsleep : forall q, hoare I (sleep q) (fun _ => I))
    by (intros q; apply inv_pause; intros w Hw; exact Hw).
  assert (Hpost : forall req n, hoare I (post_with_backoff net req n) (fun _ => I)).
  { intros req n. unfold post_with_backoff. generalize 1. generalize (Z.to_nat n).
    intros a. induction a as [| a IH]; intros delay; cbn [post_attempts]; [inv_step |].
    apply inv_bind.
    - unfold requests_post. apply inv_bind; [inv_step | intros w0].
      apply inv_bind; [apply hoare_modify; intros w Hw; exact Hw | intros _].
      destruct (net (calls w0) req); inv_step.
    - intros r. repeat (solve [auto] || inv_step). }
  assert (Hpage : forall page, hoare I (search_page net page) (fun _ => I)).
  { intros page. unfold search_page. apply inv_try; [apply Hpost |].
    intros e. apply inv_bind; [apply Hsleep | intros _; apply Hpost]. }
  assert (Hsearch : forall s ids pages page acc,
             hoare I (search_loop net s ids pages page acc) (fun _ => I)).
  { intros s ids pages. induction pages as [| pages IH]; intros page acc;
      cbn [search_loop]; [inv_step |].
    apply inv_bind; [apply Hpage | intros resp].
    destruct (parse_people_from_search resp); [inv_step |].
    apply inv_bind; [inv_step | intros kept].
    apply inv_bind; [apply Hsleep | intros _; apply IH]. }
  assert (Hwrite : forall rows, hoare I (write_rows rows) (fun _ => I)).
  { intros rows. unfold write_rows. destruct rows as [| r rows]; [inv_step |].
    apply hoare_modify. intros w Hw f [= <-]. cbn [output_csv].
    unfold I, readable in Hw.
    destruct (output_csv w) as [g |]; cbn [appended headed]; [| reflexivity].
    apply Hw. reflexivity. }
  assert (Henrich : forall s batches ids rows,
             hoare I (enrich_loop net s batches ids rows) (fun _ => I)).
  { intros s batches. induction batches as [| batch rest IH]; intros ids rows;
      cbn [enrich_loop]; [inv_step |].
    apply inv_bind; [apply Hpost | intros j].
    apply inv_bind; [destruct (matches j); inv_step | intros ms].
    cbv zeta. apply inv_bind; [apply Hwrite | intros _].
    apply inv_bind; [apply Hsleep | intros _; apply IH]. }
  unfold main. apply inv_bind; [inv_step | intros w0]. cbv zeta.
  apply inv_bind; [apply Hsearch | intros all_people].
  destruct (dry_run args); [inv_step |].
  apply inv_bind; [apply Henrich | intros _; inv_step].
Qed.

(** X28. Re-running on a table. A run only appends to the output table.
    Every candidate whose identity the run has read back from the table at
    its start is dropped before enrichment: no enrichment request of the
    run carries such an identity. Hence, when every match returned by the
    enrichment service carries an identity that was requested, no row is
    appended for an identity that was read back. From a file that can be
    read back (it is absent, or it starts with the column names, as every
    file the program created does) the identities read back are those of
    all the rows of the table, and the file can still be read back after
    the run. *)
Theorem rerun_skips_known_identities net args w :
  let known := load_existing_person_ids (output_csv w) in
  let w' := snd (main net args w) in
  (exists new,
      table w' = (table w ++ new)%list /\
      (faithful net ->
       forall r id, In r new -> id ∈ known -> person_id r <> Some id)) /\
  (forall details,
      In (EvPost (BulkEnrich details)) (trace w') ->
      In (EvPost (BulkEnrich details)) (trace w)
      \/ forall id, In id details -> id ∉ known) /\
  (readable (output_csv w) ->
   readable (output_csv w') /\
   forall id, id ∈ known <->
              exists r, In r (table w) /\ Py.truthy (person_id r) = true
                        /\ Py.or_empty (person_id r) = id).
Proof.
  intros known w'.
  destruct (known_main net known (table w) (trace w)
              (load_existing_person_ids_nonempty (output_csv w)) args w)
    as [(new & Htab & Hnew) Htr].
  { split; [| reflexivity]. split.
    - exists []. rewrite app_nil_r. split; [reflexivity | constructor].
    - intros details Hin. left. exact Hin. }
  split; [| split].
  - exists new. split; [exact Htab |].
    intros Hnet r id Hin Hid. specialize (Hnew Hnet).
    rewrite List.Forall_forall in Hnew. apply (Hnew r Hin id Hid).
  - intros details Hin. destruct (Htr details Hin) as [H | H]; [left; exact H |].
    right. intros id Hid. rewrite List.Forall_forall in H. apply (H id Hid).
  - intros Hr. split; [apply (readable_main net args w Hr) |].
    intros id. unfold known. rewrite (load_existing_person_ids_readable _ Hr).
    apply person_ids_spec.
Qed.

Lemma shifting_pages_faithful : faithful shifting_pages.
Proof.
  intros n details r j ms m Hreply _ Hjson Hmatches Hin _.
  cbn in Hreply. injection Hreply as <-. cbn in Hjson. injection Hjson as <-.
  cbn in Hmatches. injection Hmatches as <-.
  apply in_map_iff in Hin as (id & <- & Hid).
  destruct id as [| c s]; exact Hid.
Qed.

(** A re-run on a table that holds "u2": the two copies of "u2" that the
    search returns are dropped, and rows are appended for "u1" and "u3"
    only. *)
Lemma rerun_skips_known_identities_witness :
  let w := start [known_row "u2"] in
  let w' := snd (main shifting_pages (mkArgs 50 false (2 # 5)) w) in
  List.map person_id (table w') = [Some "u2"; Some "u1"; Some "u3"] /\
  Forall (fun r => person_id r <> Some "u2") (skipn 1 (table w')) /\
  readable (output_csv w').
Proof.
  intros w w'.
  assert (Hr : readable (output_csv w)) by (intros f [= <-]; reflexivity).
  destruct (rerun_skips_known_identities shifting_pages (mkArgs 50 false (2 # 5)) w)
    as ((new & Htab & Hnew) & _ & Hread).
  destruct (Hread Hr) as [Hr' Hknown].
  fold w' in Htab, Hr'. split; [vm_compute; reflexivity |]. split; [| exact Hr'].
  rewrite Htab. change (table w) with [known_row "u2"]. cbn [app skipn].
  apply List.Forall_forall. intros r Hin.
  apply (Hnew shifting_pages_faithful r "u2" Hin).
  apply Hknown. exists (known_row "u2").
  repeat split. left. reflexivity.
Defined.

(** C4 fails on the code, within one run: the search shows "u2" on
    page 1 and again on page 2, neither copy is known when it is filtered
    (the identities kept so far are not looked at, and the set of known
    identities is updated only after the rows are written, where nothing
    reads it any more), the enrichment service answers each requested
    identity once, and two rows for "u2" are written to a table that was
    empty. It fails on a re-run as well when the output file existed,
    empty, before the first run: the rows are then written without the
    line of column names, the re-run takes the first row for that line and
    reads back no identity, and the row for "u1" is written again. *)
Lemma identity_written_twice :
  let args := mkArgs 50 false (2 # 5) in
  let w' := snd (main shifting_pages args (start [])) in
  let once : Net :=
    fun _ req =>
      match req with
      | PeopleSearch 1 => ok_body [person "u1" "Head of ERP" "Nordwind AG"]
      | PeopleSearch _ => ok_body []
      | BulkEnrich _ => shifting_pages 0%nat req
      end in
  let empty_file := mkWorld 0 [] (Some (mkFile false [])) (fun _ => None) in
  let first := snd (main once args empty_file) in
  let again := snd (main once args (mkWorld 0 [] (output_csv first) (fun _ => None))) in
  faithful shifting_pages /\
  List.map person_id (table w') = [Some "u1"; Some "u2"; Some "u2"; Some "u3"] /\
  ~ NoDup (List.map person_id (table w')) /\
  List.map person_id (table first) = [Some "u1"] /\
  load_existing_person_ids (output_csv first) = ∅ /\
  List.map person_id (table again) = [Some "u1"; Some "u1"].
Proof.
  cbv zeta. split; [exact shifting_pages_faithful |].
  assert (Hids : List.map person_id
                   (table (snd (main shifting_pages (mkArgs 50 false (2 # 5)) (start []))))
                 = [Some "u1"; Some "u2"; Some "u2"; Some "u3"])
    by (vm_compute; reflexivity).
  split; [exact Hids |]. split.
  - rewrite Hids. intros Hnd.
    apply NoDup_cons in Hnd as [_ Hnd]. apply NoDup_cons in Hnd as [Hnot _].
    apply Hnot. left.
  - split; [vm_compute; reflexivity |]. split; [| vm_compute; reflexivity].
    apply (bool_decide_unpack _). vm_compute. exact I.
Qed.

End KnownIdentities.

(** ** The daily quota *)

Section Quota.
Import Dispatch DispatchExamples.

Lemma count_where_nonneg f con : 0 <= count_where f con.
Proof. unfold count_where. lia. Qed.

Lemma count_where_app f (con1 con2 : Ledger) :
  count_where f (con1 ++ con2)%list = count_where f con1 + count_where f con2.
Proof. unfold count_where. rewrite List.filter_app, length_app. lia. Qed.

Lemma count_where_le f g con :
  (forall e, f e = true -> g e = true) -> count_where f con <= count_where g con.
Proof.
  intros Himp. unfold count_where. induction con as [| e con IH]; cbn; [lia |].
  destruct (f e) eqn:Hf.
  - rewrite (Himp e Hf). cbn. lia.
  - destruct (g e); cbn; lia.
Qed.

Lemma count_where_none f con :
  (forall e, In e con -> f e = false) -> count_where f con = 0.
Proof.
  intros Hnone. unfold count_where. induction con as [| e con IH]; cbn; [reflexivity |].
  rewrite (Hnone e) by (left; reflexivity).
  apply IH. intros e' He'. apply Hnone. right. exact He'.
Qed.

Lemma sent_on_le_count day con : sent_on day con <= sent_count_today con day.
Proof.
  apply count_where_le. intros e He. apply andb_prop in He as [H _]. exact H.
Qed.

Lemma count_zero_before day con :
  (forall e, In e con -> (send_date e < day)%N) -> sent_count_today con day = 0.
Proof.
  intros Hlt. apply count_where_none. intros e He. apply N.eqb_neq.
  specialize (Hlt e He). lia.
Qed.

End Quota.

Section QuotaCalendar.
Import Dispatch DispatchExamples.

Variable env : Env.
Hypothesis calendar : steady_calendar env.

Lemma today_mono w w' : (now w <= now w')%N -> (today env w <= today env w')%N.
Proof. unfold today. apply (proj1 calendar). Qed.

Lemma today_next_day w w' :
  (now w + 86500 <= now w')%N -> (today env w < today env w')%N.
Proof. unfold today. apply (proj2 calendar). Qed.

Lemma quota_kept_later limit w w' :
  quota_kept env limit w -> later w w' -> quota_kept env limit w'.
Proof.
  intros [Hq Hf] [Hcon Hnow]. split.
  - rewrite Hcon. exact Hq.
  - intros e He. rewrite Hcon in He. specialize (Hf e He).
    pose proof (today_mono w w' Hnow). lia.
Qed.

Lemma has_room_later limit w w' :
  has_room env limit w -> later w w' -> has_room env limit w'.
Proof.
  intros [Hk Hroom] Hl. split; [eapply quota_kept_later; eassumption |].
  destruct Hk as [_ Hf]. destruct Hl as [Hcon Hnow]. rewrite Hcon.
  pose proof (today_mono w w' Hnow) as Hmono.
  destruct (N.eq_dec (today env w') (today env w)) as [-> | Hne]; [exact Hroom |].
  rewrite count_zero_before.
  - pose proof (count_where_nonneg (fun e => (send_date e =? today env w)%N) (con w)).
    unfold sent_count_today in Hroom. lia.
  - intros e He. specialize (Hf e He). lia.
Qed.

Lemma has_room_next_day limit w w' :
  quota_kept env limit w -> 1 <= limit ->
  con w' = con w -> (now w + 86500 <= now w')%N ->
  has_room env limit w'.
Proof.
  intros Hk Hlimit Hcon Hnow. split.
  - apply (quota_kept_later limit w w' Hk). split; [exact Hcon | lia].
  - rewrite Hcon, count_zero_before; [lia |].
    intros e He. destruct Hk as [_ Hf]. specialize (Hf e He).
    pose proof (today_next_day w w' Hnow). lia.
Qed.

Lemma has_room_insert limit w email person_id company subject status :
  has_room env limit w ->
  quota_kept env limit
    (set_con (insert_or_ignore (con w)
                (mkEntry (today env w) (now w) email person_id company subject status)) w).
Proof.
  intros [[Hq Hf] Hroom].
  destruct (insert_or_ignore_cases (con w)
              (mkEntry (today env w) (now w) email person_id company subject status))
    as [[_ ->] | [_ ->]].
  - split; [exact Hq | exact Hf].
  - split.
    + intros day. cbn [con set_con]. unfold sent_on. rewrite count_where_app.
      fold (sent_on day (con w)). unfold count_where at 1.
      cbn [List.filter send_date e_status].
      specialize (Hq day).
      destruct (N.eqb_spec (today env w) day) as [<- | Hne]; cbn [andb].
      * pose proof (sent_on_le_count (today env w) (con w)).
        destruct (String.eqb status "sent"); cbn [length]; lia.
      * cbn [length]. lia.
    + intros e He. cbn [con set_con] in He.
      apply in_app_or in He as [He | [<- | []]].
      * apply (Hf e He).
      * cbn [send_date]. unfold today. cbn [now set_con]. lia.
Qed.

End QuotaCalendar.


Section QuotaRun.
Import Dispatch DispatchExamples.

Variable env : Env.

(** A property that survives the passing of time, the ledger unchanged. *)
Variable I : World -> Prop.
Hypothesis I_later : forall w w', I w -> later w w' -> I w'.

Lemma later_sleep n : hoare I (sleep env n) (fun _ => I).
Proof.
  apply inv_sleep. intros w Hw. apply (I_later w _ Hw). split; cbn; [reflexivity | lia].
Qed.

Lemma later_token : hoare I (get_access_token env) (fun _ => I).
Proof.
  intros w Hw. unfold get_access_token. eff.
  destruct (get_access_token_nth env (token_requests w));
    apply (I_later w _ Hw); split; cbn; (reflexivity || lia).
Qed.

Lemma later_send payload : hoare I (graph_post_sendmail env payload) (fun _ => I).
Proof.
  intros w Hw. unfold graph_post_sendmail. eff.
  destruct (graph_nth env (sends w));
    apply (I_later w _ Hw); split; cbn; (reflexivity || lia).
Qed.

Lemma later_notify msg : hoare I (send_notification_custom msg) (fun _ => I).
Proof.
  intros w Hw. unfold send_notification_custom. eff.
  destruct (match last_sent_message w with
            | Some m => String.eqb msg m
            | None => false
            end); [exact Hw |].
  apply (I_later w _ Hw). split; cbn; (reflexivity || lia).
Qed.

Lemma later_build_message r : hoare I (build_message env r) (fun _ => I).
Proof.
  eapply hoare_weaken; [apply (build_message_spec env I) | auto |].
  intros o w [Hw _]. exact Hw.
Qed.

End QuotaRun.

Section QuotaInvariant.
Import Dispatch DispatchExamples.

Variable env : Env.
Hypothesis calendar : steady_calendar env.

Let limit : Z := DAILY_LIMIT env.
Let Room : World -> Prop := has_room env limit.
Let Kept : World -> Prop := quota_kept env limit.

(** After a step that is the last ledger write of an attempt: the quota
    is kept if the step returns, and there is still room if it raises. *)
Let Done : outcome exn unit -> World -> Prop :=
  fun o w => match o with
             | Ok _ => Kept w
             | Raised _ => Room w
             end.

Lemma Room_later w w' : Room w -> later w w' -> Room w'.
Proof. apply has_room_later, calendar. Qed.

Lemma Kept_later w w' : Kept w -> later w w' -> Kept w'.
Proof. apply quota_kept_later, calendar. Qed.

Lemma quota_mark_sent email person_id company subject status :
  hoare Room (mark_sent env email person_id company subject status) Done.
Proof. apply hoare_modify. intros w Hw. apply has_room_insert, Hw. Qed.

Lemma quota_mark_sent_count email person_id company subject status :
  hoare Room
    (bind (mark_sent env email person_id company subject status)
          (fun _ => count_sent_now))
    Done.
Proof.
  apply (hoare_bind _ (fun o w => Kept w /\ o = Ok tt)).
  - apply hoare_modify. intros w Hw. split; [apply has_room_insert, Hw | reflexivity].
  - intros e w [_ H]. discriminate H.
  - intros []. apply hoare_assume. intros _.
    apply hoare_modify. intros w Hw. apply (Kept_later w _ Hw).
    split; cbn; [reflexivity | lia].
Qed.

Lemma quota_attempt payload email person_id company subject :
  hoare Room (attempt env payload email person_id company subject) Done.
Proof.
  pose proof (later_send env Room Room_later payload) as Hsend.
  pose proof (later_token env Room Room_later) as Htoken.
  assert (Hexn : forall (e : exn) w, Room w -> Done (Raised e) w) by auto.
  unfold attempt.
  apply inv_bind_then with (I := Room); [exact Hsend | exact Hexn | intros resp].
  apply inv_bind_then with (I := Room); [| exact Hexn | intros resp'].
  { destruct (status_code resp =? 401); [| inv_step].
    apply inv_bind; [exact Htoken | intros _; exact Hsend]. }
  destruct (is_success (status_code resp')); [apply quota_mark_sent_count |].
  destruct (status_code resp' =? 429); [| apply quota_mark_sent].
  apply inv_bind_then with (I := Room); [inv_step | exact Hexn | intros sleep_s].
  apply inv_bind_then with (I := Room);
    [apply (later_sleep env Room Room_later) | exact Hexn | intros _].
  apply inv_bind_then with (I := Room); [exact Hsend | exact Hexn | intros resp2].
  destruct (is_success (status_code resp2));
    [apply quota_mark_sent_count | apply quota_mark_sent].
Qed.

Lemma quota_loop_body r :
  1 <= limit -> hoare Kept (loop_body env r) (fun _ => Kept).
Proof.
  intros Hlimit. unfold loop_body.
  (* the quota check: there is room afterwards, at once or the next day *)
  apply (hoare_bind _ (fun o w => Kept w /\ o = Ok w)).
  { apply hoare_get. auto. }
  { intros e w [Hw _]. exact Hw. }
  intros w0.
  apply (hoare_bind _ (fun _ => Room)).
  { intros w [Hw [= ->]].
    destruct (sent_count_today (con w) (today env w) >=? DAILY_LIMIT env) eqn:Hfull.
    - rewrite sleep_short by reflexivity.
      apply (has_room_next_day env calendar limit w); cbn;
        [exact Hw | exact Hlimit | reflexivity | lia].
    - split; [exact Hw |]. rewrite Z.geb_leb in Hfull. apply Z.leb_gt in Hfull.
      exact Hfull. }
  { intros e w Hw. apply Hw. }
  intros _. cbv zeta.
  apply inv_bind_then with (I := Room); [inv_step | intros e w Hw; apply Hw | intros w1].
  match goal with |- hoare _ (if ?b then _ else _) _ => destruct b end.
  { apply hoare_ret. intros w Hw. apply Hw. }
  apply inv_bind_then with (I := Room);
    [apply (later_build_message env Room) | intros e w Hw; apply Hw
    | intros payload].
  cbv zeta.
  apply (hoare_bind _ (fun _ => Kept));
    [| auto | intros _; apply (later_sleep env Kept Kept_later)].
  apply (hoare_try _ Done).
  - apply quota_attempt.
  - auto.
  - intros e. eapply hoare_weaken; [apply quota_mark_sent | auto |].
    intros [[] | e'] w Hw; [exact Hw | apply Hw].
Qed.

Lemma quota_dispatch_loop df :
  1 <= limit -> hoare Kept (dispatch_loop env df) (fun _ => Kept).
Proof.
  intros Hlimit. induction df as [| r rest IH]; cbn [dispatch_loop].
  - inv_step.
  - apply inv_bind; [apply quota_loop_body, Hlimit | intros _; exact IH].
Qed.

Lemma quota_main : hoare Kept (main env) (fun _ => Kept).
Proof.
  intros w Hw. unfold main. unfold bind at 1, get.
  destruct (sent_count_today (con w) (today env w) >=? DAILY_LIMIT env) eqn:Hfull;
    [exact Hw |].
  assert (Hlimit : 1 <= limit).
  { rewrite Z.geb_leb in Hfull. apply Z.leb_gt in Hfull.
    pose proof (count_where_nonneg (fun e => (send_date e =? today env w)%N) (con w)).
    unfold sent_count_today in Hfull. unfold limit. lia. }
  revert w Hw Hfull.
  match goal with
  | |- forall w, Kept w -> _ -> Kept (snd (?c w)) =>
      enough (Hrun : hoare Kept c (fun _ => Kept)) by (intros w Hw _; apply Hrun, Hw)
  end.
  apply inv_bind; [apply (later_token env Kept Kept_later) | intros _].
  apply inv_bind; [| intros _].
  { apply hoare_modify. intros w Hw. apply (Kept_later w _ Hw).
    split; cbn; [reflexivity | lia]. }
  apply inv_bind; [apply quota_dispatch_loop, Hlimit | intros _].
  apply inv_bind; [inv_step | intros w1].
  apply (later_notify Kept Kept_later).
Qed.

End QuotaInvariant.

Section QuotaOfTheDay.
Import Dispatch DispatchExamples.

Lemma count_where_le_length f con : count_where f con <= Z.of_nat (length con).
Proof.
  unfold count_where. pose proof (List.filter_length_le f con). lia.
Qed.

Lemma utc_steady limit leads sort graph :
  steady_calendar (env_of limit leads sort graph).
Proof.
  split; cbn [local_date env_of]; unfold utc; intros t t' H.
  - apply N.Div0.div_le_mono, H.
  - assert (Hstep : (t / 86400 + 1 = (t + 86400) / 86400)%N).
    { replace (t + 86400)%N with (t + 1 * 86400)%N by lia.
      rewrite N.div_add by lia. reflexivity. }
    assert (Hle : ((t + 86400) / 86400 <= t' / 86400)%N)
      by (apply N.Div0.div_le_mono; lia).
    lia.
Qed.

(** X20. Where the calendar never goes back and every date lasts less
    than 86500 seconds, a run of [main] started on a ledger that is within
    the daily quota on every day and holds no row dated after the current
    day leaves it so: on no day are there more rows with status "sent"
    than the quota. The loop writes a row only after it has found the
    count of the current day below the quota, or after it has slept 86500
    seconds into a later day. If the quota is already reached when [main]
    starts, it returns at once: no candidate is processed and nothing
    changes. *)
Theorem daily_quota_kept (env : Env) (w : World) :
  steady_calendar env ->
  within_quota (DAILY_LIMIT env) (con w) ->
  no_future env w ->
  within_quota (DAILY_LIMIT env) (con (snd (main env w))) /\
  (DAILY_LIMIT env <= sent_count_today (con w) (today env w) ->
   main env w = (Ok tt, w)) /\
  (forall df, 1 <= DAILY_LIMIT env ->
              within_quota (DAILY_LIMIT env) (con (snd (dispatch_loop env df w)))).
Proof.
  intros Hcal Hq Hf. split; [| split].
  - apply (quota_main env Hcal w). split; assumption.
  - intros Hfull. unfold main. unfold bind at 1, get.
    apply Z.geb_le in Hfull. rewrite Hfull. reflexivity.
  - intros df Hlimit. apply (quota_dispatch_loop env Hcal df Hlimit w). split; assumption.
Qed.

(** The scenario of the specification: quota 5, five rows "sent" today. *)
Lemma daily_quota_kept_witness :
  let env := env_of 5 [ann; bob; cid] stable_sort accepting in
  let w := start 600 five_sent in
  sent_count_today (con w) (today env w) = 5 /\
  main env w = (Ok tt, w) /\
  within_quota 5 (con (snd (main env w))).
Proof.
  intros env w.
  assert (Hq : within_quota (DAILY_LIMIT env) (con w)).
  { intros day. etransitivity; [apply count_where_le_length |]. cbn. lia. }
  assert (Hf : no_future env w).
  { intros e He. cbn in He.
    repeat (destruct He as [<- | He]; [cbn; lia |]). destruct He. }
  destruct (daily_quota_kept env w (utc_steady _ _ _ _) Hq Hf) as (Hkept & Hstop & _).
  split; [reflexivity |]. split; [| exact Hkept].
  apply Hstop. vm_compute. discriminate.
Defined.

(** C3 fails on the code. The quota is 1 and the sheet has two
    candidates; the run starts at midnight of the day on which summer time
    ends, which lasts 25 hours. Ann's message is accepted; for Bob the loop
    finds the count of the day at the quota and sleeps 86500 seconds, which
    end on the same date; it does not look at the count again, sends, and
    logs a second row "sent" for that date. *)
Theorem quota_exceeded_on_long_day :
  let env := mkEnv 1 [ann; bob] None (Some "iVBORw0KGgo=") stable_sort
                   (fun _ => inl "token") accepting long_first_day (fun _ _ => None) in
  let w := start 0 [] in
  let w' := snd (main env w) in
  DAILY_LIMIT env = 1 /\
  within_quota (DAILY_LIMIT env) (con w) /\
  (forall t, (t < 90000)%N -> local_date env t = 0%N) /\
  local_date env 90000 = 1%N /\
  fst (main env w) = Ok tt /\
  List.map (fun e => (e_email e, e_status e, send_date e, sent_at e)) (con w')
    = [ ("ann@acme.example", "sent", 0%N, 1%N);
        ("bob@acme.example", "sent", 0%N, 86682%N) ] /\
  sent_on 0 (con w') = 2 /\
  ~ within_quota (DAILY_LIMIT env) (con w') /\
  List.map (fun e => match e with
                     | EvSend _ p => to_address p
                     | EvSleep n => pretty n
                     | EvNotify m => m
                     end) (rev (trace w'))
    = [ "ann@acme.example"; "180"; "86500"; "bob@acme.example"; "180";
        "[done] Sent 2 emails, time to refuel the list boss" ].
Proof.
  cbv zeta. split; [reflexivity |]. split; [intros day; vm_compute; discriminate |].
  split.
  { intros t Ht. cbn [local_date]. unfold long_first_day.
    apply N.ltb_lt in Ht. rewrite Ht. reflexivity. }
  split; [reflexivity |]. split; [vm_compute; reflexivity |].
  split; [vm_compute; reflexivity |].
  assert (Hsent : sent_on 0
            (con (snd (main (mkEnv 1 [ann; bob] None (Some "iVBORw0KGgo=") stable_sort
                               (fun _ => inl "token") accepting long_first_day
                               (fun _ _ => None))
                            (start 0 [])))) = 2)
    by (vm_compute; reflexivity).
  split; [exact Hsent |]. split; [| vm_compute; reflexivity].
  intros Hq. specialize (Hq 0%N). rewrite Hsent in Hq. cbn in Hq. lia.
Qed.

End QuotaOfTheDay.

(** ** The per-company cap *)

Section CompanyCap.
Import Dispatch DispatchExamples.

(** The count that guards the cap compares the email column with the
    company name, so under the unique index it never exceeds one and the
    guard [>= 2] never fires. *)
Lemma customer_count_at_most_one con day company :
  unique_keys con -> customer_count_today con day company <= 1.
Proof.
  intros Hu. pose proof (unique_keys_at_most_one con company day Hu) as Hone.
  unfold customer_count_today, count_where. unfold entries_for in Hone.
  replace (List.filter
             (fun e => (send_date e =? day)%N && String.eqb (e_email e) company) con)
    with (List.filter
            (fun e => String.eqb (e_email e) company && (send_date e =? day)%N) con).
  - lia.
  - apply List.filter_ext. intros e. apply andb_comm.
Qed.

(** C1 fails on the code: three leads of the company "Acme", every send
    accepted. The run logs three rows "sent" for "Acme" on one day, above
    the cap of two, and skips nobody. *)
Theorem company_cap_exceeded :
  let env := env_of 50 [ann; bob; cid] stable_sort accepting in
  let w' := snd (main env (start 0 [])) in
  MAX_PER_COMPANY_PER_DAY = 2 /\
  List.map (fun e => (e_email e, e_company e, e_status e, send_date e)) (con w')
    = [ ("ann@acme.example", "Acme", "sent", 0%N);
        ("bob@acme.example", "Acme", "sent", 0%N);
        ("cid@acme.example", "Acme", "sent", 0%N) ] /\
  company_count_today (con w') 0 "Acme" = 3 /\
  customer_count_today (con w') 0 "Acme" = 0.
Proof.
  cbv zeta. repeat split; vm_compute; reflexivity.
Qed.

End CompanyCap.

(** ** One candidate of the dispatch loop *)

Section LoopBody.
Import Dispatch DispatchShape.

Lemma cap_guard_never_fires con day company :
  unique_keys con ->
  (customer_count_today con day company >=? MAX_PER_COMPANY_PER_DAY) = false.
Proof.
  intros Hu. rewrite Z.geb_leb. apply Z.leb_gt.
  pose proof (customer_count_at_most_one con day company Hu).
  unfold MAX_PER_COMPANY_PER_DAY. lia.
Qed.

(** Under unique ledger keys the guard of the per-company cap lets every
    candidate through: the body of the loop is the quota check, then the
    message, the attempt and the pause. *)
Lemma loop_body_unfold env r w :
  unique_keys (con w) ->
  loop_body env r w
  = (let* payload := build_message env r in
     let* _ := try_except
                 (attempt env payload (email r)
                    (Py.strip (str (l_person_id (lead r))))
                    (Py.strip (str (l_organization_name (lead r))))
                    (subject payload))
                 (fun e => mark_sent env (email r)
                             (Py.strip (str (l_person_id (lead r))))
                             (Py.strip (str (l_organization_name (lead r))))
                             (subject payload) ("exception:" ++ exn_text e)) in
     sleep env SLEEP_BETWEEN_SENDS_SEC)%eff (after_quota_check env w).
Proof.
  intros Hu. unfold loop_body, after_quota_check.
  unfold bind at 1, get. unfold bind at 1.
  destruct (sent_count_today (con w) (today env w) >=? DAILY_LIMIT env).
  - rewrite sleep_short by reflexivity. unfold bind at 1, get.
    cbn [con slept]. rewrite cap_guard_never_fires by exact Hu.
    rewrite andb_false_r. reflexivity.
  - unfold ret at 1. unfold bind at 1, get.
    rewrite cap_guard_never_fires by exact Hu. rewrite andb_false_r. reflexivity.
Qed.

Lemma success_not_401 status : is_success status = true -> (status =? 401) = false.
Proof.
  unfold is_success. intros H. apply orb_prop in H as [H | H];
    apply Z.eqb_eq in H; subst status; reflexivity.
Qed.

Lemma build_message_to env r w p w' :
  build_message env r w = (Ok p, w') -> to_address p = email r.
Proof.
  unfold build_message. eff.
  destruct (cell_strip (l_first_name (lead r))); [| discriminate].
  destruct (cell_strip (l_organization_name (lead r))); [| discriminate].
  destruct (logo_file env); [| discriminate].
  intros [= <- _]. reflexivity.
Qed.

(** With the quota not reached and the message built, the body of the
    loop is the attempt, its handler, and the pause. *)
Lemma loop_body_continues env r w payload o w1 :
  unique_keys (con w) ->
  sent_count_today (con w) (today env w) < DAILY_LIMIT env ->
  build_message env r w = (Ok payload, w) ->
  try_except
    (attempt env payload (email r) (Py.strip (str (l_person_id (lead r))))
       (Py.strip (str (l_organization_name (lead r)))) (subject payload))
    (fun e => mark_sent env (email r) (Py.strip (str (l_person_id (lead r))))
                (Py.strip (str (l_organization_name (lead r)))) (subject payload)
                ("exception:" ++ exn_text e)) w = (o, w1) ->
  loop_body env r w
  = match o with
    | Ok _ => (Ok tt, slept SLEEP_BETWEEN_SENDS_SEC w1)
    | Raised e => (Raised e, w1)
    end.
Proof.
  intros Hu Hquota Hbuild Htry.
  assert (Hq : (sent_count_today (con w) (today env w) >=? DAILY_LIMIT env) = false)
    by (rewrite Z.geb_leb; apply Z.leb_gt; exact Hquota).
  rewrite (loop_body_unfold env r w Hu). unfold after_quota_check. rewrite Hq.
  unfold bind at 1. rewrite Hbuild. unfold bind at 1. rewrite Htry.
  destruct o; [apply sleep_short | reflexivity]. reflexivity.
Qed.




End LoopBody.

(** ** Throttling by the mail service *)

Section Throttling.
Import Dispatch DispatchShape DispatchExamples.

Lemma slice_to_length n s : (String.length (Py.slice_to n s) <= n)%nat.
Proof.
  revert s. induction n as [| n IH]; intros s; [destruct s; cbn; lia |].
  destruct s as [| c s]; cbn; [lia |]. specialize (IH s). lia.
Qed.













End Throttling.

(** * Further properties of app.py *)

(** ** Batches *)

Section Chunks.
Import Collect.

(** The list comprehension of [chunked], read as a recursion: the first
    [n] elements, then the chunks of the rest. *)
Lemma chunked_unfold {A} (lst : list A) (n : nat) :
  (0 < n)%nat ->
  chunked lst n = match lst with
                  | [] => []
                  | _ => firstn n lst :: chunked (skipn n lst) n
                  end.
Proof.
  intros Hn. unfold chunked. destruct lst as [| a lst].
  - cbn [length]. rewrite Nat.div_small by lia. reflexivity.
  - set (l := a :: lst).
    assert (HL : (1 <= length l)%nat) by (cbn; lia).
    assert (Hcount : ((length l + n - 1) / n
                      = S ((length (skipn n l) + n - 1) / n))%nat).
    { rewrite length_skipn.
      destruct (Nat.le_gt_cases (length l) n) as [Hle | Hgt].
      - replace (length l - n)%nat with 0%nat by lia.
        replace ((0 + n - 1) / n)%nat with 0%nat
          by (symmetry; apply Nat.div_small; lia).
        symmetry. apply (Nat.div_unique _ _ _ (length l - 1)); lia.
      - replace (length l + n - 1)%nat with ((length l - n + n - 1) + 1 * n)%nat by lia.
        rewrite Nat.div_add by lia. lia. }
    rewrite Hcount. cbn [seq List.map]. rewrite Nat.mul_0_l. cbn [skipn].
    f_equal. rewrite <- seq_shift, List.map_map.
    apply List.map_ext. intros k. rewrite skipn_skipn. do 2 f_equal. lia.
Qed.

Lemma chunked_lengths {A} (lst : list A) (n : nat) :
  (0 < n)%nat -> Forall (fun c => (1 <= length c <= n)%nat) (chunked lst n).
Proof.
  intros Hn. remember (length lst) as m eqn:Hm. revert lst Hm.
  induction m as [m IH] using lt_wf_ind. intros lst ->.
  rewrite chunked_unfold by exact Hn. destruct lst as [| a lst]; [constructor |].
  constructor.
  - rewrite length_firstn. cbn [length]. lia.
  - apply (IH (length (skipn n (a :: lst)))); [| reflexivity].
    rewrite length_skipn. cbn [length]. lia.
Qed.

(** X1. For a positive size, the chunks put end to end give the list
    back, no chunk is empty or longer than the size, and every chunk but
    the last has exactly the size. *)
Theorem chunked_partition {A} (lst : list A) (n : nat) :
  (0 < n)%nat ->
  concat (chunked lst n) = lst /\
  Forall (fun c => (1 <= length c <= n)%nat) (chunked lst n) /\
  Forall (fun c => length c = n) (removelast (chunked lst n)).
Proof.
  intros Hn. remember (length lst) as m eqn:Hm. revert lst Hm.
  induction m as [m IH] using lt_wf_ind. intros lst ->.
  rewrite chunked_unfold by exact Hn. destruct lst as [| a lst].
  - repeat split; constructor.
  - set (l := a :: lst).
    assert (Hshort : (length (skipn n l) < length l)%nat)
      by (rewrite length_skipn; cbn; lia).
    destruct (IH _ Hshort (skipn n l) eq_refl) as (Hcat & Hlen & Hfull).
    split; [| split].
    + cbn [concat]. rewrite Hcat. apply firstn_skipn.
    + constructor; [| exact Hlen]. rewrite length_firstn. cbn [l length]. lia.
    + cbn [removelast]. destruct (chunked (skipn n l) n) as [| c cs] eqn:Hrest;
        [constructor |].
      constructor; [| exact Hfull].
      rewrite length_firstn.
      destruct (skipn n l) as [| b rest'] eqn:Hskip.
      * rewrite chunked_unfold in Hrest by exact Hn. discriminate Hrest.
      * assert (length (skipn n l) = S (length rest')) by (rewrite Hskip; reflexivity).
        rewrite length_skipn in *. lia.
Qed.

Lemma chunked_partition_witness :
  concat (chunked (seq 1 23) 10) = seq 1 23 /\
  List.map (@length nat) (chunked (seq 1 23) 10) = [10; 10; 3]%nat.
Proof.
  destruct (chunked_partition (seq 1 23) 10) as (Hcat & _ & _); [lia |].
  split; [exact Hcat | reflexivity].
Defined.

End Chunks.

(** ** The shape of a collection run *)

Section CollectRun.
Import Collect CollectShape.

Variable net : Net.
Variable cap : Z.
Variable dry : bool.
Variable csv0 : list Row.
Variable tr0 : list Event.

Let Inv : World -> Prop := run_shape cap dry csv0 tr0.

Lemma shape_start w : run_shape cap dry (table w) (trace w) w.
Proof.
  split.
  - exists []. split; [reflexivity | constructor].
  - exists []. rewrite app_nil_r. split; [reflexivity |]. split; [constructor | reflexivity].
Qed.

Lemma shape_emit e : event_ok cap dry e -> hoare Inv (emit e) (fun _ => Inv).
Proof.
  intros He. apply hoare_modify. intros w [(done & Htr & Hdone) Htab].
  split; [| exact Htab].
  exists (e :: done). cbn. rewrite Htr. split; [reflexivity | constructor; assumption].
Qed.

Lemma shape_sleep q : hoare Inv (sleep q) (fun _ => Inv).
Proof. apply inv_pause. intros w Hw. exact (shape_emit (EvSleep q) I w Hw). Qed.

Lemma shape_requests_post req :
  event_ok cap dry (EvPost req) -> hoare Inv (requests_post net req) (fun _ => Inv).
Proof.
  intros He w [(done & Htr & Hdone) Htab]. unfold requests_post. eff.
  assert (Hnext : Inv (mkWorld (S (calls w)) (EvPost req :: trace w) (output_csv w)
                               (long_sleep w))).
  { split; [| exact Htab]. exists (EvPost req :: done). cbn. rewrite Htr.
    split; [reflexivity | constructor; assumption]. }
  destruct (net (calls w) req); exact Hnext.
Qed.

Lemma shape_post_attempts req attempts delay :
  event_ok cap dry (EvPost req) ->
  hoare Inv (post_attempts net req attempts delay) (fun _ => Inv).
Proof.
  intros He. revert delay. induction attempts as [| a IH]; intros delay;
    cbn [post_attempts]; [inv_step |].
  apply inv_bind; [apply shape_requests_post, He | intros r].
  destruct (status_code r =? 200); [destruct (json r); inv_step |].
  destruct (retryable (status_code r)); [| inv_step].
  apply inv_bind; [apply shape_sleep | intros _; apply IH].
Qed.

Lemma shape_search_page page :
  1 <= page <= cap -> hoare Inv (search_page net page) (fun _ => Inv).
Proof.
  intros Hp. unfold search_page, post_with_backoff.
  apply inv_try; [apply shape_post_attempts, Hp | intros e].
  apply inv_bind; [apply shape_sleep | intros _; apply shape_post_attempts, Hp].
Qed.

Lemma keep_people_identity ids people kept out :
  keep_people ids people kept = Ok out ->
  Forall has_identity kept -> Forall has_identity out.
Proof.
  revert kept. induction people as [| p rest IH]; intros kept; cbn [keep_people].
  - intros [= <-]. auto.
  - destruct (Py.truthy (get_person_id p)) eqn:Hid; cbn [negb]; [| apply IH].
    destruct (bool_decide (Py.or_empty (get_person_id p) ∈ ids)); [apply IH |].
    destruct (org_name_of p) as [o | e]; [| discriminate].
    destruct (is_excluded_title _); [apply IH |].
    destruct (is_excluded_company _); [apply IH |].
    intros Hrun Hkept. apply (IH _ Hrun).
    apply Forall_app. split; [exact Hkept |]. constructor; [exact Hid | constructor].
Qed.

Lemma shape_search_loop s ids pages page acc :
  1 <= page ->
  (forall p, page <= p < page + Z.of_nat pages -> p <= cap) ->
  Forall has_identity acc ->
  hoare Inv (search_loop net s ids pages page acc)
    (fun o w => Inv w /\ match o with
                         | Ok all_people => Forall has_identity all_people
                         | Raised _ => True
                         end).
Proof.
  revert page acc. induction pages as [| pages IH]; intros page acc Hlo Hhi Hacc;
    cbn [search_loop].
  - apply hoare_ret. auto.
  - eapply hoare_bind; [apply shape_search_page | auto |].
    { split; [exact Hlo | apply Hhi; lia]. }
    intros resp. cbv beta.
    destruct (parse_people_from_search resp) as [| p people] eqn:Hp.
    + apply hoare_ret. auto.
    + apply (hoare_bind _ (fun o w => Inv w /\ o = keep_people ids (p :: people) [])).
      * apply hoare_lift. auto.
      * intros e w [Hw _]. auto.
      * intros kept. apply hoare_assume. intros Hkept. symmetry in Hkept.
        apply inv_bind_then with (I := Inv); [apply shape_sleep | auto |].
        intros _. apply IH; [lia | intros q Hq; apply Hhi; lia |].
        apply Forall_app. split; [exact Hacc |].
        apply (keep_people_identity ids (p :: people) [] kept Hkept). constructor.
Qed.

Lemma collect_rows_clean ms rows :
  Forall clean_row rows -> Forall clean_row (collect_rows ms rows).
Proof.
  revert rows. induction ms as [| m rest IH]; intros rows Hrows; cbn [collect_rows];
    [exact Hrows |].
  destruct (is_excluded_company _) eqn:Hc; [apply IH, Hrows |].
  destruct (is_excluded_title _) eqn:Ht; [apply IH, Hrows |].
  apply IH. apply Forall_app. split; [exact Hrows |].
  constructor; [split; assumption | constructor].
Qed.

Lemma shape_write_rows rows :
  dry = false -> Forall clean_row rows -> hoare Inv (write_rows rows) (fun _ => Inv).
Proof.
  intros Hdry Hrows. unfold write_rows. destruct rows as [| r rows]; [inv_step |].
  apply hoare_modify. intros w [(done & Htr & Hdone) (rows0 & Htab & Hclean & Hnone)].
  split.
  - exists (EvWrite (r :: rows) :: done). cbn. rewrite Htr. split; [reflexivity |].
    constructor; [| exact Hdone]. cbn. split; [exact Hdry |]. split; [discriminate | exact Hrows].
  - exists (rows0 ++ r :: rows)%list. rewrite table_appended.
    fold (table w). rewrite Htab, <- app_assoc.
    split; [reflexivity |]. split; [apply Forall_app; auto | congruence].
Qed.

Lemma details_of_identities batch :
  Forall has_identity batch ->
  length (details_of batch) = length batch /\
  Forall (fun id => id <> EmptyString) (details_of batch).
Proof.
  unfold details_of. induction 1 as [| p batch Hp _ [IHlen IHids]]; [split; constructor |].
  cbn [omap list_omap]. unfold has_identity in Hp. rewrite Hp. cbn [length]. split.
  - rewrite IHlen. reflexivity.
  - constructor; [| exact IHids].
    destruct (get_person_id p) as [[| c s] |]; cbn in *; congruence.
Qed.

Lemma shape_enrich_loop s batches ids :
  dry = false ->
  Forall (fun b => (1 <= length b <= 10)%nat /\ Forall has_identity b) batches ->
  hoare Inv (enrich_loop net s batches ids []) (fun _ => Inv).
Proof.
  intros Hdry. revert ids.
  induction batches as [| batch rest IH]; intros ids Hb; cbn [enrich_loop]; [inv_step |].
  apply Forall_cons in Hb as [[Hlen Hids] Hrest].
  destruct (details_of_identities batch Hids) as [Hdl Hdi].
  apply inv_bind.
  { apply shape_post_attempts. cbn. rewrite Hdl. auto. }
  intros j. apply inv_bind; [destruct (matches j); inv_step | intros ms].
  cbv zeta.
  apply inv_bind; [apply shape_write_rows; [exact Hdry | apply collect_rows_clean; constructor] |].
  intros _. apply inv_bind; [apply shape_sleep | intros _; apply IH, Hrest].
Qed.

Lemma shape_main args :
  cap = max_pages args -> dry = dry_run args ->
  hoare Inv (main net args) (fun _ => Inv).
Proof.
  intros Hcap Hdry. unfold main.
  apply inv_bind; [inv_step | intros w0]. cbv zeta.
  eapply hoare_bind; [apply shape_search_loop | intros e w [Hw _]; exact Hw |].
  { lia. }
  { intros p Hp. rewrite Hcap. lia. }
  { constructor. }
  intros all_people. cbv beta.
  destruct (dry_run args) eqn:Hmode; [apply hoare_ret; intros w [Hw _]; exact Hw |].
  apply hoare_assume. intros Hall.
  apply inv_bind; [| intros _; inv_step].
  apply shape_enrich_loop; [exact Hdry |].
  pose proof (chunked_lengths all_people 10 ltac:(lia)) as Hlen.
  apply List.Forall_forall. intros batch Hb. split.
  - rewrite List.Forall_forall in Hlen. apply (Hlen batch Hb).
  - apply List.Forall_forall. intros p Hp.
    rewrite List.Forall_forall in Hall. apply Hall.
    eapply chunked_In; eassumption.
Qed.

End CollectRun.

Section CollectRunFacts.
Import Collect CollectShape.

(** X2. A run searches no page outside 1..max_pages: every search
    request it adds to the trace is for a page in that range. With a cap
    below 1 the run does nothing at all. *)
Theorem search_within_page_cap (net : Net) (args : Args) (w : World) :
  (exists done,
      trace (snd (main net args w)) = (done ++ trace w)%list /\
      Forall (fun e => forall page, e = EvPost (PeopleSearch page) ->
                                    1 <= page <= max_pages args) done) /\
  (max_pages args < 1 -> main net args w = (Ok tt, w)).
Proof.
  split.
  - destruct (shape_main net (max_pages args) (dry_run args) (table w) (trace w) args
                eq_refl eq_refl w (shape_start _ _ w)) as [(done & Htr & Hdone) _].
    exists done. split; [exact Htr |].
    eapply Forall_impl; [exact Hdone |].
    intros e He page ->. exact He.
  - intros Hcap. unfold main. eff.
    replace (Z.to_nat (max_pages args)) with 0%nat by lia.
    cbn [search_loop]. eff. destruct (dry_run args); reflexivity.
Qed.

(** X3. What a run asks the enrichment service and what it writes.
    Every enrichment request of a run carries at least one and at most ten
    identities, none of them empty. The defensive second exclusion: every
    row a run appends to the CSV passes both exclusion tests on the
    enriched data, whatever the enrichment service returns. Rows are
    written in non-empty groups. *)
Theorem enrichment_batches_and_written_rows (net : Net) (args : Args) (w : World) :
  (exists done,
      trace (snd (main net args w)) = (done ++ trace w)%list /\
      Forall (fun e => (forall details, e = EvPost (BulkEnrich details) ->
                                        (1 <= length details <= 10)%nat /\
                                        Forall (fun id => id <> EmptyString) details) /\
                       (forall rows, e = EvWrite rows -> rows <> [])) done) /\
  (exists rows,
      table (snd (main net args w)) = (table w ++ rows)%list /\
      Forall (fun r => is_excluded_company (organization_name r) = false /\
                       is_excluded_title (title r) = false) rows).
Proof.
  destruct (shape_main net (max_pages args) (dry_run args) (table w) (trace w) args
              eq_refl eq_refl w (shape_start _ _ w))
    as [(done & Htr & Hdone) (rows & Htab & Hclean & _)].
  split.
  - exists done. split; [exact Htr |].
    eapply Forall_impl; [exact Hdone |].
    intros e He. split.
    + intros details ->. destruct He as (_ & Hlen & Hids). auto.
    + intros rows' ->. destruct He as (_ & Hne & _). exact Hne.
  - exists rows. split; [exact Htab | exact Hclean].
Qed.

(** X5. A dry run only searches: it leaves the CSV as it is, and adds
    nothing to the trace but search requests and sleeps. *)
Theorem dry_run_only_searches (net : Net) (cap : Z) (s : Q) (w : World) :
  let w' := snd (main net (mkArgs cap true s) w) in
  table w' = table w /\
  exists done,
    trace w' = (done ++ trace w)%list /\
    Forall (fun e => match e with
                     | EvPost (PeopleSearch _) | EvSleep _ => True
                     | EvPost (BulkEnrich _) | EvWrite _ => False
                     end) done.
Proof.
  intros w'.
  destruct (shape_main net cap true (table w) (trace w) (mkArgs cap true s)
              eq_refl eq_refl w (shape_start _ _ w))
    as [(done & Htr & Hdone) (rows & Htab & _ & Hnone)].
  fold w' in Htr, Htab. split.
  - rewrite Htab, (Hnone eq_refl), app_nil_r. reflexivity.
  - exists done. split; [exact Htr |].
    eapply Forall_impl; [exact Hdone |].
    intros [[page | details] | q | rows'] He; cbn in He; try exact I;
      destruct He as [Hfalse _]; discriminate Hfalse.
Qed.

End CollectRunFacts.

(** ** The number of requests *)

Section RequestBudget.
Import Collect.

Lemma calls_requests_post net req (c : nat) :
  hoare (fun w => (calls w <= c)%nat) (requests_post net req)
        (fun _ w => (calls w <= S c)%nat).
Proof.
  intros w Hw. unfold requests_post. eff.
  destruct (net (calls w) req); cbn; lia.
Qed.

Lemma calls_sleep q (c : nat) :
  hoare (fun w => (calls w <= c)%nat) (sleep q) (fun _ w => (calls w <= c)%nat).
Proof. apply inv_pause. intros w Hw. exact Hw. Qed.

Lemma calls_post_attempts net req attempts delay (c : nat) :
  hoare (fun w => (calls w <= c)%nat) (post_attempts net req attempts delay)
        (fun _ w => (calls w <= c + attempts)%nat).
Proof.
  revert delay c. induction attempts as [| a IH]; intros delay c; cbn [post_attempts].
  - apply hoare_raise. intros w Hw. lia.
  - apply (hoare_bind _ (fun _ w => (calls w <= S c)%nat));
      [apply calls_requests_post | intros e w Hw; lia | intros r].
    destruct (status_code r =? 200).
    { destruct (json r); [apply hoare_ret | apply hoare_raise]; intros w Hw; lia. }
    destruct (retryable (status_code r)); [| apply hoare_raise; intros w Hw; lia].
    apply (hoare_bind _ (fun _ w => (calls w <= S c)%nat));
      [apply calls_sleep | intros e w Hw; lia | intros _].
    eapply hoare_weaken; [apply (IH _ (S c)) | auto |].
    intros o w Hw. cbv beta in Hw. lia.
Qed.

Lemma calls_search_page net page (c : nat) :
  hoare (fun w => (calls w <= c)%nat) (search_page net page)
        (fun _ w => (calls w <= c + 12)%nat).
Proof.
  unfold search_page, post_with_backoff.
  change (Z.to_nat default_max_retries) with 6%nat.
  apply (hoare_try _ (fun _ w => (calls w <= c + 6)%nat));
    [apply calls_post_attempts | intros j w Hw; lia | intros e].
  apply (hoare_bind _ (fun _ w => (calls w <= c + 6)%nat));
    [apply calls_sleep | intros e' w Hw; lia | intros _].
  eapply hoare_weaken; [apply (calls_post_attempts _ _ _ _ (c + 6)) | auto |].
  intros o w Hw. cbv beta in Hw. lia.
Qed.

(** X6. The search phase is bounded: a page costs at most twelve
    requests (six attempts, and six more after the one retry of the page),
    so [pages] pages cost at most [12 * pages]. *)
Theorem search_requests_bounded net s ids (pages : nat) page acc w :
  (calls (snd (search_page net page w)) <= calls w + 12)%nat /\
  (calls (snd (search_loop net s ids pages page acc w)) <= calls w + 12 * pages)%nat.
Proof.
  split; [apply (calls_search_page net page (calls w) w); lia |].
  enough (Hloop : forall c,
             hoare (fun w => (calls w <= c)%nat)
                   (search_loop net s ids pages page acc)
                   (fun _ w => (calls w <= c + 12 * pages)%nat))
    by (apply (Hloop (calls w) w); lia).
  revert page acc. induction pages as [| pages IH]; intros page acc c;
    cbn [search_loop].
  - apply hoare_ret. intros w0 Hw. lia.
  - apply (hoare_bind _ (fun _ w => (calls w <= c + 12)%nat));
      [apply calls_search_page | intros e w0 Hw; lia | intros resp].
    destruct (parse_people_from_search resp) as [| p people];
      [apply hoare_ret; intros w0 Hw; lia |].
    apply (hoare_bind _ (fun _ w => (calls w <= c + 12)%nat));
      [apply hoare_lift; auto | intros e w0 Hw; lia | intros kept].
    apply (hoare_bind _ (fun _ w => (calls w <= c + 12)%nat));
      [apply calls_sleep | intros e w0 Hw; lia | intros _].
    eapply hoare_weaken; [apply (IH _ _ (c + 12)%nat) | auto |].
    intros o w0 Hw. cbv beta in Hw. lia.
Qed.

End RequestBudget.

(** ** The set of seen identities *)

Section SeenSet.
Import Collect CollectShape.

Lemma ids_of_rows_spec rows id :
  In id (ids_of_rows rows) <->
  exists r, In r rows /\ Py.truthy (person_id r) = true /\ Py.or_empty (person_id r) = id.
Proof.
  unfold ids_of_rows. rewrite <- list_elem_of_In, list_elem_of_omap. split.
  - intros (r & Hr & Hsome). exists r. apply list_elem_of_In in Hr.
    destruct (Py.truthy (person_id r)); [| discriminate].
    injection Hsome as <-. auto.
  - intros (r & Hr & Ht & <-). exists r. split; [apply list_elem_of_In, Hr |].
    rewrite Ht. reflexivity.
Qed.

Lemma load_existing_person_ids_app output_csv (rows : list Row) :
  readable output_csv ->
  load_existing_person_ids (Some (appended output_csv rows))
  = list_to_set (ids_of_rows rows) ∪ load_existing_person_ids output_csv.
Proof.
  intros Hr.
  assert (Hr' : readable (Some (appended output_csv rows))).
  { intros f [= <-]. destruct output_csv as [g |]; [| reflexivity].
    apply (Hr g eq_refl). }
  rewrite (load_existing_person_ids_readable _ Hr'),
    (load_existing_person_ids_readable _ Hr).
  apply set_eq. intros id.
  rewrite elem_of_union, elem_of_list_to_set, list_elem_of_In, ids_of_rows_spec.
  rewrite !person_ids_spec.
  assert (Hlines : lines (appended output_csv rows)
                   = (match output_csv with
                      | Some f => lines f
                      | None => []
                      end ++ rows)%list) by (destruct output_csv; reflexivity).
  rewrite Hlines. split.
  - intros (r & Hin & Ht & Hid). apply in_app_or in Hin as [Hin | Hin]; eauto 6.
  - intros [(r & Hin & Ht & Hid) | (r & Hin & Ht & Hid)];
      exists r; (split; [apply in_or_app; auto | auto]).
Qed.

Lemma dict_get_absent key names values :
  ~ In key names -> dict_get key names values = None.
Proof.
  revert values. induction names as [| n names IH]; intros values Hnot; [reflexivity |].
  destruct values as [| v values]; [reflexivity |]. cbn [dict_get].
  rewrite IH by (intros H; apply Hnot; right; exact H).
  destruct (String.eqb_spec n key) as [-> | _]; [| reflexivity].
  exfalso. apply Hnot. left. reflexivity.
Qed.

Lemma mirror_post net req max_retries ids :
  hoare (mirrors ids) (post_with_backoff net req max_retries) (fun _ => mirrors ids).
Proof.
  unfold post_with_backoff. generalize 1. generalize (Z.to_nat max_retries).
  intros a. induction a as [| a IH]; intros delay; cbn [post_attempts]; [inv_step |].
  apply inv_bind.
  - unfold requests_post. apply inv_bind; [inv_step | intros w0].
    apply inv_bind; [apply hoare_modify; intros w Hw; exact Hw | intros _].
    destruct (net (calls w0) req); inv_step.
  - intros r. destruct (status_code r =? 200); [destruct (json r); inv_step |].
    destruct (retryable (status_code r)); [| inv_step].
    apply inv_bind; [apply inv_pause; intros w Hw; exact Hw | intros _; apply IH].
Qed.

Lemma mirror_enrich_loop net s batches ids :
  hoare (mirrors ids)
        (enrich_loop net s batches ids [])
        (fun o w => match o with
                    | Ok ids' => mirrors ids' w
                    | Raised _ => True
                    end).
Proof.
  revert ids. induction batches as [| batch rest IH]; intros ids; cbn [enrich_loop].
  - apply hoare_ret. auto.
  - eapply hoare_bind; [apply mirror_post | auto |]. intros j. cbv beta.
    apply (hoare_bind _ (fun _ => mirrors ids));
      [destruct (matches j); inv_step | auto |].
    intros ms. cbv zeta.
    set (rows := collect_rows ms []).
    set (ids' := match rows with
                 | [] => ids
                 | _ => list_to_set (ids_of_rows rows) ∪ ids
                 end).
    apply (hoare_bind _ (fun _ => mirrors ids')); [| auto |].
    + unfold write_rows, ids'. destruct rows as [| r rows']; [apply hoare_ret; auto |].
      apply hoare_modify. intros w [Hr Hw]. split.
      * intros f [= <-]. cbn [output_csv].
        destruct (output_csv w) as [g |]; [| reflexivity]. apply (Hr g eq_refl).
      * cbn [output_csv]. rewrite load_existing_person_ids_app by exact Hr.
        rewrite <- Hw. reflexivity.
    + intros _.
      apply (hoare_bind _ (fun _ => mirrors ids'));
        [apply inv_pause; auto | auto |].
      intros _. apply IH.
Qed.

(** X7. Writing and loading agree on a file that can be read back (one
    that is absent or starts with the column names): loading the file
    after rows were appended gives the loaded identities of the file and
    those of the rows; and when the enrichment loop, started with the
    identities of the file, returns, its set of seen identities is what
    loading the file it leaves behind gives. They do not agree on a file
    that was created empty by something else: its first row is read as the
    column names, and unless one of its cells is the text "person_id" no
    identity is read back. *)
Theorem seen_set_mirrors_csv net s batches (csv : option File) (rows : list Row)
    (w : World) :
  (readable csv ->
   load_existing_person_ids (Some (appended csv rows))
   = list_to_set (ids_of_rows rows) ∪ load_existing_person_ids csv) /\
  (readable (output_csv w) ->
   match enrich_loop net s batches (load_existing_person_ids (output_csv w)) [] w with
   | (Ok ids, w') => ids = load_existing_person_ids (output_csv w')
                     /\ readable (output_csv w')
   | (Raised _, _) => True
   end) /\
  (forall r rest,
      ~ In "person_id" (cells r) ->
      load_existing_person_ids (Some (mkFile false (r :: rest))) = ∅) /\
  load_existing_person_ids (Some (mkFile false [])) = ∅ /\
  load_existing_person_ids None = ∅.
Proof.
  split; [apply load_existing_person_ids_app |]. split; [| split; [| split; reflexivity]].
  - intros Hr.
    pose proof (mirror_enrich_loop net s batches
                  (load_existing_person_ids (output_csv w)) w (conj Hr eq_refl)) as H.
    destruct (enrich_loop net s batches (load_existing_person_ids (output_csv w)) [] w)
      as [[ids | e] w']; [| exact I].
    destruct H as [Hr' Hids]. auto.
  - intros r rest Hnot. apply set_eq. intros id.
    unfold load_existing_person_ids, records. cbn [headed lines app List.map].
    rewrite read_ids_spec. split; [| set_solver].
    intros (values & _ & Ht & _).
    rewrite (dict_get_absent _ _ _ Hnot) in Ht. discriminate Ht.
Qed.

End SeenSet.

(** ** Batches that were written stay written *)

Section Flush.
Import Collect CollectExamples.

Lemma enrich_loop_appends net s batches ids (csv0 : list Row) :
  hoare (fun w => exists more, table w = (csv0 ++ more)%list)
        (enrich_loop net s batches ids [])
        (fun _ w => exists more, table w = (csv0 ++ more)%list).
Proof.
  revert ids. induction batches as [| batch rest IH]; intros ids; cbn [enrich_loop];
    [inv_step |].
  apply inv_bind.
  { intros w Hw.
    destruct (post_with_backoff_effect net (BulkEnrich (details_of batch))
                default_max_retries w) as (Ht & _).
    rewrite Ht. exact Hw. }
  intros j. apply inv_bind; [destruct (matches j); inv_step | intros ms].
  cbv zeta. apply inv_bind.
  { unfold write_rows. destruct (collect_rows ms []) as [| r rows]; [inv_step |].
    apply hoare_modify. intros w [more Hw]. exists (more ++ r :: rows)%list.
    rewrite table_appended. fold (table w). rewrite Hw, <- app_assoc. reflexivity. }
  intros _. apply inv_bind; [| intros _; apply IH].
  apply inv_pause. intros w Hw. exact Hw.
Qed.

(** X8. The rows of a batch are written before the next batch is
    requested: once the enrichment of a batch has been answered, its rows
    are in the CSV at the end of the loop, whether the later batches
    succeed or raise. *)
Theorem flushed_rows_survive net s batch rest ids (w w1 : World) (j : Json)
    (ms : list Match) :
  post_with_backoff net (BulkEnrich (details_of batch)) default_max_retries w
  = (Ok j, w1) ->
  matches j = AList ms ->
  exists more,
    table (snd (enrich_loop net s (batch :: rest) ids [] w))
    = (table w ++ collect_rows ms [] ++ more)%list.
Proof.
  intros Hpost Hms.
  assert (Htab : table w1 = table w).
  { destruct (post_with_backoff_effect net (BulkEnrich (details_of batch))
                default_max_retries w) as (Ht & _).
    rewrite Hpost in Ht. exact Ht. }
  cbn [enrich_loop]. unfold bind at 1. rewrite Hpost, Hms.
  unfold bind at 1, ret. cbv zeta. unfold bind at 1.
  set (rows := collect_rows ms []).
  assert (Hwritten : exists w2, write_rows rows w1 = (Ok tt, w2)
                                /\ table w2 = (table w ++ rows)%list).
  { unfold write_rows. destruct rows as [| r rows'].
    - exists w1. rewrite app_nil_r. split; [reflexivity | exact Htab].
    - eexists. split; [reflexivity |]. rewrite table_appended. fold (table w1).
      rewrite Htab. reflexivity. }
  destruct Hwritten as (w2 & -> & Hw2).
  match goal with
  | |- context [enrich_loop net s rest ?i []] =>
      pose proof (fun w3 => enrich_loop_appends net s rest i (table w ++ rows)%list w3)
        as Hrest
  end.
  assert (Hslept : hoare (fun w3 => table w3 = (table w ++ rows)%list) (sleep s)
                         (fun _ w3 => table w3 = (table w ++ rows)%list))
    by (apply inv_pause; intros w3 Hw3; exact Hw3).
  specialize (Hslept w2 Hw2). unfold bind at 1.
  destruct (sleep s w2) as [[[] | e] w3]; cbn [fst snd] in Hslept.
  - destruct (Hrest w3) as [more Hmore].
    + exists []. rewrite app_nil_r. exact Hslept.
    + exists more. rewrite Hmore, <- app_assoc. reflexivity.
  - exists []. rewrite app_nil_r. exact Hslept.
Qed.

(** The first batch is answered, the request for the second is refused
    with 501: the run ends in an exception and the row of the first batch
    is in the CSV. *)
Lemma flushed_rows_survive_witness :
  let net : Net := fun n req =>
    match n with
    | O => shifting_pages n req
    | _ => Replied (mkResponse 501 None None "Not Implemented")
    end in
  let run := enrich_loop net (2 # 5)
               [[person "u1" "Head of ERP" "Nordwind AG"];
                [person "u3" "Head of ERP" "Nordwind AG"]] ∅ [] (start []) in
  fst run = Raised (RequestFailed 501 (ErrText "Not Implemented")) /\
  List.map person_id (table (snd run)) = [Some "u1"].
Proof.
  intros net run.
  destruct (flushed_rows_survive net (2 # 5)
              [person "u1" "Head of ERP" "Nordwind AG"]
              [[person "u3" "Head of ERP" "Nordwind AG"]] ∅ (start [])
              (mkWorld 1 [EvPost (BulkEnrich ["u1"])] None (long_sleep (start [])))
              (mkJson Absent Absent Absent (AList [match_of "u1"]))
              [match_of "u1"])
    as [more Hmore].
  - reflexivity.
  - reflexivity.
  - fold run in Hmore. split; [vm_compute; reflexivity |].
    rewrite Hmore. vm_compute in Hmore |- *.
    destruct more as [| r more]; [reflexivity | discriminate Hmore].
Defined.

End Flush.

(** ** What is sent for enrichment *)

Section Provenance.
Import Collect CollectShape.

Variable net : Net.
Variable known : gset string.
Variable tr0 : list Event.

Let Inv : World -> Prop := enriches_kept_only net known tr0.

Lemma kept_only_post req max_retries :
  (forall details, req = BulkEnrich details ->
                   Forall (worth_enriching net known) details) ->
  hoare Inv (post_with_backoff net req max_retries)
    (fun o w => Inv w /\
                forall j, o = Ok j ->
                          exists n r, net n req = Replied r /\ status_code r = 200
                                      /\ json r = Some j).
Proof.
  intros Hreq w Hw.
  destruct (post_with_backoff_effect net req max_retries w) as (_ & He & Hj).
  split; [| exact Hj].
  intros details Hin. apply He in Hin as [Hin | [Heq | (q & Heq)]].
  - apply Hw, Hin.
  - right. apply Hreq. congruence.
  - discriminate Heq.
Qed.

Lemma kept_only_sleep q : hoare Inv (sleep q) (fun _ => Inv).
Proof.
  apply inv_pause. intros w Hw details [H | H]; [discriminate H | auto].
Qed.

Lemma kept_only_search_page page :
  hoare Inv (search_page net page)
    (fun o w => Inv w /\
                forall j, o = Ok j ->
                          forall p, In p (parse_people_from_search j) ->
                                    returned_by_search net p).
Proof.
  assert (Hpost : hoare Inv
                    (post_with_backoff net (PeopleSearch page) default_max_retries)
                    (fun o w => Inv w /\
                                forall j, o = Ok j ->
                                          forall p, In p (parse_people_from_search j) ->
                                                    returned_by_search net p)).
  { eapply hoare_weaken; [apply kept_only_post | auto |].
    - intros details H. discriminate H.
    - intros o w [Hw Hj]. split; [exact Hw |].
      intros j Ho p Hp. destruct (Hj j Ho) as (n & r & Hr & H200 & Hjson).
      exists n, page, r, j. auto. }
  unfold search_page. eapply hoare_try; [exact Hpost | intros j w Hw; exact Hw |].
  intros e. apply (hoare_bind _ (fun _ => Inv)); [| | intros _; exact Hpost];
    [| intros e' w Hw; split; [exact Hw | discriminate]].
  eapply hoare_weaken; [apply kept_only_sleep | intros w [Hw _]; exact Hw |].
  intros o w Hw. exact Hw.
Qed.

Lemma keep_people_found people kept out :
  keep_people known people kept = Ok out ->
  Forall (returned_by_search net) people ->
  Forall (found_and_kept net known) kept ->
  Forall (found_and_kept net known) out.
Proof.
  revert kept. induction people as [| p rest IH]; intros kept; cbn [keep_people].
  - intros [= <-]. auto.
  - intros Hrun Hsrc. apply Forall_cons in Hsrc as [Hp Hrest]. revert Hrun.
    destruct (Py.truthy (get_person_id p)) eqn:Hid; cbn [negb];
      [| intros Hrun; apply (IH _ Hrun Hrest)].
    destruct (bool_decide (Py.or_empty (get_person_id p) ∈ known)) eqn:Hseen;
      [intros Hrun; apply (IH _ Hrun Hrest) |].
    apply bool_decide_eq_false in Hseen.
    destruct (org_name_of p) as [o | e] eqn:Horg; [| discriminate].
    destruct (is_excluded_title _) eqn:Ht; [intros Hrun; apply (IH _ Hrun Hrest) |].
    destruct (is_excluded_company _) eqn:Hc; [intros Hrun; apply (IH _ Hrun Hrest) |].
    intros Hrun Hkept. apply (IH _ Hrun Hrest).
    apply Forall_app. split; [exact Hkept |].
    constructor; [| constructor].
    repeat split; try assumption. exists o. auto.
Qed.

Lemma kept_only_search_loop s pages page acc :
  Forall (found_and_kept net known) acc ->
  hoare Inv (search_loop net s known pages page acc)
    (fun o w => Inv w /\ match o with
                         | Ok all_people => Forall (found_and_kept net known) all_people
                         | Raised _ => True
                         end).
Proof.
  revert page acc. induction pages as [| pages IH]; intros page acc Hacc;
    cbn [search_loop].
  - apply hoare_ret. auto.
  - eapply hoare_bind; [apply kept_only_search_page | intros e w [Hw _]; auto |].
    intros resp. cbv beta. apply hoare_assume. intros Hresp.
    specialize (Hresp resp eq_refl).
    destruct (parse_people_from_search resp) as [| p people] eqn:Hp.
    + apply hoare_ret. auto.
    + apply (hoare_bind _ (fun o w => Inv w /\ o = keep_people known (p :: people) [])).
      * apply hoare_lift. auto.
      * intros e w [Hw _]. auto.
      * intros kept. apply hoare_assume. intros Hkept. symmetry in Hkept.
        apply inv_bind_then with (I := Inv); [apply kept_only_sleep | auto |].
        intros _. apply IH. apply Forall_app. split; [exact Hacc |].
        apply (keep_people_found (p :: people) [] kept Hkept); [| constructor].
        apply List.Forall_forall. exact Hresp.
Qed.

Lemma kept_only_write_rows rows : hoare Inv (write_rows rows) (fun _ => Inv).
Proof.
  unfold write_rows. destruct rows as [| r rows]; [inv_step |].
  apply hoare_modify. intros w Hw details [H | H]; [discriminate H | auto].
Qed.

Lemma details_of_worth batch :
  Forall (found_and_kept net known) batch ->
  Forall (worth_enriching net known) (details_of batch).
Proof.
  intros Hb. apply List.Forall_forall. intros id Hid.
  unfold details_of in Hid. apply list_elem_of_In in Hid.
  apply list_elem_of_omap in Hid as (p & Hp & Hsome).
  destruct (Py.truthy (get_person_id p)); [| discriminate].
  injection Hsome as <-. exists p. split; [| reflexivity].
  rewrite List.Forall_forall in Hb. apply Hb, list_elem_of_In, Hp.
Qed.

Lemma kept_only_enrich_loop s batches ids rows :
  Forall (Forall (found_and_kept net known)) batches ->
  hoare Inv (enrich_loop net s batches ids rows) (fun _ => Inv).
Proof.
  revert ids rows. induction batches as [| batch rest IH]; intros ids rows Hb;
    cbn [enrich_loop]; [inv_step |].
  apply Forall_cons in Hb as [Hbatch Hrest].
  apply inv_bind.
  { eapply hoare_weaken; [apply kept_only_post | auto | intros o w [Hw _]; exact Hw].
    intros details [= <-]. apply details_of_worth, Hbatch. }
  intros j. apply inv_bind; [destruct (matches j); inv_step | intros ms].
  cbv zeta. apply inv_bind; [apply kept_only_write_rows | intros _].
  apply inv_bind; [apply kept_only_sleep | intros _; apply IH, Hrest].
Qed.

Lemma kept_only_main args :
  hoare (fun w => Inv w /\ load_existing_person_ids (output_csv w) = known)
        (main net args) (fun _ => Inv).
Proof.
  intros w [Hw Ht]. unfold main. unfold bind at 1, get. rewrite Ht.
  revert w Hw Ht.
  match goal with
  | |- forall w, Inv w -> _ -> Inv (snd (?c w)) =>
      enough (Hrun : hoare Inv c (fun _ => Inv)) by (intros w Hw _; apply Hrun, Hw)
  end.
  eapply hoare_bind; [apply kept_only_search_loop; constructor
                     | intros e w [Hw _]; exact Hw |].
  intros all_people. cbv beta.
  destruct (dry_run args); [apply hoare_ret; intros w [Hw _]; exact Hw |].
  apply hoare_assume. intros Hall.
  apply inv_bind; [| intros _; inv_step].
  apply kept_only_enrich_loop.
  apply List.Forall_forall. intros batch Hb.
  apply List.Forall_forall. intros p Hp.
  rewrite List.Forall_forall in Hall. apply Hall.
  eapply chunked_In; eassumption.
Qed.

End Provenance.

Section ProvenanceOfARun.
Import Collect CollectShape.

(** X9. Enrichment is asked only for what the search found and the
    filters kept: every identity in an enrichment request of a run is the
    identity of a candidate that an answer to a search request listed,
    that was not read back from the CSV the run started from, and whose
    title and employer name hold no excluded keyword. *)
Theorem enriched_only_after_passing_filters (net : Net) (args : Args) (w : World) :
  Forall
    (fun e =>
       match e with
       | EvPost (BulkEnrich details) =>
           In e (trace w) \/
           Forall
             (fun id =>
                exists p n page r j,
                  net n (PeopleSearch page) = Replied r /\ status_code r = 200 /\
                  json r = Some j /\ In p (parse_people_from_search j) /\
                  Py.or_empty (get_person_id p) = id /\
                  id <> EmptyString /\
                  (id ∉ load_existing_person_ids (output_csv w)) /\
                  is_excluded_title (Some (Py.or_empty (p_title p))) = false /\
                  exists o, org_name_of p = Ok o /\ is_excluded_company o = false)
             details
       | _ => True
       end)
    (trace (snd (main net args w))).
Proof.
  assert (Hrun : CollectShape.enriches_kept_only net
                   (load_existing_person_ids (output_csv w)) (trace w)
                   (snd (main net args w))).
  { apply (kept_only_main net (load_existing_person_ids (output_csv w)) (trace w) args w).
    split; [intros d Hd; left; exact Hd | reflexivity]. }
  apply List.Forall_forall. intros [[page | details] | q | rows] Hin; try exact I.
  destruct (Hrun details Hin) as [Hold | Hnew]; [left; exact Hold |].
  right. eapply Forall_impl; [exact Hnew |].
  intros id (p & ((n & pg & r & j & Hr & H200 & Hj & Hp) & Hid & Hfresh & Ht & Ho) & <-).
  exists p, n, pg, r, j. repeat split; try assumption.
  destruct (get_person_id p) as [[| c s] |]; cbn in *; congruence.
Qed.

End ProvenanceOfARun.

(** ** Normalisation before the exclusion tests *)

Section Normalisation.
Import Collect.

Lemma lower_char_idem c : Py.lower_char (Py.lower_char c) = Py.lower_char c.
Proof. destruct c as [[] [] [] [] [] [] [] []]; reflexivity. Qed.

Lemma isspace_lower_char c : Py.isspace (Py.lower_char c) = Py.isspace c.
Proof. destruct c as [[] [] [] [] [] [] [] []]; reflexivity. Qed.

Lemma lower_idem s : Py.lower (Py.lower s) = Py.lower s.
Proof.
  induction s as [| c s IH]; [reflexivity |].
  cbn [Py.lower]. rewrite lower_char_idem, IH. reflexivity.
Qed.

Lemma lstrip_lower s : Py.lstrip (Py.lower s) = Py.lower (Py.lstrip s).
Proof.
  induction s as [| c s IH]; [reflexivity |].
  cbn [Py.lower Py.lstrip]. rewrite isspace_lower_char.
  destruct (Py.isspace c); [exact IH | reflexivity].
Qed.

Lemma rstrip_lower s : Py.rstrip (Py.lower s) = Py.lower (Py.rstrip s).
Proof.
  induction s as [| c s IH]; [reflexivity |].
  cbn [Py.lower Py.rstrip]. rewrite IH, isspace_lower_char.
  destruct (Py.rstrip s); cbn [Py.lower]; [destruct (Py.isspace c) |]; reflexivity.
Qed.

Lemma strip_lower s : Py.strip (Py.lower s) = Py.lower (Py.strip s).
Proof. unfold Py.strip. rewrite rstrip_lower, lstrip_lower. reflexivity. Qed.

Lemma lstrip_idem s : Py.lstrip (Py.lstrip s) = Py.lstrip s.
Proof.
  induction s as [| c s IH]; [reflexivity |].
  cbn [Py.lstrip]. destruct (Py.isspace c) eqn:Hc; [exact IH |].
  cbn [Py.lstrip]. rewrite Hc. reflexivity.
Qed.

Lemma rstrip_idem s : Py.rstrip (Py.rstrip s) = Py.rstrip s.
Proof.
  induction s as [| c s IH]; [reflexivity |].
  cbn [Py.rstrip]. destruct (Py.rstrip s) as [| d r] eqn:Hr.
  - destruct (Py.isspace c) eqn:Hc; [reflexivity |].
    cbn [Py.rstrip]. rewrite Hc. reflexivity.
  - change (Py.rstrip (String c (String d r)))
      with (match Py.rstrip (String d r) with
            | EmptyString => if Py.isspace c then EmptyString else String c EmptyString
            | String d' r' => String c (String d' r')
            end).
    rewrite IH. reflexivity.
Qed.

Lemma rstrip_lstrip s : Py.rstrip (Py.lstrip s) = Py.lstrip (Py.rstrip s).
Proof.
  induction s as [| c s IH]; [reflexivity |].
  destruct (Py.isspace c) eqn:Hc.
  - cbn [Py.lstrip Py.rstrip]. rewrite Hc, IH.
    destruct (Py.rstrip s) as [| d r]; [reflexivity |].
    cbn [Py.lstrip]. rewrite Hc. reflexivity.
  - cbn [Py.lstrip]. rewrite Hc. cbn [Py.rstrip].
    destruct (Py.rstrip s) as [| d r]; rewrite ?Hc; cbn [Py.lstrip]; rewrite Hc;
      reflexivity.
Qed.

Lemma strip_idem s : Py.strip (Py.strip s) = Py.strip s.
Proof.
  unfold Py.strip. rewrite rstrip_lstrip, lstrip_idem, rstrip_idem. reflexivity.
Qed.

Lemma or_empty_Some s : Py.or_empty (Some s) = s.
Proof. destruct s; reflexivity. Qed.

Lemma normalize_text_idem x : normalize_text (Some (normalize_text x)) = normalize_text x.
Proof.
  unfold normalize_text. rewrite or_empty_Some, strip_lower, lower_idem, strip_idem.
  reflexivity.
Qed.

(** X10. The exclusion tests see a text only through its normal form,
    and normalising is idempotent: a title or employer name is excluded
    exactly when its stripped version, its lower-cased version and its
    normal form are. *)
Theorem exclusion_ignores_case_and_margins (s : string) :
  normalize_text (Some (normalize_text (Some s))) = normalize_text (Some s) /\
  is_excluded_title (Some (Py.lower s)) = is_excluded_title (Some s) /\
  is_excluded_title (Some (Py.strip s)) = is_excluded_title (Some s) /\
  is_excluded_company (Some (Py.lower s)) = is_excluded_company (Some s) /\
  is_excluded_company (Some (Py.strip s)) = is_excluded_company (Some s).
Proof.
  assert (Hlower : normalize_text (Some (Py.lower s)) = normalize_text (Some s)).
  { unfold normalize_text. rewrite !or_empty_Some, strip_lower, lower_idem. reflexivity. }
  assert (Hstrip : normalize_text (Some (Py.strip s)) = normalize_text (Some s)).
  { unfold normalize_text. rewrite !or_empty_Some, strip_idem. reflexivity. }
  split; [apply normalize_text_idem |].
  unfold is_excluded_title, is_excluded_company. rewrite Hlower, Hstrip.
  repeat split.
Qed.

End Normalisation.

(** ** Query parameters *)

Section QueryParameters.
Import Query.

Lemma append_items_spec key items params :
  append_items key items params
  = (params ++ List.map (fun it => (key, str_item it))
                 (List.filter (fun it => match it with INone => false | _ => true end)
                              items))%list.
Proof.
  revert params. induction items as [| it rest IH]; intros params; cbn [append_items].
  - cbn. rewrite app_nil_r. reflexivity.
  - destruct it; rewrite IH; cbn [List.filter List.map]; rewrite <- ?app_assoc;
      reflexivity.
Qed.

Lemma append_filters_spec filters params :
  append_filters filters params
  = (params ++ flat_map (fun kv => params_of (fst kv) (snd kv)) filters)%list.
Proof.
  revert params. induction filters as [| [k v] rest IH]; intros params;
    cbn [append_filters flat_map fst snd].
  - rewrite app_nil_r. reflexivity.
  - destruct v; rewrite IH; cbn [params_of]; rewrite ?append_items_spec, <- ?app_assoc;
      reflexivity.
Qed.

(** X11. The parameter list is the concatenation, in dictionary order,
    of what each entry contributes on its own: nothing for None, one
    parameter under the key for a scalar, and for a list one parameter
    under the key followed by [[]] per element that is not None. Hence
    building distributes over the concatenation of dictionaries, and no
    parameter stems from a None. *)
Theorem build_query_params_entrywise (filters more : Dict) :
  build_query_params filters
  = flat_map (fun kv => params_of (fst kv) (snd kv)) filters /\
  build_query_params (filters ++ more)%list
  = (build_query_params filters ++ build_query_params more)%list /\
  forall name text,
    In (name, text) (build_query_params filters) ->
    exists k v, In (k, v) filters /\ v <> VNone /\
                ((name = k /\ params_of k v = [(k, text)])
                 \/ exists items it, v = VList items /\ In it items /\
                                     it <> INone /\ name = k ++ "[]"
                                     /\ text = str_item it).
Proof.
  assert (Hflat : forall d, build_query_params d
                            = flat_map (fun kv => params_of (fst kv) (snd kv)) d).
  { intros d. unfold build_query_params. rewrite append_filters_spec. reflexivity. }
  split; [apply Hflat |]. split.
  - rewrite !Hflat. apply flat_map_app.
  - intros name text Hin. rewrite Hflat in Hin.
    apply in_flat_map in Hin as ([k v] & Hkv & Hp). cbn [fst snd] in Hp.
    exists k, v. split; [exact Hkv |].
    destruct v; cbn [params_of] in Hp;
      try (destruct Hp as [[= <- <-] | []]; split; [discriminate | left; split; reflexivity]);
      [destruct Hp |].
    split; [discriminate |]. right.
    apply in_map_iff in Hp as (it & [= <- <-] & Hit).
    apply filter_In in Hit as [Hit Hsome].
    exists items, it. repeat split; try assumption.
    intros ->. discriminate Hsome.
Qed.

Lemma named_app name (a b : list (string * string)) :
  named name (a ++ b)%list = (named name a ++ named name b)%list.
Proof. unfold named. rewrite List.filter_app, List.map_app. reflexivity. Qed.

Lemma brackets_not_page k : k ++ "[]" <> "page".
Proof.
  destruct k as [| a [| b [| c [| d [| e k]]]]];
    rewrite ?append_cons, ?append_nil_l; congruence.
Qed.

Lemma named_page_other k v : k <> "page" -> named "page" (params_of k v) = [].
Proof.
  intros Hk.
  assert (Hkey : String.eqb k "page" = false) by (apply String.eqb_neq, Hk).
  destruct v; unfold named; cbn [params_of List.filter List.map fst]; rewrite ?Hkey;
    try reflexivity.
  induction items as [| it rest IH]; [reflexivity |].
  assert (Hlist : String.eqb (k ++ "[]") "page" = false)
    by (apply String.eqb_neq, brackets_not_page).
  destruct it; cbn [List.filter List.map fst] in *; rewrite ?Hlist; exact IH.
Qed.

Lemma named_page_none (d : Dict) :
  ~ In "page" (List.map fst d) ->
  named "page" (flat_map (fun kv => params_of (fst kv) (snd kv)) d) = [].
Proof.
  induction d as [| [k v] rest IH]; intros Hnot; [reflexivity |].
  cbn [flat_map fst snd]. rewrite named_app, named_page_other, IH; [reflexivity | |].
  - intros Hin. apply Hnot. right. exact Hin.
  - intros ->. apply Hnot. left. reflexivity.
Qed.

Lemma dict_set_new (d : Dict) k v :
  ~ In k (List.map fst d) -> dict_set d k v = (d ++ [(k, v)])%list.
Proof.
  induction d as [| [k' v'] rest IH]; intros Hnot; [reflexivity |].
  cbn [dict_set app].
  destruct (String.eqb k' k) eqn:Hk.
  - apply String.eqb_eq in Hk. exfalso. apply Hnot. left. exact Hk.
  - rewrite IH; [reflexivity |]. intros Hin. apply Hnot. right. exact Hin.
Qed.

(** X12. The page of a search request: when the keys of the recipe are
    distinct, as the keys of a dictionary are, the parameters built for a
    page hold exactly one parameter named page, the number of the page in
    decimal; and when the recipe has no such key, as the three recipes of
    the program, it is the last parameter, after those of the recipe. *)
Theorem page_parameter_once (base_filters : Dict) (page : Z) :
  NoDup (List.map fst base_filters) ->
  named "page" (search_params base_filters page) = [pretty page] /\
  (~ In "page" (List.map fst base_filters) ->
   search_params base_filters page
   = (build_query_params base_filters ++ [("page", pretty page)])%list).
Proof.
  intros Hkeys. unfold search_params, build_query_params.
  rewrite !append_filters_spec. cbn [app]. split.
  - induction base_filters as [| [k v] rest IH]; [reflexivity |].
    apply NoDup_cons in Hkeys as [Hk Hrest]. cbn [dict_set].
    destruct (String.eqb k "page") eqn:Heq.
    + apply String.eqb_eq in Heq. subst k. cbn [flat_map fst snd].
      rewrite named_app, named_page_none; [reflexivity |].
      intros Hin. apply Hk. apply list_elem_of_In, Hin.
    + apply String.eqb_neq in Heq. cbn [flat_map fst snd].
      rewrite named_app, named_page_other, (IH Hrest) by exact Heq. reflexivity.
  - intros Hnew. rewrite dict_set_new by exact Hnew.
    rewrite flat_map_app. reflexivity.
Qed.

(** The recipe of the mode hiring_signal, page 3. *)
Lemma page_parameter_once_witness :
  named "page" (search_params (recipe "2026-07-07" "hiring_signal") 3) = ["3"] /\
  named "per_page" (search_params (recipe "2026-07-07" "hiring_signal") 3) = ["100"] /\
  last (search_params (recipe "2026-07-07" "hiring_signal") 3) = Some ("page", "3").
Proof.
  destruct (page_parameter_once (recipe "2026-07-07" "hiring_signal") 3) as [Hone Hlast].
  - apply (bool_decide_unpack _). vm_compute. exact I.
  - split; [exact Hone |]. split; [reflexivity |].
    rewrite Hlast; [reflexivity |]. vm_compute. intuition discriminate.
Defined.

End QueryParameters.

(** * Further properties of app2.py *)

(** ** Writing to the ledger and asking it *)

Section LedgerRoundTrip.
Import Dispatch.

Lemma key_taken_already_sent con row :
  existsb (fun e => String.eqb (e_email e) (e_email row)
                    && (send_date e =? send_date row)%N) con
  = already_sent_today con (send_date row) (e_email row).
Proof.
  unfold already_sent_today. induction con as [| e con IH]; [reflexivity |].
  cbn [existsb]. rewrite IH, (andb_comm (String.eqb _ _)). reflexivity.
Qed.

Lemma already_sent_app (con1 con2 : Ledger) day email :
  already_sent_today (con1 ++ con2)%list day email
  = already_sent_today con1 day email || already_sent_today con2 day email.
Proof. unfold already_sent_today. apply existsb_app. Qed.

(** X13. Writing a row and asking for it: after [mark_sent], whatever
    the status written, [already_sent_today] holds for the address; the
    number of rows of the day grows by one when the address had no row of
    the day and stays as it is otherwise; and the answer for every other
    address or day is unchanged. *)
Theorem mark_sent_round_trip (env : Env)
    (email person_id company subject status : string) (w : World) :
  let w' := snd (mark_sent env email person_id company subject status w) in
  already_sent_today (con w') (today env w) email = true /\
  sent_count_today (con w') (today env w)
  = sent_count_today (con w) (today env w)
    + (if already_sent_today (con w) (today env w) email then 0 else 1) /\
  (forall day other,
      (day, other) <> (today env w, email) ->
      already_sent_today (con w') day other = already_sent_today (con w) day other).
Proof.
  cbv zeta. unfold mark_sent, modify, set_con. cbn [snd con].
  set (row := mkEntry (today env w) (now w) email person_id company subject status).
  unfold insert_or_ignore. rewrite (key_taken_already_sent (con w) row).
  cbn [send_date e_email row].
  destruct (already_sent_today (con w) (today env w) email) eqn:Htaken.
  - split; [exact Htaken |]. split; [lia | reflexivity].
  - split; [| split].
    + rewrite already_sent_app. cbn. rewrite N.eqb_refl, String.eqb_refl.
      apply orb_true_r.
    + unfold sent_count_today. rewrite count_where_app.
      unfold count_where at 2. cbn. rewrite N.eqb_refl. reflexivity.
    + intros day other Hother. rewrite already_sent_app. cbn.
      destruct (N.eqb_spec (today env w) day) as [<- | Hd]; cbn; [| apply orb_false_r].
      destruct (String.eqb_spec email other) as [<- | He]; cbn; [| apply orb_false_r].
      congruence.
Qed.

End LedgerRoundTrip.

(** ** The do-not-email list *)

Section DoNotEmail.
Import Dispatch.

(** X14. The do-not-email set holds the lines of the file stripped and
    lower-cased, blank lines left out; so its members are non-empty and
    are their own stripped and lower-cased forms, a row whose email equals
    a listed line up to letter case and surrounding white space is dropped
    by the filters, and without the file no row is dropped for this
    reason. *)
Theorem do_not_email_normalised (lines : list string) :
  (forall x, x ∈ load_do_not_email (Some lines) <->
             exists line, In line lines /\ Py.strip line <> EmptyString
                          /\ x = Py.lower (Py.strip line)) /\
  (forall x, x ∈ load_do_not_email (Some lines) ->
             x <> EmptyString /\ Py.lower x = x /\ Py.strip x = x) /\
  (forall line df r,
      In line lines -> Py.strip line <> EmptyString ->
      Py.lower (email r) = Py.lower (Py.strip line) ->
      ~ In r (prefilter (load_do_not_email (Some lines)) df)) /\
  (forall df r,
      In r (prefilter (load_do_not_email None) df)
      <-> In r df /\ is_valid_email (email r) = true
          /\ allowed_status (email_status_norm r) = true).
Proof.
  split; [intros x; apply load_do_not_email_spec |]. split; [| split].
  - intros x Hx. apply load_do_not_email_spec in Hx as (line & _ & Hne & ->).
    split; [| split].
    + intros Hempty. apply Hne, lower_empty, Hempty.
    + apply lower_idem.
    + rewrite strip_lower, strip_idem. reflexivity.
  - intros line df r Hin Hne Heq Hr.
    apply prefilter_In in Hr as (_ & _ & _ & Hnot).
    apply Hnot. rewrite Heq. apply load_do_not_email_spec. eauto.
  - intros df r. rewrite prefilter_In. unfold passes, load_do_not_email.
    split; [tauto |]. intros (H1 & H2 & H3). repeat split; try assumption.
    set_solver.
Qed.

End DoNotEmail.

(** ** Scores and filters of the lead sheet *)

Section Scores.
Import Dispatch.

Lemma first_score_In table t :
  first_score table t = 1 \/ exists kw, In (kw, first_score table t) table.
Proof.
  induction table as [| [kw sc] rest IH]; [left; reflexivity |].
  cbn [first_score]. destruct (Py.contains kw t).
  - right. exists kw. left. reflexivity.
  - destruct IH as [H | (kw' & H)]; [left; exact H | right; exists kw'; right; exact H].
Qed.

(** X15. The seniority score lies between 1 and 5, does not depend on
    the letter case of the title, and is 1 for a missing title. *)
Theorem seniority_score_range_and_case (title : string) :
  (forall t, 1 <= seniority_score t <= 5) /\
  seniority_score (Some (Py.lower title)) = seniority_score (Some title) /\
  seniority_score None = 1.
Proof.
  split; [| split; [| reflexivity]].
  - intros t. unfold seniority_score.
    destruct (first_score_In SENIORITY_TABLE (Py.lower (str t))) as [-> | (kw & Hin)];
      [lia |].
    generalize dependent (first_score SENIORITY_TABLE (Py.lower (str t))).
    intros sc Hin. unfold SENIORITY_TABLE in Hin. cbn in Hin.
    repeat (destruct Hin as [[= _ <-] | Hin]; [lia |]). destruct Hin.
  - unfold seniority_score. cbn [str]. rewrite lower_idem. reflexivity.
Qed.

(** X16. The deliverability filter compares the status in lower case
    and without surrounding white space, so the letter case and the
    margins of the cell do not matter; the status passes exactly when this
    form is "verified" or "likely to engage", and an empty cell does not
    pass. *)
Theorem status_filter_ignores_case_and_margins (l : Lead) (s : string) :
  let with_status x :=
    mkLead (l_email l) x (l_title l) (l_organization_name l) (l_first_name l)
           (l_person_id l) in
  email_status_norm (normalize (with_status (Some (Py.lower s))))
  = email_status_norm (normalize (with_status (Some s))) /\
  email_status_norm (normalize (with_status (Some (Py.strip s))))
  = email_status_norm (normalize (with_status (Some s))) /\
  (allowed_status (email_status_norm (normalize (with_status (Some s)))) = true
   <-> Py.strip (Py.lower s) = "verified" \/ Py.strip (Py.lower s) = "likely to engage") /\
  allowed_status (email_status_norm (normalize (with_status None))) = false.
Proof.
  cbv zeta. unfold normalize. cbn [email_status_norm l_email_status str].
  split; [rewrite lower_idem; reflexivity |].
  split; [rewrite <- strip_lower, strip_idem; reflexivity |].
  split; [| reflexivity].
  unfold allowed_status, ALLOWED_EMAIL_STATUS. cbn [existsb].
  rewrite orb_false_r, orb_true_iff, !String.eqb_eq. tauto.
Qed.

Lemma filter_sublist {A} (f : A -> bool) (l : list A) : sublist (List.filter f l) l.
Proof.
  induction l as [| x l IH]; cbn [List.filter]; [constructor |].
  destruct (f x); [apply sublist_skip | apply sublist_cons]; exact IH.
Qed.

Lemma filter_all {A} (f : A -> bool) (l : list A) :
  (forall x, In x l -> f x = true) -> List.filter f l = l.
Proof.
  induction l as [| x l IH]; intros Hall; cbn [List.filter]; [reflexivity |].
  rewrite (Hall x (or_introl eq_refl)), IH; [reflexivity |].
  intros y Hy. apply Hall. right. exact Hy.
Qed.

(** X17. The three filters keep the rows that pass in the order of the
    sheet, filtering a second time changes nothing, and the number of rows
    does not grow. *)
Theorem prefilter_keeps_order (do_not_email : gset string) (df : list Rec) :
  sublist (prefilter do_not_email df) df /\
  prefilter do_not_email (prefilter do_not_email df) = prefilter do_not_email df /\
  (length (prefilter do_not_email df) <= length df)%nat.
Proof.
  assert (Hsub : sublist (prefilter do_not_email df) df).
  { unfold prefilter.
    etransitivity; [apply filter_sublist |].
    etransitivity; [apply filter_sublist |]. apply filter_sublist. }
  split; [exact Hsub |]. split; [| apply sublist_length, Hsub].
  set (kept := prefilter do_not_email df).
  assert (Hpass : forall r, In r kept -> passes do_not_email r)
    by (intros r Hr; apply prefilter_In in Hr as [_ Hr]; exact Hr).
  unfold prefilter at 1.
  rewrite (filter_all _ kept) by (intros r Hr; apply (Hpass r Hr)).
  rewrite (filter_all _ kept) by (intros r Hr; apply (Hpass r Hr)).
  apply filter_all. intros r Hr. destruct (Hpass r Hr) as (_ & _ & Hnot).
  apply negb_true_iff, bool_decide_eq_false. exact Hnot.
Qed.

End Scores.

(** ** One candidate of the dispatch loop, path by path *)

Section DispatchPaths.
Import Dispatch DispatchShape DispatchExamples.

Lemma attempt_accepted env payload email person_id company subject w el resp :
  graph_nth env (sends w) = Answered el resp ->
  is_success (status_code resp) = true ->
  attempt env payload email person_id company subject w
  = (Ok tt,
     mkWorld (now w + el)
       (insert_or_ignore (con w)
          (mkEntry (local_date env (now w + el)) (now w + el)
                   email person_id company subject "sent"))
       (S (sends w)) (token_requests w) (token w) (sent_now w + 1)
       (last_sent_message w) (EvSend (token w) payload :: trace w)).
Proof.
  intros Hfirst Hok. pose proof (success_not_401 _ Hok) as H401.
  unfold attempt, graph_post_sendmail, mark_sent, count_sent_now. eff.
  rewrite Hfirst.
  cbn [now con sends token_requests token sent_now last_sent_message trace].
  rewrite H401, Hok. reflexivity.
Qed.

Lemma loop_body_accepted env r w payload el resp :
  unique_keys (con w) ->
  (forall w0, build_message env r w0 = (Ok payload, w0)) ->
  let w0 := after_quota_check env w in
  graph_nth env (sends w) = Answered el resp ->
  is_success (status_code resp) = true ->
  loop_body env r w
  = (Ok tt,
     mkWorld (now w0 + el + SLEEP_BETWEEN_SENDS_SEC)
       (insert_or_ignore (con w) (entry_at env (now w0 + el) r (subject payload) "sent"))
       (S (sends w)) (token_requests w) (token w) (sent_now w + 1)
       (last_sent_message w)
       (EvSleep SLEEP_BETWEEN_SENDS_SEC :: EvSend (token w) payload :: trace w0)).
Proof.
  intros Hu Hbuild w0 Hfirst Hok.
  assert (Hsame : con w0 = con w /\ sends w0 = sends w /\ token w0 = token w
                  /\ token_requests w0 = token_requests w /\ sent_now w0 = sent_now w
                  /\ last_sent_message w0 = last_sent_message w).
  { unfold w0, after_quota_check.
    destruct (sent_count_today (con w) (today env w) >=? DAILY_LIMIT env); repeat split. }
  destruct Hsame as (Hcon & Hsends & Htoken & Hreq & Hnow & Hlast).
  rewrite (loop_body_unfold env r w Hu). fold w0.
  unfold bind at 1. rewrite Hbuild. unfold bind at 1, try_except.
  rewrite (attempt_accepted env payload _ _ _ _ w0 el resp)
    by (rewrite ?Hsends; assumption).
  rewrite sleep_short by reflexivity.
  unfold slept. cbn [now con sends token_requests token sent_now
                     last_sent_message trace].
  rewrite Hcon, Hsends, Htoken, Hreq, Hnow, Hlast. reflexivity.
Qed.

(** X18. A send that the mail service accepts (200 or 202), with the
    quota not reached and the ledger keys unique: exactly one mail call is
    made, a row with status "sent" dated at the time of the answer is
    offered to the ledger, the counter of the run grows by one, and the
    loop pauses 180 seconds. The row is appended when the address has no
    row of that day. *)
Theorem accepted_send_logged_and_counted
    (env : Env) (r : Rec) (w : World) (payload : Payload) (el : N)
    (resp : MailResponse) :
  unique_keys (con w) ->
  (forall w0, build_message env r w0 = (Ok payload, w0)) ->
  sent_count_today (con w) (today env w) < DAILY_LIMIT env ->
  graph_nth env (sends w) = Answered el resp ->
  is_success (status_code resp) = true ->
  let t := (now w + el)%N in
  let entry := entry_at env t r (subject payload) "sent" in
  loop_body env r w
  = (Ok tt,
     mkWorld (t + SLEEP_BETWEEN_SENDS_SEC) (insert_or_ignore (con w) entry)
       (S (sends w)) (token_requests w) (token w) (sent_now w + 1)
       (last_sent_message w)
       (EvSleep SLEEP_BETWEEN_SENDS_SEC :: EvSend (token w) payload :: trace w)) /\
  to_address payload = email r /\
  (already_sent_today (con w) (local_date env t) (email r) = false ->
   insert_or_ignore (con w) entry = (con w ++ [entry])%list).
Proof.
  intros Hu Hbuild Hquota Hfirst Hok t entry.
  assert (Hq : (sent_count_today (con w) (today env w) >=? DAILY_LIMIT env) = false)
    by (rewrite Z.geb_leb; apply Z.leb_gt; exact Hquota).
  split; [| split].
  - rewrite (loop_body_accepted env r w payload el resp Hu Hbuild Hfirst Hok).
    unfold after_quota_check. rewrite Hq. reflexivity.
  - apply (build_message_to env r w payload w), Hbuild.
  - intros Hnew. unfold insert_or_ignore.
    rewrite (key_taken_already_sent (con w) entry). cbn [send_date e_email entry entry_at].
    rewrite Hnew. reflexivity.
Qed.

Lemma accepted_send_logged_and_counted_witness :
  let env := env_of 50 [ann] stable_sort accepting in
  let w' := snd (loop_body env (with_score (normalize ann)) (start 0 [])) in
  List.map (fun e => (e_email e, e_status e, sent_at e)) (con w')
  = [("ann@acme.example", "sent", 1%N)] /\
  sent_now w' = 1 /\ now w' = 181%N.
Proof.
  intros env.
  destruct (accepted_send_logged_and_counted env (with_score (normalize ann))
              (start 0 [])
              (mkPayload
                 "AVC at Acme re: master data governance for SAP S/4HANA programs"
                 "Ann" "Acme" "ann@acme.example" "iVBORw0KGgo=")
              1 (mkMailResponse 202 None EmptyString))
    as (Hstep & _ & _).
  - apply NoDup_nil. trivial.
  - intros w0. reflexivity.
  - vm_compute. reflexivity.
  - reflexivity.
  - reflexivity.
  - cbv zeta. rewrite Hstep. repeat split.
Defined.

(** X19. The ledger does not prevent a second mail to an address on
    the same day: when the address already has a row of the day (written
    by an earlier run or by an earlier row of the sheet with the same
    address), the loop still sends the message and counts it, and leaves
    the ledger as it is. *)
Theorem known_address_mailed_again
    (env : Env) (r : Rec) (w : World) (payload : Payload) (el : N)
    (resp : MailResponse) :
  unique_keys (con w) ->
  (forall w0, build_message env r w0 = (Ok payload, w0)) ->
  sent_count_today (con w) (today env w) < DAILY_LIMIT env ->
  graph_nth env (sends w) = Answered el resp ->
  is_success (status_code resp) = true ->
  already_sent_today (con w) (local_date env (now w + el)) (email r) = true ->
  let w' := snd (loop_body env r w) in
  fst (loop_body env r w) = Ok tt /\
  recipients (trace w') = (recipients (trace w) ++ [email r])%list /\
  con w' = con w /\
  sent_now w' = sent_now w + 1 /\
  sent_count_today (con w') (today env w) = sent_count_today (con w) (today env w).
Proof.
  intros Hu Hbuild Hquota Hfirst Hok Hknown w'.
  assert (Hq : (sent_count_today (con w) (today env w) >=? DAILY_LIMIT env) = false)
    by (rewrite Z.geb_leb; apply Z.leb_gt; exact Hquota).
  pose proof (loop_body_accepted env r w payload el resp Hu Hbuild Hfirst Hok) as Hstep.
  unfold after_quota_check in Hstep. rewrite Hq in Hstep.
  assert (Hcon : con w' = con w).
  { unfold w'. rewrite Hstep. cbn [snd con]. unfold insert_or_ignore.
    rewrite (key_taken_already_sent (con w)). cbn [send_date e_email entry_at].
    rewrite Hknown. reflexivity. }
  split; [rewrite Hstep; reflexivity |].
  split; [| split; [exact Hcon | split; [unfold w'; rewrite Hstep; reflexivity |]]].
  - unfold w'. rewrite Hstep. cbn [snd trace]. unfold recipients. cbn [rev].
    rewrite !omap_app. cbn. rewrite app_nil_r.
    rewrite (build_message_to env r w payload w (Hbuild w)). reflexivity.
  - rewrite Hcon. reflexivity.
Qed.

(** Ann is in the sheet twice: both rows are mailed, one row is logged. *)
Lemma known_address_mailed_again_witness :
  let env := env_of 50 [ann; ann] stable_sort accepting in
  let w' := snd (dispatch_loop env (candidates env) (start 0 [])) in
  recipients (trace w') = ["ann@acme.example"; "ann@acme.example"] /\
  List.map e_email (con w') = ["ann@acme.example"] /\
  sent_now w' = 2.
Proof.
  intros env.
  set (w1 := snd (loop_body env (with_score (normalize ann)) (start 0 []))).
  destruct (known_address_mailed_again env (with_score (normalize ann)) w1
              (mkPayload
                 "AVC at Acme re: master data governance for SAP S/4HANA programs"
                 "Ann" "Acme" "ann@acme.example" "iVBORw0KGgo=")
              1 (mkMailResponse 202 None EmptyString))
    as (Hok & Hto & Hcon & Hcount & _).
  - vm_compute. repeat constructor. set_solver.
  - intros w0. reflexivity.
  - vm_compute. reflexivity.
  - reflexivity.
  - reflexivity.
  - vm_compute. reflexivity.
  - assert (Hrun : dispatch_loop env (candidates env) (start 0 [])
                   = (fst (loop_body env (with_score (normalize ann)) w1),
                      snd (loop_body env (with_score (normalize ann)) w1)))
      by (vm_compute; reflexivity).
    cbv zeta. rewrite Hrun. cbn [snd]. rewrite Hto, Hcon, Hcount.
    repeat split.
Defined.

(** X21. A row whose first name or organisation name cell is empty
    stops the run: building its message raises outside the [try] block, so
    the loop ends there with the exception, no mail is sent for this row
    or for any row after it, and nothing is written to the ledger. *)
Theorem missing_name_aborts_run (env : Env) (r : Rec) (rest : list Rec) (w : World) :
  unique_keys (con w) ->
  l_first_name (lead r) = None \/ l_organization_name (lead r) = None ->
  dispatch_loop env (r :: rest) w = (Raised AttributeError, after_quota_check env w) /\
  con (after_quota_check env w) = con w /\
  recipients (trace (after_quota_check env w)) = recipients (trace w).
Proof.
  intros Hu Hnan.
  assert (Hbuild : forall w0, build_message env r w0 = (Raised AttributeError, w0)).
  { intros w0. unfold build_message. eff.
    destruct Hnan as [-> | ->]; [reflexivity |].
    destruct (l_first_name (lead r)); reflexivity. }
  split; [| split].
  - cbn [dispatch_loop]. unfold bind at 1.
    rewrite (loop_body_unfold env r w Hu). unfold bind at 1. rewrite Hbuild.
    reflexivity.
  - unfold after_quota_check.
    destruct (sent_count_today (con w) (today env w) >=? DAILY_LIMIT env); reflexivity.
  - unfold after_quota_check.
    destruct (sent_count_today (con w) (today env w) >=? DAILY_LIMIT env);
      [| reflexivity].
    unfold recipients. cbn [trace rev]. rewrite omap_app. cbn. apply app_nil_r.
Qed.

(** A lead without first name stops the run; Bob, after it in the sheet,
    is never reached. *)
Lemma missing_name_aborts_run_witness :
  let nameless :=
    mkLead (Some "cid@acme.example") (Some "verified") (Some "MDM Lead")
           (Some "Acme") None (Some "p-cid") in
  let env := env_of 50 [nameless; bob] stable_sort accepting in
  dispatch_loop env (candidates env) (start 0 [])
  = (Raised AttributeError, start 0 []).
Proof.
  intros nameless env.
  assert (Hcand : candidates env
                  = [with_score (normalize nameless); with_score (normalize bob)])
    by (vm_compute; reflexivity).
  rewrite Hcand.
  destruct (missing_name_aborts_run env (with_score (normalize nameless))
              [with_score (normalize bob)] (start 0 [])) as (Hstop & _).
  - apply NoDup_nil. trivial.
  - left. reflexivity.
  - rewrite Hstop. reflexivity.
Defined.

End DispatchPaths.

(** ** What one candidate can cost *)

Section Budget.
Import Dispatch DispatchShape.

Variable env : Env.
Variables a b c : nat.
Variable d : Z.

Let B (k t l : nat) (n : Z) : World -> Prop :=
  within_budget (a + k) (b + t) (c + l) (d + n).

(** The step returns, in a world in [P]. *)
Let returns (P : World -> Prop) : outcome exn unit -> World -> Prop :=
  fun o w => match o with
             | Ok _ => P w
             | Raised _ => False
             end.

Lemma budget_mono k t l n k' t' l' n' w :
  B k t l n w -> (k <= k')%nat -> (t <= t')%nat -> (l <= l')%nat -> n <= n' ->
  B k' t' l' n' w.
Proof. unfold B, within_budget. lia. Qed.

Lemma budget_send k t l n payload :
  hoare (B k t l n) (graph_post_sendmail env payload) (fun _ => B (S k) t l n).
Proof.
  intros w Hw. unfold graph_post_sendmail. eff.
  unfold B, within_budget in *. destruct (graph_nth env (sends w)); cbn; lia.
Qed.

Lemma budget_token k t l n :
  hoare (B k t l n) (get_access_token env) (fun _ => B k (S t) l n).
Proof.
  intros w Hw. unfold get_access_token. eff.
  unfold B, within_budget in *.
  destruct (get_access_token_nth env (token_requests w)); cbn; lia.
Qed.

Lemma insert_or_ignore_length con row :
  (length (insert_or_ignore con row) <= S (length con))%nat.
Proof.
  destruct (insert_or_ignore_cases con row) as [[_ ->] | [_ ->]];
    [| rewrite length_app; cbn]; lia.
Qed.

Lemma budget_mark k t l n email person_id company subject status :
  hoare (B k t l n) (mark_sent env email person_id company subject status)
        (returns (B k t (S l) n)).
Proof.
  apply hoare_modify. intros w Hw. unfold returns, B, within_budget in *.
  cbn [con sends token_requests sent_now set_con].
  pose proof (insert_or_ignore_length (con w)
                (mkEntry (today env w) (now w) email person_id company subject status)).
  lia.
Qed.

Lemma budget_count k t l n :
  hoare (B k t l n) count_sent_now (returns (B k t l (n + 1))).
Proof.
  apply hoare_modify. intros w Hw. unfold returns, B, within_budget in *. cbn. lia.
Qed.

Lemma budget_sleep_any k t l n s :
  hoare (B k t l n) (sleep env s) (fun _ => B k t l n).
Proof. apply inv_sleep. intros w Hw. exact Hw. Qed.

Lemma budget_attempt payload email person_id company subject :
  hoare (B 0 0 0 0) (attempt env payload email person_id company subject)
        (fun o => match o with
                  | Ok _ => B 3 1 1 1
                  | Raised _ => B 3 1 0 0
                  end).
Proof.
  unfold attempt.
  apply (hoare_bind _ (fun _ => B 1 0 0 0)); [apply budget_send | | intros resp].
  { intros e w Hw. eapply budget_mono; [exact Hw | lia ..]. }
  apply (hoare_bind _ (fun _ => B 2 1 0 0)).
  { destruct (status_code resp =? 401).
    - apply (hoare_bind _ (fun _ => B 1 1 0 0)); [apply budget_token | | intros _].
      + intros e w Hw. eapply budget_mono; [exact Hw | lia ..].
      + apply budget_send.
    - apply hoare_ret. intros w Hw. eapply budget_mono; [exact Hw | lia ..]. }
  { intros e w Hw. eapply budget_mono; [exact Hw | lia ..]. }
  intros resp'.
  assert (Hsent : forall k,
             (k <= 3)%nat ->
             hoare (B k 1 0 0)
               (bind (mark_sent env email person_id company subject "sent")
                     (fun _ => count_sent_now))
               (fun o => match o with
                         | Ok _ => B 3 1 1 1
                         | Raised _ => B 3 1 0 0
                         end)).
  { intros k Hk.
    apply (hoare_bind _ (returns (B k 1 1 0))); [apply budget_mark | intros e w [] |].
    intros u0. eapply hoare_weaken; [apply budget_count | intros w Hw; exact Hw |].
    intros [u | e] w Hw; [| destruct Hw].
    eapply budget_mono; [exact Hw | lia ..]. }
  assert (Hfailed : forall k status,
             (k <= 3)%nat ->
             hoare (B k 1 0 0)
               (mark_sent env email person_id company subject status)
               (fun o => match o with
                         | Ok _ => B 3 1 1 1
                         | Raised _ => B 3 1 0 0
                         end)).
  { intros k status Hk. eapply hoare_weaken; [apply budget_mark | intros w Hw; exact Hw |].
    intros [u | e] w Hw; [| destruct Hw].
    eapply budget_mono; [exact Hw | lia ..]. }
  destruct (is_success (status_code resp')); [apply Hsent; lia |].
  destruct (status_code resp' =? 429); [| apply Hfailed; lia].
  apply (hoare_bind _ (fun _ => B 2 1 0 0)); [apply hoare_lift; auto | | intros sleep_s].
  { intros e w Hw. eapply budget_mono; [exact Hw | lia ..]. }
  apply (hoare_bind _ (fun _ => B 2 1 0 0)); [apply budget_sleep_any | | intros u0].
  { intros e w Hw. eapply budget_mono; [exact Hw | lia ..]. }
  apply (hoare_bind _ (fun _ => B 3 1 0 0)); [apply budget_send | auto | intros resp2].
  destruct (is_success (status_code resp2)); [apply Hsent; lia | apply Hfailed; lia].
Qed.

Lemma build_message_world r w : snd (build_message env r w) = w.
Proof.
  unfold build_message. eff.
  destruct (cell_strip (l_first_name (lead r))); [| reflexivity].
  destruct (cell_strip (l_organization_name (lead r))); [| reflexivity].
  destruct (logo_file env); reflexivity.
Qed.

Lemma budget_loop_body r :
  hoare (B 0 0 0 0) (loop_body env r) (fun _ => B 3 1 1 1).
Proof.
  assert (Hup : forall w, B 0 0 0 0 w -> B 3 1 1 1 w)
    by (intros w Hw; eapply budget_mono; [exact Hw | lia ..]).
  unfold loop_body.
  apply (hoare_bind _ (fun _ => B 0 0 0 0)); [apply hoare_get; auto | auto | intros w0].
  apply (hoare_bind _ (fun _ => B 0 0 0 0)); [| auto | intros _].
  { destruct (sent_count_today (con w0) (today env w0) >=? DAILY_LIMIT env);
      [| apply hoare_ret; auto].
    apply budget_sleep_any. }
  cbv zeta.
  apply (hoare_bind _ (fun _ => B 0 0 0 0)); [apply hoare_get; auto | auto | intros w1].
  match goal with |- hoare _ (if ?g then _ else _) _ => destruct g end;
    [apply hoare_ret; auto |].
  apply (hoare_bind _ (fun _ => B 0 0 0 0)); [| auto | intros payload].
  { intros w Hw. rewrite build_message_world. exact Hw. }
  apply (hoare_bind _ (returns (B 3 1 1 1))); [| intros e w [] | intros u0].
  - apply (hoare_try _ (fun o => match o with
                                 | Ok _ => B 3 1 1 1
                                 | Raised _ => B 3 1 0 0
                                 end)); [apply budget_attempt | auto |].
    intros e. eapply hoare_weaken; [apply budget_mark | intros w Hw; exact Hw |].
    intros [u | e'] w Hw; [| destruct Hw].
    eapply budget_mono; [exact Hw | lia ..].
  - apply budget_sleep_any.
Qed.

End Budget.

Section BudgetOfARun.
Import Dispatch DispatchShape.

Lemma budget_dispatch_loop env df (a b c : nat) (d : Z) :
  hoare (within_budget a b c d) (dispatch_loop env df)
        (fun _ => within_budget (a + 3 * length df) (b + length df) (c + length df)
                                (d + Z.of_nat (length df))).
Proof.
  revert a b c d. induction df as [| r rest IH]; intros a b c d; cbn [dispatch_loop].
  - apply hoare_ret. intros w Hw. unfold within_budget in *. cbn [length]. lia.
  - apply (hoare_bind _ (fun _ => within_budget (a + 3) (b + 1) (c + 1) (d + 1)));
      [| | intros _].
    + eapply hoare_weaken; [apply (budget_loop_body env a b c d r) | |].
      * intros w Hw. unfold within_budget in *. lia.
      * intros o w Hw. exact Hw.
    + intros e w Hw. unfold within_budget in *. cbn [length]. lia.
    + eapply hoare_weaken; [apply IH | intros w Hw; exact Hw |].
      intros o w Hw. unfold within_budget in *. cbn [length]. lia.
Qed.

(** X22. What a candidate can cost: at most three mail calls (the
    send, its repetition after a 401 and the retry after a 429), at most
    one token request, at most one ledger row and at most one counted
    send; so a loop over [n] candidates makes at most [3 n] mail calls and
    [n] token requests, writes at most [n] rows and counts at most [n]
    sends, however the mail service answers. *)
Theorem candidate_costs_bounded (env : Env) (r : Rec) (df : list Rec) (w : World) :
  (let w' := snd (loop_body env r w) in
   (sends w' <= sends w + 3)%nat /\
   (token_requests w' <= token_requests w + 1)%nat /\
   (length (con w') <= length (con w) + 1)%nat /\
   sent_now w' <= sent_now w + 1) /\
  (let w' := snd (dispatch_loop env df w) in
   (sends w' <= sends w + 3 * length df)%nat /\
   (token_requests w' <= token_requests w + length df)%nat /\
   (length (con w') <= length (con w) + length df)%nat /\
   sent_now w' <= sent_now w + Z.of_nat (length df)).
Proof.
  assert (Hstart : within_budget (sends w) (token_requests w) (length (con w))
                                 (sent_now w) w)
    by (unfold within_budget; lia).
  split.
  - apply (budget_loop_body env (sends w) (token_requests w) (length (con w))
             (sent_now w) r w).
    unfold within_budget in *. lia.
  - apply (budget_dispatch_loop env df _ _ _ _ w Hstart).
Qed.

End BudgetOfARun.

(** ** Refused tokens and broken connections *)

Section DispatchFailures.
Import Dispatch DispatchShape DispatchExamples.

Lemma attempt_unauthorized env payload email person_id company subject w
    el1 el2 r1 r2 t :
  graph_nth env (sends w) = Answered el1 r1 ->
  status_code r1 = 401 ->
  get_access_token_nth env (token_requests w) = inl t ->
  graph_nth env (S (sends w)) = Answered el2 r2 ->
  (status_code r2 =? 429) = false ->
  attempt env payload email person_id company subject w
  = (Ok tt,
     mkWorld (now w + el1 + el2)
       (insert_or_ignore (con w)
          (mkEntry (local_date env (now w + el1 + el2)) (now w + el1 + el2)
                   email person_id company subject
                   (if is_success (status_code r2) then "sent" else error_status r2)))
       (S (S (sends w))) (S (token_requests w)) t
       (if is_success (status_code r2) then sent_now w + 1 else sent_now w)
       (last_sent_message w)
       (EvSend t payload :: EvSend (token w) payload :: trace w)).
Proof.
  intros Hfirst H401 Htoken Hsecond H429.
  destruct r1 as [code1 header1 text1]. cbn in H401. subst code1.
  unfold attempt, graph_post_sendmail, get_access_token, mark_sent, count_sent_now. eff.
  rewrite Hfirst.
  cbn [now con sends token_requests token sent_now last_sent_message trace
       status_code Z.eqb Pos.eqb].
  rewrite Htoken.
  cbn [now con sends token_requests token sent_now last_sent_message trace set_token].
  rewrite Hsecond. destruct (is_success (status_code r2)); [reflexivity |].
  rewrite H429. reflexivity.
Qed.

(** X23. An expired token: when the mail service answers 401, the loop
    asks for a new token once and sends the message once more with it; the
    answer to that second call is the one that is logged and counted, and
    when it is 401 again the row reads error:401 and no further token is
    asked for. *)
Theorem expired_token_refreshed_once
    (env : Env) (r : Rec) (w : World) (payload : Payload) (el1 el2 : N)
    (r1 r2 : MailResponse) (t : string) :
  unique_keys (con w) ->
  sent_count_today (con w) (today env w) < DAILY_LIMIT env ->
  (forall w0, build_message env r w0 = (Ok payload, w0)) ->
  graph_nth env (sends w) = Answered el1 r1 ->
  status_code r1 = 401 ->
  get_access_token_nth env (token_requests w) = inl t ->
  graph_nth env (S (sends w)) = Answered el2 r2 ->
  status_code r2 <> 429 ->
  let tm := (now w + el1 + el2)%N in
  let accepted := is_success (status_code r2) in
  let status := if accepted then "sent" else error_status r2 in
  loop_body env r w
  = (Ok tt,
     mkWorld (tm + SLEEP_BETWEEN_SENDS_SEC)
       (insert_or_ignore (con w) (entry_at env tm r (subject payload) status))
       (S (S (sends w))) (S (token_requests w)) t
       (if accepted then sent_now w + 1 else sent_now w)
       (last_sent_message w)
       (EvSleep SLEEP_BETWEEN_SENDS_SEC :: EvSend t payload
          :: EvSend (token w) payload :: trace w)) /\
  (status_code r2 = 401 -> status = "error:401:" ++ Py.slice_to 200 (text r2)).
Proof.
  intros Hu Hquota Hbuild Hfirst H401 Htoken Hsecond H429 tm accepted status.
  split.
  - rewrite (loop_body_continues env r w payload (Ok tt)
               (mkWorld tm
                  (insert_or_ignore (con w) (entry_at env tm r (subject payload) status))
                  (S (S (sends w))) (S (token_requests w)) t
                  (if accepted then sent_now w + 1 else sent_now w)
                  (last_sent_message w)
                  (EvSend t payload :: EvSend (token w) payload :: trace w))
               Hu Hquota (Hbuild w)); [reflexivity |].
    unfold try_except.
    rewrite (attempt_unauthorized env payload _ _ _ _ w el1 el2 r1 r2 t
               Hfirst H401 Htoken Hsecond); [reflexivity |].
    apply Z.eqb_neq, H429.
  - intros Hagain. unfold status, accepted, error_status. rewrite Hagain. reflexivity.
Qed.

(** The first call is refused with 401, the call with the new token is
    accepted. *)
Lemma expired_token_refreshed_once_witness :
  let graph := fun n : nat =>
    match n with
    | O => Answered 1 (mkMailResponse 401 None "Unauthorized")
    | _ => Answered 1 (mkMailResponse 202 None EmptyString)
    end in
  let env := env_of 50 [ann] stable_sort graph in
  let w := mkWorld 0 [] 0 1 "stale" 0 (Some "hi there boss") [] in
  let w' := snd (loop_body env (with_score (normalize ann)) w) in
  List.map (fun e => match e with
                     | EvSend tok p => tok ++ " " ++ to_address p
                     | EvSleep n => pretty n
                     | EvNotify m => m
                     end) (rev (trace w'))
  = ["stale ann@acme.example"; "token ann@acme.example"; "180"] /\
  token_requests w' = 2%nat /\
  List.map e_status (con w') = ["sent"].
Proof.
  intros graph env w.
  destruct (expired_token_refreshed_once env (with_score (normalize ann)) w
              (mkPayload
                 "AVC at Acme re: master data governance for SAP S/4HANA programs"
                 "Ann" "Acme" "ann@acme.example" "iVBORw0KGgo=")
              1 1 (mkMailResponse 401 None "Unauthorized")
              (mkMailResponse 202 None EmptyString) "token")
    as (Hstep & _).
  - apply NoDup_nil. trivial.
  - vm_compute. reflexivity.
  - intros w0. reflexivity.
  - reflexivity.
  - reflexivity.
  - reflexivity.
  - reflexivity.
  - cbn. discriminate.
  - cbv zeta. rewrite Hstep. repeat split.
Defined.

Lemma attempt_broke env payload email person_id company subject w el detail :
  graph_nth env (sends w) = Broke el detail ->
  attempt env payload email person_id company subject w
  = (Raised (TransportError detail),
     mkWorld (now w + el) (con w) (S (sends w)) (token_requests w) (token w)
             (sent_now w) (last_sent_message w) (EvSend (token w) payload :: trace w)).
Proof.
  intros Hfirst. unfold attempt, graph_post_sendmail. eff. rewrite Hfirst. reflexivity.
Qed.

(** X24. A connection that breaks: when the mail call raises, the
    exception does not leave the loop; a row with the status
    ["exception:<message>"] is offered to the ledger, nothing is counted,
    and the loop pauses 180 seconds and goes on with the next candidate. *)
Theorem transport_error_logged
    (env : Env) (r : Rec) (rest : list Rec) (w : World) (payload : Payload)
    (el : N) (detail : string) :
  unique_keys (con w) ->
  sent_count_today (con w) (today env w) < DAILY_LIMIT env ->
  (forall w0, build_message env r w0 = (Ok payload, w0)) ->
  graph_nth env (sends w) = Broke el detail ->
  let tm := (now w + el)%N in
  let w' :=
    mkWorld (tm + SLEEP_BETWEEN_SENDS_SEC)
      (insert_or_ignore (con w)
         (entry_at env tm r (subject payload) ("exception:" ++ detail)))
      (S (sends w)) (token_requests w) (token w) (sent_now w) (last_sent_message w)
      (EvSleep SLEEP_BETWEEN_SENDS_SEC :: EvSend (token w) payload :: trace w) in
  loop_body env r w = (Ok tt, w') /\
  dispatch_loop env (r :: rest) w = dispatch_loop env rest w'.
Proof.
  intros Hu Hquota Hbuild Hfirst tm w'.
  assert (Hstep : loop_body env r w = (Ok tt, w')).
  { rewrite (loop_body_continues env r w payload (Ok tt)
               (mkWorld tm
                  (insert_or_ignore (con w)
                     (entry_at env tm r (subject payload) ("exception:" ++ detail)))
                  (S (sends w)) (token_requests w) (token w) (sent_now w)
                  (last_sent_message w) (EvSend (token w) payload :: trace w))
               Hu Hquota (Hbuild w)); [reflexivity |].
    unfold try_except.
    rewrite (attempt_broke env payload _ _ _ _ w el detail Hfirst). reflexivity. }
  split; [exact Hstep |].
  cbn [dispatch_loop]. unfold bind at 1. rewrite Hstep. reflexivity.
Qed.

(** The connection breaks on the mail for Ann; Bob is mailed next. *)
Lemma transport_error_logged_witness :
  let graph := fun n : nat =>
    match n with
    | O => Broke 60 "Read timed out."
    | _ => Answered 1 (mkMailResponse 202 None EmptyString)
    end in
  let env := env_of 50 [ann; bob] stable_sort graph in
  let w' := snd (dispatch_loop env (candidates env) (start 0 [])) in
  List.map (fun e => (e_email e, e_status e)) (con w')
  = [ ("ann@acme.example", "exception:Read timed out.");
      ("bob@acme.example", "sent") ] /\
  sent_now w' = 1.
Proof.
  intros graph env.
  assert (Hcand : candidates env
                  = [with_score (normalize ann); with_score (normalize bob)])
    by (vm_compute; reflexivity).
  rewrite Hcand.
  destruct (transport_error_logged env (with_score (normalize ann))
              [with_score (normalize bob)] (start 0 [])
              (mkPayload
                 "AVC at Acme re: master data governance for SAP S/4HANA programs"
                 "Ann" "Acme" "ann@acme.example" "iVBORw0KGgo=")
              60 "Read timed out.")
    as (_ & Hrest).
  - apply NoDup_nil. trivial.
  - vm_compute. reflexivity.
  - intros w0. reflexivity.
  - reflexivity.
  - cbv zeta. rewrite Hrest. split; vm_compute; reflexivity.
Defined.

(** X25. A token that cannot be obtained: at the start of a run the
    failure ends the run before any mail call, ledger write or
    notification; at the refresh after a 401 it is caught like any failure
    of the send, logged as ["exception:<message>"], and the loop goes
    on. *)
Theorem token_failure_at_start_and_at_refresh
    (env : Env) (r : Rec) (w : World) (payload : Payload) (el : N)
    (r1 : MailResponse) (detail : string) :
  sent_count_today (con w) (today env w) < DAILY_LIMIT env ->
  get_access_token_nth env (token_requests w) = inr detail ->
  main env w
  = (Raised (TokenError detail),
     mkWorld (now w) (con w) (sends w) (S (token_requests w)) (token w) (sent_now w)
             (last_sent_message w) (trace w)) /\
  (unique_keys (con w) ->
   (forall w0, build_message env r w0 = (Ok payload, w0)) ->
   graph_nth env (sends w) = Answered el r1 ->
   status_code r1 = 401 ->
   loop_body env r w
   = (Ok tt,
      mkWorld (now w + el + SLEEP_BETWEEN_SENDS_SEC)
        (insert_or_ignore (con w)
           (entry_at env (now w + el) r (subject payload) ("exception:" ++ detail)))
        (S (sends w)) (S (token_requests w)) (token w) (sent_now w)
        (last_sent_message w)
        (EvSleep SLEEP_BETWEEN_SENDS_SEC :: EvSend (token w) payload :: trace w))).
Proof.
  intros Hquota Htoken.
  assert (Hq : (sent_count_today (con w) (today env w) >=? DAILY_LIMIT env) = false)
    by (rewrite Z.geb_leb; apply Z.leb_gt; exact Hquota).
  split.
  - unfold main. unfold bind at 1, get. rewrite Hq. unfold bind at 1.
    unfold get_access_token. eff. rewrite Htoken. reflexivity.
  - intros Hu Hbuild Hfirst H401.
    rewrite (loop_body_continues env r w payload (Ok tt)
               (mkWorld (now w + el)
                  (insert_or_ignore (con w)
                     (entry_at env (now w + el) r (subject payload)
                        ("exception:" ++ detail)))
                  (S (sends w)) (S (token_requests w)) (token w) (sent_now w)
                  (last_sent_message w) (EvSend (token w) payload :: trace w))
               Hu Hquota (Hbuild w)); [reflexivity |].
    destruct r1 as [code1 header1 text1]. cbn in H401. subst code1.
    unfold try_except, attempt, graph_post_sendmail, get_access_token, mark_sent. eff.
    rewrite Hfirst.
    cbn [now con sends token_requests token sent_now last_sent_message trace
         status_code Z.eqb Pos.eqb].
    rewrite Htoken. reflexivity.
Qed.

(** No token is to be had: the run ends at once. *)
Lemma token_failure_at_start_and_at_refresh_witness :
  let env := mkEnv 50 [ann] None (Some "iVBORw0KGgo=") stable_sort
                   (fun _ => inr "Token error: invalid_client") accepting
                   utc (fun _ _ => None) in
  let w' := snd (main env (start 0 [])) in
  fst (main env (start 0 [])) = Raised (TokenError "Token error: invalid_client") /\
  trace w' = [] /\ con w' = [] /\ token_requests w' = 1%nat.
Proof.
  intros env.
  destruct (token_failure_at_start_and_at_refresh env (with_score (normalize ann))
              (start 0 [])
              (mkPayload EmptyString EmptyString EmptyString EmptyString EmptyString)
              0 (mkMailResponse 401 None EmptyString) "Token error: invalid_client")
    as (Hstart & _).
  - vm_compute. reflexivity.
  - reflexivity.
  - cbv zeta. rewrite Hstart. repeat split.
Defined.

End DispatchFailures.

(** ** The report that ends a run *)

Section Report.
Import Dispatch DispatchShape DispatchExamples.

Lemma notifications_cons e tr :
  notifications (e :: tr)
  = (notifications tr ++ match e with
                         | EvNotify m => [m]
                         | _ => []
                         end)%list.
Proof.
  unfold notifications. cbn [rev]. rewrite omap_app.
  destruct e; reflexivity.
Qed.

(** The loop sends no notification and leaves the last one as it is. *)
Lemma quiet_dispatch_loop env df last said :
  hoare (fun w => last_sent_message w = last /\ notifications (trace w) = said)
        (dispatch_loop env df)
        (fun _ w => last_sent_message w = last /\ notifications (trace w) = said).
Proof.
  apply (inv_dispatch_loop env
           (fun w => last_sent_message w = last /\ notifications (trace w) = said)
           (fun _ => True)).
  - intros n. apply inv_sleep. intros w [H1 H2]. split; [exact H1 |].
    cbn [trace slept]. rewrite notifications_cons, app_nil_r. exact H2.
  - intros email person_id company subject status.
    apply hoare_modify. intros w Hw. exact Hw.
  - apply hoare_modify. intros w Hw. exact Hw.
  - intros w Hw. unfold get_access_token. eff.
    destruct (get_access_token_nth env (token_requests w)); exact Hw.
  - intros payload _ w [H1 H2]. unfold graph_post_sendmail. eff.
    destruct (graph_nth env (sends w)); (split; [exact H1 |]);
      cbn [snd trace]; rewrite notifications_cons, app_nil_r; exact H2.
  - intros r p _ _. exact I.
Qed.

(** The counter of the run never goes below zero. *)
Lemma counted_dispatch_loop env df :
  hoare (fun w => 0 <= sent_now w) (dispatch_loop env df) (fun _ w => 0 <= sent_now w).
Proof.
  apply (inv_dispatch_loop env (fun w => 0 <= sent_now w) (fun _ => True)).
  - intros n. apply inv_sleep. intros w Hw. exact Hw.
  - intros email person_id company subject status.
    apply hoare_modify. intros w Hw. exact Hw.
  - apply hoare_modify. intros w Hw. cbn [sent_now]. lia.
  - intros w Hw. unfold get_access_token. eff.
    destruct (get_access_token_nth env (token_requests w)); exact Hw.
  - intros payload _ w Hw. unfold graph_post_sendmail. eff.
    destruct (graph_nth env (sends w)); exact Hw.
  - intros r p _ _. exact I.
Qed.

Lemma done_message_not_greeting n : done_message n <> "hi there boss".
Proof. unfold done_message. rewrite append_cons. congruence. Qed.

(** X26. The report: a run that finds the quota reached at its start
    does nothing and reports nothing; any other run that comes to its end
    leaves the message "[done] Sent k emails, ..." as the last one, and
    sends it as its only notification, unless the same text was the last
    notification sent before; a run that ends in an exception sends none.
    The number [k] is the count of the sends accepted in this call of
    [main]: the counter starts from zero at every call, whatever it was
    before, and ends between zero and the number of candidates. Started in
    a fresh process, a run that comes to its end notifies exactly once; a
    second call in the same process that sends as many mails as the first
    repeats the text of the first and notifies nobody. *)
Theorem run_ends_with_report (env : Env) (w : World) :
  (sent_count_today (con w) (today env w) >= DAILY_LIMIT env ->
   main env w = (Ok tt, w)) /\
  (sent_count_today (con w) (today env w) < DAILY_LIMIT env ->
   match main env w with
   | (Ok _, w') =>
       last_sent_message w' = Some (done_message (sent_now w')) /\
       notifications (trace w')
       = (notifications (trace w)
          ++ if bool_decide (last_sent_message w = Some (done_message (sent_now w')))
             then [] else [done_message (sent_now w')])%list /\
       (last_sent_message w = Some "hi there boss" ->
        notifications (trace w')
        = (notifications (trace w) ++ [done_message (sent_now w')])%list) /\
       0 <= sent_now w' <= Z.of_nat (length (candidates env))
   | (Raised _, w') =>
       last_sent_message w' = last_sent_message w /\
       notifications (trace w') = notifications (trace w)
   end) /\
  (let env1 := env_of 50 [ann] stable_sort accepting in
   let first := snd (main env1 (start 0 [])) in
   let second := snd (main env1 first) in
   sent_now first = 1 /\ sent_now second = 1 /\
   recipients (trace second) = ["ann@acme.example"; "ann@acme.example"] /\
   notifications (trace first) = [done_message 1] /\
   notifications (trace second) = [done_message 1]).
Proof.
  split; [| split; [| cbv zeta; repeat split; vm_compute; reflexivity]].
  - intros Hfull. unfold main. unfold bind at 1, get.
    replace (sent_count_today (con w) (today env w) >=? DAILY_LIMIT env) with true
      by (symmetry; rewrite Z.geb_leb; apply Z.leb_le; lia).
    reflexivity.
  - intros Hquota.
    assert (Hq : (sent_count_today (con w) (today env w) >=? DAILY_LIMIT env) = false)
      by (rewrite Z.geb_leb; apply Z.leb_gt; exact Hquota).
    unfold main. unfold bind at 1, get. rewrite Hq. unfold bind at 1.
    assert (Htok : last_sent_message (snd (get_access_token env w)) = last_sent_message w
                   /\ notifications (trace (snd (get_access_token env w)))
                      = notifications (trace w)).
    { unfold get_access_token. eff.
      destruct (get_access_token_nth env (token_requests w)); split; reflexivity. }
    destruct (get_access_token env w) as [[u | e] w1]; cbn [snd] in Htok;
      [| exact Htok].
    unfold bind at 1. unfold reset_sent_now at 1, modify at 1.
    set (w0 := mkWorld (now w1) (con w1) (sends w1) (token_requests w1) (token w1) 0
                       (last_sent_message w1) (trace w1)).
    unfold bind at 1.
    pose proof (quiet_dispatch_loop env (candidates env)
                  (last_sent_message w) (notifications (trace w)) w0 Htok) as Hloop.
    pose proof (counted_dispatch_loop env (candidates env) w0 (Z.le_refl 0)) as Hlow.
    pose proof (budget_dispatch_loop env (candidates env) (sends w0) (token_requests w0)
                  (length (con w0)) 0 w0) as Hhigh.
    destruct (dispatch_loop env (candidates env) w0) as [[u' | e] w2];
      cbn [fst snd] in Hloop, Hlow, Hhigh; [| exact Hloop].
    destruct Hloop as [Hlast Hsaid].
    assert (Hcount : 0 <= sent_now w2 <= Z.of_nat (length (candidates env))).
    { split; [exact Hlow |].
      destruct Hhigh as (_ & _ & _ & H); [unfold within_budget; cbn; lia | lia]. }
    unfold bind at 1, get. fold (done_message (sent_now w2)).
    unfold send_notification_custom. unfold bind at 1, get.
    rewrite Hlast.
    destruct (last_sent_message w) as [m |] eqn:Hm.
    + destruct (String.eqb_spec (done_message (sent_now w2)) m) as [Heq | Hne].
      * unfold ret. subst m. split; [exact Hlast |]. split; [| split; [| exact Hcount]].
        -- rewrite bool_decide_eq_true_2 by reflexivity.
           rewrite app_nil_r. exact Hsaid.
        -- intros Hgreet. exfalso.
           apply (done_message_not_greeting (sent_now w2)). congruence.
      * unfold modify. cbn [last_sent_message trace sent_now].
        split; [reflexivity |].
        rewrite notifications_cons, Hsaid. split; [| split; [reflexivity | exact Hcount]].
        rewrite bool_decide_eq_false_2 by congruence. reflexivity.
    + unfold modify. cbn [last_sent_message trace sent_now].
      split; [reflexivity |].
      rewrite notifications_cons, Hsaid. split; [| split; [discriminate | exact Hcount]].
      rewrite bool_decide_eq_false_2 by congruence. reflexivity.
Qed.

End Report.

(** ** Answers of the mail service other than acceptance *)

Section DispatchAnswers.
Import Dispatch DispatchShape DispatchExamples.

Lemma attempt_rejected env payload email person_id company subject w el resp :
  graph_nth env (sends w) = Answered el resp ->
  is_success (status_code resp) = false ->
  (status_code resp =? 401) = false ->
  (status_code resp =? 429) = false ->
  attempt env payload email person_id company subject w
  = (Ok tt,
     mkWorld (now w + el)
       (insert_or_ignore (con w)
          (mkEntry (local_date env (now w + el)) (now w + el)
                   email person_id company subject (error_status resp)))
       (S (sends w)) (token_requests w) (token w) (sent_now w)
       (last_sent_message w) (EvSend (token w) payload :: trace w)).
Proof.
  intros Hfirst Hfail H401 H429.
  unfold attempt, graph_post_sendmail, mark_sent. eff.
  rewrite Hfirst.
  cbn [now con sends token_requests token sent_now last_sent_message trace].
  rewrite H401, Hfail, H429. reflexivity.
Qed.

(** X27. A send that is refused with a status other than 200, 202, 401
    and 429 is not repeated: one mail call is made, the row reads
    ["error:<code>:<first 200 characters of the body>"], nothing is
    counted, and the loop pauses 180 seconds and goes on. *)
Theorem rejected_send_logged_not_retried
    (env : Env) (r : Rec) (rest : list Rec) (w : World) (payload : Payload)
    (el : N) (resp : MailResponse) :
  unique_keys (con w) ->
  sent_count_today (con w) (today env w) < DAILY_LIMIT env ->
  (forall w0, build_message env r w0 = (Ok payload, w0)) ->
  graph_nth env (sends w) = Answered el resp ->
  ~ In (status_code resp) [200; 202; 401; 429] ->
  let tm := (now w + el)%N in
  let status := "error:" ++ pretty (status_code resp) ++ ":" ++ Py.slice_to 200 (text resp) in
  let w' :=
    mkWorld (tm + SLEEP_BETWEEN_SENDS_SEC)
      (insert_or_ignore (con w) (entry_at env tm r (subject payload) status))
      (S (sends w)) (token_requests w) (token w) (sent_now w) (last_sent_message w)
      (EvSleep SLEEP_BETWEEN_SENDS_SEC :: EvSend (token w) payload :: trace w) in
  loop_body env r w = (Ok tt, w') /\
  dispatch_loop env (r :: rest) w = dispatch_loop env rest w' /\
  (String.length (Py.slice_to 200 (text resp)) <= 200)%nat.
Proof.
  intros Hu Hquota Hbuild Hfirst Hstatus tm status w'.
  assert (Hcodes : is_success (status_code resp) = false
                   /\ (status_code resp =? 401) = false
                   /\ (status_code resp =? 429) = false).
  { unfold is_success. cbn [In] in Hstatus.
    repeat split; [apply orb_false_intro |..]; apply Z.eqb_neq; intros Heq;
      apply Hstatus; rewrite Heq; auto. }
  destruct Hcodes as (Hfail & H401 & H429).
  assert (Hstep : loop_body env r w = (Ok tt, w')).
  { rewrite (loop_body_continues env r w payload (Ok tt)
               (mkWorld tm
                  (insert_or_ignore (con w) (entry_at env tm r (subject payload) status))
                  (S (sends w)) (token_requests w) (token w) (sent_now w)
                  (last_sent_message w) (EvSend (token w) payload :: trace w))
               Hu Hquota (Hbuild w)); [reflexivity |].
    unfold try_except.
    rewrite (attempt_rejected env payload _ _ _ _ w el resp Hfirst Hfail H401 H429).
    reflexivity. }
  split; [exact Hstep |]. split; [| apply slice_to_length].
  cbn [dispatch_loop]. unfold bind at 1. rewrite Hstep. reflexivity.
Qed.

(** Ann's address is refused with 400; Bob is mailed next. *)
Lemma rejected_send_logged_not_retried_witness :
  let graph := fun n : nat =>
    match n with
    | O => Answered 1 (mkMailResponse 400 None "ErrorInvalidRecipients")
    | _ => Answered 1 (mkMailResponse 202 None EmptyString)
    end in
  let env := env_of 50 [ann; bob] stable_sort graph in
  let w' := snd (dispatch_loop env (candidates env) (start 0 [])) in
  List.map (fun e => (e_email e, e_status e)) (con w')
  = [ ("ann@acme.example", "error:400:ErrorInvalidRecipients");
      ("bob@acme.example", "sent") ] /\
  sends w' = 2%nat /\ sent_now w' = 1.
Proof.
  intros graph env.
  assert (Hcand : candidates env
                  = [with_score (normalize ann); with_score (normalize bob)])
    by (vm_compute; reflexivity).
  rewrite Hcand.
  destruct (rejected_send_logged_not_retried env (with_score (normalize ann))
              [with_score (normalize bob)] (start 0 [])
              (mkPayload
                 "AVC at Acme re: master data governance for SAP S/4HANA programs"
                 "Ann" "Acme" "ann@acme.example" "iVBORw0KGgo=")
              1 (mkMailResponse 400 None "ErrorInvalidRecipients"))
    as (_ & Hrest & _).
  - apply NoDup_nil. trivial.
  - vm_compute. reflexivity.
  - intros w0. reflexivity.
  - reflexivity.
  - cbn. intuition discriminate.
  - cbv zeta. rewrite Hrest. repeat split; vm_compute; reflexivity.
Defined.

End DispatchAnswers.

(** ** The pace of the dispatch loop *)

Section Pace.
Import Dispatch DispatchShape DispatchExamples.

Variable env : Env.

(** The ledger keys are unique and the clock has reached [t]. *)
Let Since (t : N) : World -> Prop :=
  fun w => unique_keys (con w) /\ (t <= now w)%N.

Lemma since_attempt t payload email person_id company subject :
  hoare (Since t) (attempt env payload email person_id company subject)
        (fun _ => Since t).
Proof.
  apply (inv_attempt env (Since t) (fun _ => True)); [| | | | | exact I].
  - intros n. apply inv_sleep. intros w [Hu Ht]. split; [exact Hu | cbn; lia].
  - intros e p c s st. apply hoare_modify. intros w [Hu Ht].
    split; [apply insert_or_ignore_unique, Hu | exact Ht].
  - apply hoare_modify. intros w Hw. exact Hw.
  - intros w Hw. unfold get_access_token. eff.
    destruct (get_access_token_nth env (token_requests w)); exact Hw.
  - intros p _ w [Hu Ht]. unfold graph_post_sendmail. eff.
    destruct (graph_nth env (sends w)); (split; [exact Hu | cbn; lia]).
Qed.

Lemma since_loop_body t r :
  hoare (Since t) (loop_body env r)
        (fun o w => match o with
                    | Ok _ => Since (t + SLEEP_BETWEEN_SENDS_SEC) w
                    | Raised _ => True
                    end).
Proof.
  assert (Hrest :
            hoare (Since t)
              (let* payload := build_message env r in
               let* _ := try_except
                           (attempt env payload (email r)
                              (Py.strip (str (l_person_id (lead r))))
                              (Py.strip (str (l_organization_name (lead r))))
                              (subject payload))
                           (fun e => mark_sent env (email r)
                                       (Py.strip (str (l_person_id (lead r))))
                                       (Py.strip (str (l_organization_name (lead r))))
                                       (subject payload) ("exception:" ++ exn_text e)) in
               sleep env SLEEP_BETWEEN_SENDS_SEC)%eff
              (fun o w => match o with
                          | Ok _ => Since (t + SLEEP_BETWEEN_SENDS_SEC) w
                          | Raised _ => True
                          end)).
  { apply (hoare_bind _ (fun _ => Since t)); [| intros e w _; exact I | intros payload].
    { intros w Hw. rewrite build_message_world. exact Hw. }
    apply (hoare_bind _ (fun _ => Since t)); [| intros e w _; exact I |].
    - apply inv_try; [apply since_attempt | intros e].
      apply hoare_modify. intros w [Hu Ht].
      split; [apply insert_or_ignore_unique, Hu | exact Ht].
    - intros u w [Hu Ht]. rewrite sleep_short by reflexivity.
      split; [exact Hu | cbn; lia]. }
  intros w [Hu Ht]. rewrite (loop_body_unfold env r w Hu). apply Hrest.
  unfold after_quota_check.
  destruct (sent_count_today (con w) (today env w) >=? DAILY_LIMIT env);
    (split; [exact Hu | cbn; lia]).
Qed.

Lemma since_dispatch_loop df t :
  hoare (Since t) (dispatch_loop env df)
        (fun o w => match o with
                    | Ok _ => Since (t + SLEEP_BETWEEN_SENDS_SEC * N.of_nat (length df)) w
                    | Raised _ => True
                    end).
Proof.
  revert t. induction df as [| r rest IH]; intros t; cbn [dispatch_loop].
  - apply hoare_ret. intros w [Hu Ht]. split; [exact Hu | cbn; lia].
  - eapply hoare_bind; [apply since_loop_body | auto |].
    intros u. eapply hoare_weaken; [apply (IH (t + SLEEP_BETWEEN_SENDS_SEC)%N) | |].
    + intros w Hw. exact Hw.
    + intros [u' | e] w Hw; [| exact I]. destruct Hw as [Hu Ht].
      split; [exact Hu |]. cbn [length]. unfold SLEEP_BETWEEN_SENDS_SEC in *. lia.
Qed.

End Pace.

Section PaceOfARun.
Import Dispatch DispatchShape DispatchExamples.

(** X30. The pace: with unique ledger keys no candidate is skipped, and
    every candidate the loop gets through costs at least the 180 seconds
    of the pause; a loop that comes to the end of [n] candidates has taken
    at least [180 n] seconds, and leaves the ledger keys unique. *)
Theorem pause_between_candidates (env : Env) (df : list Rec) (w : World) :
  unique_keys (con w) ->
  match dispatch_loop env df w with
  | (Ok _, w') =>
      (now w + 180 * N.of_nat (length df) <= now w')%N /\ unique_keys (con w')
  | (Raised _, _) => True
  end.
Proof.
  intros Hu.
  pose proof (since_dispatch_loop env df (now w) w (conj Hu (N.le_refl _))) as Hrun.
  destruct (dispatch_loop env df w) as [[u | e] w']; cbn [fst snd] in Hrun; [| exact I].
  destruct Hrun as [Hu' Ht]. split; [exact Ht | exact Hu'].
Qed.

Lemma pause_between_candidates_witness :
  let env := env_of 50 [ann; bob] stable_sort accepting in
  (360 <= now (snd (dispatch_loop env (candidates env) (start 0 []))))%N.
Proof.
  intros env.
  pose proof (pause_between_candidates env (candidates env) (start 0 [])) as Hpace.
  assert (Hok : fst (dispatch_loop env (candidates env) (start 0 [])) = Ok tt)
    by (vm_compute; reflexivity).
  destruct (dispatch_loop env (candidates env) (start 0 [])) as [[u | e] w'];
    [| discriminate Hok].
  destruct Hpace as [Ht _]; [apply NoDup_nil; trivial |].
  cbn [snd]. exact Ht.
Defined.

End PaceOfARun.
